(** * Teams MCP server: token cache and Adaptive Card validation

    A shallow embedding of the Bot Connector variant of the server
    ([src/index.ts], [src/schemas.ts]): the zod schemas of the Adaptive
    Card grammar and of the two tool requests, the bearer-token cache
    [getBotConnectorToken], [sendActivity] and [resolveThreadContext].

    JavaScript values are modelled by [Value]; numbers are the integers
    (timestamps in milliseconds and second counts), so arithmetic on them
    is exact.  What the host platform provides is an interface: the WHATWG
    [URL] parser ([Platform]), and [JSON], [URLSearchParams] and
    [encodeURIComponent] ([Runtime]). *)

From Stdlib Require Import ZArith String Ascii List Bool Lia.
From Stdlib Require Import DecimalString.
From stdpp Require Import base option list strings gmap.

Set Warnings "-register-all".

Local Open Scope Z_scope.
Local Open Scope string_scope.
Local Open Scope list_scope.

(** ** JavaScript values *)

Module Js.

Inductive Value : Type :=
| VUndefined
| VNull
| VBool (b : bool)
| VNum (n : Z)
| VStr (s : string)
| VArr (xs : list Value)
| VObj (fields : list (string * Value)).

(** [o[k]] on the own properties of an object. *)
Fixpoint get (k : string) (fields : list (string * Value)) : Value :=
  match fields with
  | [] => VUndefined
  | (k', v) :: rest => if String.eqb k k' then v else get k rest
  end.

(** [k in o]. *)
Fixpoint has (k : string) (fields : list (string * Value)) : bool :=
  match fields with
  | [] => false
  | (k', _) :: rest => if String.eqb k k' then true else has k rest
  end.

(** Property read [v.k] on an arbitrary value: [None] is the [TypeError]
    thrown on [null] and [undefined]; primitives and arrays have no such
    own property. *)
Definition prop (v : Value) (k : string) : option Value :=
  match v with
  | VUndefined | VNull => None
  | VObj fields => Some (get k fields)
  | _ => Some VUndefined
  end.

(** ToBoolean. *)
Definition truthy (v : Value) : bool :=
  match v with
  | VUndefined | VNull => false
  | VBool b => b
  | VNum n => negb (n =? 0)%Z
  | VStr s => negb (String.eqb s "")
  | VArr _ | VObj _ => true
  end.

(** [a || b]. *)
Definition or (a b : Value) : Value := if truthy a then a else b.

Definition is_undefined (v : Value) : bool :=
  match v with VUndefined => true | _ => false end.

(** Nesting depth of a value: the depth of the call stack a recursive
    descent over it needs. *)
Fixpoint depth (v : Value) : nat :=
  match v with
  | VArr xs => S (max_list (map depth xs))
  | VObj fields => S (max_list (map (fun kv => depth (snd kv)) fields))
  | _ => 0%nat
  end.

(** Template-literal rendering [`${v}`]. *)
Definition show_Z (z : Z) : string := NilZero.string_of_int (Z.to_int z).

Fixpoint to_string (v : Value) : string :=
  match v with
  | VUndefined => "undefined"
  | VNull => "null"
  | VBool b => if b then "true" else "false"
  | VNum n => show_Z n
  | VStr s => s
  | VArr xs =>
      String.concat ","
        (map (fun x => match x with
                       | VUndefined | VNull => ""
                       | _ => to_string x
                       end) xs)
  | VObj _ => "[object Object]"
  end.

(** [o[k] = v], keeping the position of a key the object already has. *)
Fixpoint set (k : string) (v : Value) (fields : list (string * Value))
  : list (string * Value) :=
  match fields with
  | [] => [(k, v)]
  | (k', v') :: rest =>
      if String.eqb k k' then (k, v) :: rest else (k', v') :: set k v rest
  end.

(** [{ ...a, ...b }] *)
Definition spread (a b : list (string * Value)) : list (string * Value) :=
  fold_left (fun acc kv => set (fst kv) (snd kv) acc) b a.

(** [s.endsWith('/') ? s.slice(0, -1) : s] *)
Fixpoint strip_trailing_slash (s : string) : string :=
  match s with
  | EmptyString => EmptyString
  | String c EmptyString => if Ascii.eqb c "/" then EmptyString else s
  | String c rest => String c (strip_trailing_slash rest)
  end.

End Js.
Import Js.

(** ** What the host provides to the validators *)

Class Platform := {
  (** [new URL(s)] does not throw *)
  URL_canParse : string -> bool;
}.

(** ** The zod combinators the schemas are written with (zod 3)

    The library is not the repository's: each combinator does what the
    synchronous [_parse] of its zod class does on the input and the path
    to it.  Of an issue the code and the path are kept, and the message
    where the schema gives one. *)

Module Zod.

Inductive PathSeg := Key (k : string) | Idx (i : nat).
Definition Path := list PathSeg.

Inductive IssueCode :=
| invalid_type
| invalid_literal
| invalid_enum_value
| invalid_string
| too_big
| invalid_union
| custom (message : string).

Inductive ZodIssue :=
| Issue (code : IssueCode) (path : Path) (unionErrors : list (list ZodIssue)).

(** A parse is valid, dirty (a value, with issues) or aborted. *)
Inductive ParseReturn :=
| OK (value : Value)
| DIRTY (value : Value) (issues : list ZodIssue)
| INVALID (issues : list ZodIssue).

Definition Schema := Value -> Path -> ParseReturn.

Definition issues_of (r : ParseReturn) : list ZodIssue :=
  match r with OK _ => [] | DIRTY _ errs | INVALID errs => errs end.

Definition value_of (r : ParseReturn) : Value :=
  match r with OK v | DIRTY v _ => v | INVALID _ => VUndefined end.

Definition is_aborted (r : ParseReturn) : bool :=
  match r with INVALID _ => true | _ => false end.

Definition is_dirty (r : ParseReturn) : bool :=
  match r with DIRTY _ _ => true | _ => false end.

Definition simple (c : IssueCode) (path : Path) : ZodIssue := Issue c path [].

Inductive StringCheck := url_check.

Definition run_check `{Platform} (c : StringCheck) (s : string) : bool :=
  match c with url_check => URL_canParse s end.

Definition ZodString `{Platform} (checks : list StringCheck) : Schema :=
  fun data path =>
    match data with
    | VStr s =>
        let issues :=
          flat_map (fun c => if run_check c s then []
                             else [simple invalid_string path]) checks in
        match issues with [] => OK data | _ => DIRTY data issues end
    | _ => INVALID [simple invalid_type path]
    end.

Definition z_string `{Platform} : Schema := ZodString [].
Definition z_string_url `{Platform} : Schema := ZodString [url_check].

Definition z_number : Schema :=
  fun data path =>
    match data with
    | VNum _ => OK data
    | _ => INVALID [simple invalid_type path]
    end.

Definition z_boolean : Schema :=
  fun data path =>
    match data with
    | VBool _ => OK data
    | _ => INVALID [simple invalid_type path]
    end.

Definition z_unknown : Schema := fun data _ => OK data.

Definition z_literal (lit : string) : Schema :=
  fun data path =>
    match data with
    | VStr s => if String.eqb s lit then OK data
                else INVALID [simple invalid_literal path]
    | _ => INVALID [simple invalid_literal path]
    end.

Definition z_enum (values : list string) : Schema :=
  fun data path =>
    match data with
    | VStr s => if existsb (String.eqb s) values then OK data
                else INVALID [simple invalid_enum_value path]
    | _ => INVALID [simple invalid_type path]
    end.

Definition z_optional (inner : Schema) : Schema :=
  fun data path =>
    match data with
    | VUndefined => OK VUndefined
    | _ => inner data path
    end.

Definition z_default (inner : Schema) (def : Value) : Schema :=
  fun data path =>
    match data with
    | VUndefined => inner def path
    | _ => inner data path
    end.

Definition z_lazy (getter : unit -> Schema) : Schema :=
  fun data path => getter tt data path.

(** [ParseStatus.mergeArray]: any aborted element aborts the array; the
    array is dirty when it or an element is. *)
Definition mergeArray (dirty : bool) (own : list ZodIssue)
    (results : list ParseReturn) : ParseReturn :=
  let issues := own ++ flat_map issues_of results in
  if existsb is_aborted results then INVALID issues
  else
    let arr := VArr (map value_of results) in
    if dirty || existsb is_dirty results then DIRTY arr issues else OK arr.

Definition ZodArray (element : Schema) (maxLength : option nat) : Schema :=
  fun data path =>
    match data with
    | VArr xs =>
        let tooBig :=
          match maxLength with
          | Some m => (m <? length xs)%nat
          | None => false
          end in
        mergeArray tooBig
          (if tooBig then [simple too_big path] else [])
          (imap (fun i x => element x (path ++ [Idx i])) xs)
    | _ => INVALID [simple invalid_type path]
    end.

Definition z_array (element : Schema) : Schema := ZodArray element None.
Definition z_array_max (element : Schema) (m : nat) : Schema :=
  ZodArray element (Some m).

(** [ParseStatus.mergeObjectSync] over the pairs of the shape's keys, in
    shape order; unknown keys are stripped.  A key is written to the
    output when its value is defined or the key is in the input. *)
Definition mergeObject (pairs : list (string * ParseReturn * bool))
  : ParseReturn :=
  let issues := flat_map (fun p => issues_of (snd (fst p))) pairs in
  if existsb (fun p => is_aborted (snd (fst p))) pairs then INVALID issues
  else
    let obj :=
      VObj (flat_map (fun p =>
              let '(k, r, alwaysSet) := p in
              if negb (is_undefined (value_of r)) || alwaysSet
              then [(k, value_of r)] else []) pairs) in
    if existsb (fun p => is_dirty (snd (fst p))) pairs
    then DIRTY obj issues else OK obj.

Definition z_object (shape : list (string * Schema)) : Schema :=
  fun data path =>
    match data with
    | VObj fields =>
        mergeObject
          (map (fun ks => (fst ks,
                           snd ks (get (fst ks) fields) (path ++ [Key (fst ks)]),
                           has (fst ks) fields)) shape)
    | _ => INVALID [simple invalid_type path]
    end.

(** [ZodUnion._parse], synchronous branch: the first valid option wins;
    failing that, the first dirty one; failing that, one [invalid_union]
    issue holding the issues of every option. *)
Fixpoint union_loop (options : list Schema) (data : Value) (path : Path)
    (dirty : option ParseReturn) (issues : list (list ZodIssue))
  : ParseReturn :=
  match options with
  | [] =>
      match dirty with
      | Some r => r
      | None => INVALID [Issue invalid_union path issues]
      end
  | option :: rest =>
      let result := option data path in
      let issues' :=
        match issues_of result with
        | [] => issues
        | errs => issues ++ [errs]
        end in
      match result with
      | OK _ => result
      | DIRTY _ _ =>
          union_loop rest data path
            (match dirty with None => Some result | Some _ => dirty end)
            issues'
      | INVALID _ => union_loop rest data path dirty issues'
      end
  end.

Definition z_union (options : list Schema) : Schema :=
  fun data path => union_loop options data path None [].

(** [.refine(check, { message, path })] *)
Definition z_refine (inner : Schema) (check : Value -> bool)
    (message : string) (rpath : list string) : Schema :=
  fun data path =>
    let issue := simple (custom message) (path ++ map Key rpath) in
    match inner data path with
    | INVALID errs => INVALID errs
    | DIRTY v errs => if check v then DIRTY v errs else DIRTY v (errs ++ [issue])
    | OK v => if check v then OK v else DIRTY v [issue]
    end.

(** [schema.safeParse(data)] and [schema.parse(data)]: the parsed value,
    or a [ZodError] holding the issues. *)
Definition safeParse (schema : Schema) (data : Value)
  : list ZodIssue + Value :=
  match schema data [] with
  | OK v => inr v
  | r => inl (issues_of r)
  end.

End Zod.
Import Zod.

(** ** The schemas of [src/schemas.ts] *)

Module Schemas.
Section WithPlatform.
Context `{Platform}.

Definition Spacing : list string :=
  ["None"; "Small"; "Default"; "Medium"; "Large"; "ExtraLarge"].

Definition TextBlockSchema : Schema := z_object [
  ("type", z_literal "TextBlock");
  ("text", z_string);
  ("weight", z_optional (z_enum ["Default"; "Lighter"; "Bolder"]));
  ("size", z_optional
     (z_enum ["Default"; "Small"; "Medium"; "Large"; "ExtraLarge"]));
  ("color", z_optional
     (z_enum ["Default"; "Dark"; "Light"; "Accent"; "Good"; "Warning";
              "Attention"]));
  ("wrap", z_optional z_boolean);
  ("isSubtle", z_optional z_boolean);
  ("maxLines", z_optional z_number);
  ("horizontalAlignment", z_optional (z_enum ["Left"; "Center"; "Right"]));
  ("spacing", z_optional (z_enum Spacing));
  ("separator", z_optional z_boolean)
].

Definition ImageSchema : Schema := z_object [
  ("type", z_literal "Image");
  ("url", z_string_url);
  ("altText", z_optional z_string);
  ("size", z_optional
     (z_enum ["Auto"; "Stretch"; "Small"; "Medium"; "Large"]));
  ("style", z_optional (z_enum ["Default"; "Person"]));
  ("horizontalAlignment", z_optional (z_enum ["Left"; "Center"; "Right"]));
  ("width", z_optional z_string);
  ("height", z_optional z_string)
].

Definition FactSchema : Schema := z_object [
  ("title", z_string);
  ("value", z_string)
].

Definition FactSetSchema : Schema := z_object [
  ("type", z_literal "FactSet");
  ("facts", z_array_max FactSchema 10);
  ("spacing", z_optional (z_enum Spacing));
  ("separator", z_optional z_boolean)
].

Definition ActionSchema : Schema := z_object [
  ("type", z_enum ["Action.Submit"; "Action.OpenUrl"; "Action.ShowCard"]);
  ("title", z_string);
  ("data", z_optional z_unknown);
  ("url", z_optional z_string);
  ("style", z_optional (z_enum ["default"; "positive"; "destructive"]))
].

Definition ActionSetSchema : Schema := z_object [
  ("type", z_literal "ActionSet");
  ("actions", z_array ActionSchema)
].

(** The three container schemas refer to [CardElementSchema], which the
    source declares first and resolves lazily: here they take it as
    [element]. *)
Section Containers.
Variable element : Schema.

Definition ColumnSchema : Schema := z_object [
  ("type", z_literal "Column");
  ("width", z_optional (z_union [z_string; z_number]));
  ("items", z_optional (z_array element));
  ("verticalContentAlignment",
     z_optional (z_enum ["Top"; "Center"; "Bottom"]));
  ("spacing", z_optional (z_enum Spacing))
].

Definition ColumnSetSchema : Schema := z_object [
  ("type", z_literal "ColumnSet");
  ("columns", z_array ColumnSchema);
  ("spacing", z_optional (z_enum Spacing));
  ("separator", z_optional z_boolean)
].

Definition ContainerSchema : Schema := z_object [
  ("type", z_literal "Container");
  ("items", z_array element);
  ("style", z_optional
     (z_enum ["Default"; "Emphasis"; "Good"; "Attention"; "Warning"]));
  ("spacing", z_optional (z_enum Spacing));
  ("separator", z_optional z_boolean)
].

End Containers.

(** What a parse returns on a call stack that is used up: the descent
    stops there. *)
Definition stack_exhausted : Schema := fun _ _ => INVALID [].

(** [CardElementSchema = z.lazy(() => z.union([...]))].  Each resolution
    of the lazy schema is one more level of recursive descent; [stack]
    bounds their number. *)
Fixpoint CardElementSchema (stack : nat) : Schema :=
  match stack with
  | O => stack_exhausted
  | S stack' =>
      z_lazy (fun _ =>
        z_union [
          TextBlockSchema;
          ImageSchema;
          FactSetSchema;
          ColumnSetSchema (CardElementSchema stack');
          ContainerSchema (CardElementSchema stack');
          ActionSetSchema
        ])
  end.

Definition AdaptiveCardSchema (stack : nat) : Schema := z_object [
  ("type", z_literal "AdaptiveCard");
  ("version", z_default z_string (VStr "1.4"));
  ("body",
     z_array_max
       (z_union [
          TextBlockSchema;
          ImageSchema;
          FactSetSchema;
          ColumnSetSchema (CardElementSchema stack);
          ContainerSchema (CardElementSchema stack);
          ActionSetSchema
        ]) 50);
  ("actions", z_optional (z_array ActionSchema));
  ("$schema", z_optional z_string)
].

Definition PostMessageRequestSchema : Schema := z_object [
  ("text", z_string);
  ("thread_id", z_optional z_string)
].

(** [data.k] on a parsed object. *)
Definition field (data : Value) (k : string) : Value :=
  match data with VObj fields => get k fields | _ => VUndefined end.

Definition PostRichMessageRequestSchema (stack : nat) : Schema :=
  z_refine
    (z_object [
       ("text", z_optional z_string);
       ("card", z_optional (AdaptiveCardSchema stack));
       ("thread_id", z_optional z_string)
     ])
    (fun data => truthy (Js.or (field data "text") (field data "card")))
    "Either text or card must be provided"
    ["text"; "card"].

(** The validators: [AdaptiveCardSchema.safeParse] is the card validator
    and [PostRichMessageRequestSchema.safeParse] that of the rich-message
    arguments.  The call stack is as deep as the input is nested, which
    is deep enough for the descent never to use it up. *)
Definition validate (input : Value) : list ZodIssue + Value :=
  safeParse (AdaptiveCardSchema (depth input)) input.

Definition validatePostRichMessageArgs (input : Value)
  : list ZodIssue + Value :=
  safeParse (PostRichMessageRequestSchema (depth input)) input.

Definition validatePostMessageArgs (input : Value)
  : list ZodIssue + Value :=
  safeParse PostMessageRequestSchema input.

End WithPlatform.
End Schemas.
Import Schemas.

(** ** The server of [src/index.ts] *)

Module Index.

Inductive Exn :=
| Error (message : string)
| TypeError (message : string)
| ZodError (issues : list ZodIssue).

Record Request := {
  url : string;
  method : string;
  headers : list (string * string);
  body : string;
}.

Record Response := {
  status : Z;
  text : string;
}.

(** [response.ok]: the status is in the range 200-299. *)
Definition ok (r : Response) : bool :=
  (200 <=? status r)%Z && (status r <=? 299)%Z.

Class Runtime := {
  (** [JSON.parse(s)], [None] for a [SyntaxError] *)
  JSON_parse : string -> option Value;
  JSON_stringify : Value -> string;
  encodeURIComponent : string -> string;
  (** [new URLSearchParams(record).toString()] *)
  URLSearchParams_toString : list (string * string) -> string;
  (** the [message] of a [ZodError] *)
  ZodError_message : list ZodIssue -> string;
}.

(** The process environment and the network the process talks to:
    [fetch] either rejects or resolves to a response. *)
Record Host := {
  env : gmap string string;
  network : Request -> Exn + Response;
}.

Record TokenCache := {
  token : Value;
  expiresAt : Z;
}.

(** The mutable state of the process and what it has done so far:
    the module-level [tokenCache], the clock read by [Date.now()], the
    requests passed to [fetch] and the lines written by
    [console.error], both oldest first. *)
Record World := {
  tokenCache : option TokenCache;
  clock : Z;
  requests : list Request;
  console : list (list string);
}.

(** Computations that read and write the world and may throw. *)
Definition M (A : Type) : Type := World -> (Exn + A) * World.

Definition ret {A} (a : A) : M A := fun w => (inr a, w).

Definition bind {A B} (m : M A) (k : A -> M B) : M B :=
  fun w =>
    match m w with
    | (inl e, w') => (inl e, w')
    | (inr a, w') => k a w'
    end.

Definition throw {A} (e : Exn) : M A := fun w => (inl e, w).

Definition try_catch {A} (m : M A) (handler : Exn -> M A) : M A :=
  fun w =>
    match m w with
    | (inl e, w') => handler e w'
    | r => r
    end.

Declare Scope m_scope.
Delimit Scope m_scope with M.
Notation "x <- m ;; k" := (bind m (fun x => k))
  (at level 100, m at next level, right associativity) : m_scope.
Notation "m ;;; k" := (bind m (fun _ => k))
  (at level 100, right associativity) : m_scope.
Local Open Scope m_scope.

Definition Date_now : M Z := fun w => (inr (clock w), w).

Definition read_tokenCache : M (option TokenCache) :=
  fun w => (inr (tokenCache w), w).

Definition write_tokenCache (c : TokenCache) : M unit :=
  fun w => (inr tt,
            {| tokenCache := Some c; clock := clock w;
               requests := requests w; console := console w |}).

Definition console_error (args : list string) : M unit :=
  fun w => (inr tt,
            {| tokenCache := tokenCache w; clock := clock w;
               requests := requests w; console := console w ++ [args] |}).

Definition of_option {A} (o : option A) (e : Exn) : M A :=
  match o with Some a => ret a | None => throw e end.

(** [!s] for [s : string | undefined] *)
Definition absent (s : option string) : bool :=
  match s with
  | None => true
  | Some s => String.eqb s ""
  end.

Section WithHost.
Context `{Runtime} (host : Host).

Definition fetch (req : Request) : M Response :=
  fun w =>
    (network host req,
     {| tokenCache := tokenCache w; clock := clock w;
        requests := requests w ++ [req]; console := console w |}).

(** [await response.json()] *)
Definition json (r : Response) : M Value :=
  of_option (JSON_parse (text r)) (Error "Unexpected token in JSON").

Definition process_env (name : string) : option string := env host !! name.

Definition tokenUrl : string :=
  "https://login.microsoftonline.com/botframework.com/oauth2/v2.0/token".

Definition getBotConnectorToken : M Value :=
  now <- Date_now ;;
  cached <- read_tokenCache ;;
  (* Check cache (with 5 minute buffer before expiry) *)
  match
    match cached with
    | Some c =>
        if (expiresAt c >? now + 5 * 60 * 1000)%Z then Some (token c)
        else None
    | None => None
    end
  with
  | Some t => ret t
  | None =>
      let appId := process_env "TEAMS_BOT_APP_ID" in
      let appPassword := process_env "TEAMS_BOT_APP_PASSWORD" in
      if absent appId || absent appPassword then
        throw (Error "TEAMS_BOT_APP_ID and TEAMS_BOT_APP_PASSWORD must be set")
      else
        (* Request token from Microsoft identity platform *)
        let body := URLSearchParams_toString [
          ("grant_type", "client_credentials");
          ("client_id", default "" appId);
          ("client_secret", default "" appPassword);
          ("scope", "https://api.botframework.com/.default")
        ] in
        response <- fetch {|
          url := tokenUrl;
          method := "POST";
          headers := [("Content-Type", "application/x-www-form-urlencoded")];
          body := body
        |} ;;
        if negb (ok response) then
          let errorText := text response in
          console_error ["[TeamsMCP] Token request failed:"; errorText] ;;;
          throw (Error ("Failed to get Bot Connector token: "
                        +:+ show_Z (status response)))
        else
          data <- try_catch (json response) (fun _ =>
            throw (Error
              "Failed to parse Bot Connector token response as JSON")) ;;
          access_token <-
            of_option (prop data "access_token")
              (TypeError
                 "Cannot read properties of null (reading 'access_token')") ;;
          if negb (truthy access_token) then
            throw (Error
              "Invalid token response: missing access_token or expires_in")
          else
            expires_in <-
              of_option (prop data "expires_in")
                (TypeError
                   "Cannot read properties of null (reading 'expires_in')") ;;
            match expires_in with
            | VNum expires_in =>
                (* Cache the token *)
                write_tokenCache {|
                  token := access_token;
                  expiresAt := (now + expires_in * 1000)%Z
                |} ;;;
                ret access_token
            | _ =>
                throw (Error
                  "Invalid token response: missing access_token or expires_in")
            end
  end.

(** [sendActivity(serviceUrl, conversationId, activity, replyToId)] *)
Definition sendActivity (serviceUrl conversationId : string)
    (activity : list (string * Value)) (replyToId : option string)
  : M Value :=
  token <- getBotConnectorToken ;;
  (* Remove trailing slash from service URL if present *)
  let baseUrl := strip_trailing_slash serviceUrl in
  let url :=
    if negb (absent replyToId) then
      (* Reply to existing activity (thread reply) *)
      baseUrl +:+ "/v3/conversations/"
        +:+ encodeURIComponent conversationId +:+ "/activities/"
        +:+ encodeURIComponent (default "" replyToId)
    else
      (* New activity in conversation *)
      baseUrl +:+ "/v3/conversations/"
        +:+ encodeURIComponent conversationId +:+ "/activities" in
  response <- fetch {|
    url := url;
    method := "POST";
    headers := [("Authorization", "Bearer " +:+ to_string token);
                ("Content-Type", "application/json")];
    body := JSON_stringify
              (VObj (spread [("type", VStr "message")] activity))
  |} ;;
  if negb (ok response) then
    let errorText := text response in
    console_error ["[TeamsMCP] Send activity failed:"; errorText] ;;;
    throw (Error ("Failed to send activity: " +:+ show_Z (status response)
                  +:+ " - " +:+ errorText))
  else
    try_catch (json response) (fun _ =>
      throw (Error "Failed to parse send activity response as JSON")).

Record EnvConfig := {
  serviceUrl : string;
  conversationId : string;
  threadId : option string;
}.

Definition getEnvConfig : M EnvConfig :=
  let serviceUrl := process_env "TEAMS_SERVICE_URL" in
  let conversationId := process_env "TEAMS_CONVERSATION_ID" in
  let threadId := process_env "TEAMS_THREAD_ID" in
  if absent serviceUrl then
    throw (Error "TEAMS_SERVICE_URL is not set")
  else if absent conversationId then
    throw (Error "TEAMS_CONVERSATION_ID is not set")
  else
    ret {| serviceUrl := default "" serviceUrl;
           conversationId := default "" conversationId;
           threadId := threadId |}.

End WithHost.

Inductive MessageType := message | rich.

(** [argsThreadId || configThreadId] on [string | undefined] *)
Definition or_else (a b : option string) : option string :=
  if absent a then b else a.

Definition resolveThreadContext (argsThreadId configThreadId : option string)
    (messageType : MessageType) : option string * string :=
  let replyToId := or_else argsThreadId configThreadId in
  let actionType :=
    if negb (absent replyToId) then "Reply sent to thread"
    else match messageType with
         | rich => "Rich message posted"
         | message => "Message posted"
         end in
  (replyToId, actionType).

(** [schema.parse(data)]: throws the [ZodError]. *)
Definition parse (schema : nat -> Schema) (data : Value) : M Value :=
  match safeParse (schema (depth data)) data with
  | inr v => ret v
  | inl issues => throw (ZodError issues)
  end.

(** A parsed [string | undefined] field. *)
Definition optional_string (v : Value) : option string :=
  match v with VStr s => Some s | _ => None end.

Section WithServer.
Context `{Platform} `{Runtime} (host : Host).

Definition message_of (e : Exn) : string :=
  match e with
  | Error m | TypeError m => m
  | ZodError issues => ZodError_message issues
  end.

(** The [CallToolRequestSchema] handler: [params] are the tool's name and
    its arguments; the result is the text of the reply. *)
Definition callTool (params : option (string * Value)) : M string :=
  try_catch
    (match params with
     | None => throw (Error "Params are required")
     | Some (name, arguments) =>
         (* Get environment configuration *)
         config <- getEnvConfig host ;;
         if String.eqb name "teams_post_message" then
           args <- parse (fun _ => PostMessageRequestSchema) arguments ;;
           let '(replyToId, actionType) :=
             resolveThreadContext
               (optional_string (field args "thread_id"))
               (threadId config) message in
           result <- sendActivity host
             (serviceUrl config) (conversationId config)
             [("text", field args "text");
              ("textFormat", VStr "markdown")]
             replyToId ;;
           id <- of_option (prop result "id")
                   (TypeError "Cannot read properties of null (reading 'id')") ;;
           ret (actionType +:+ " successfully (id: " +:+ to_string id +:+ ")")
         else if String.eqb name "teams_post_rich_message" then
           args <- parse PostRichMessageRequestSchema arguments ;;
           let '(replyToId, actionType) :=
             resolveThreadContext
               (optional_string (field args "thread_id"))
               (threadId config) rich in
           let activity :=
             if truthy (field args "card") then
               (* Post with Adaptive Card attachment *)
               [("text", Js.or (field args "text") (VStr ""));
                ("attachments",
                 VArr [VObj [
                   ("contentType",
                    VStr "application/vnd.microsoft.card.adaptive");
                   ("content", field args "card")]])]
             else
               (* Plain text with markdown *)
               [("text", Js.or (field args "text") (VStr ""));
                ("textFormat", VStr "markdown")] in
           result <- sendActivity host
             (serviceUrl config) (conversationId config) activity replyToId ;;
           id <- of_option (prop result "id")
                   (TypeError "Cannot read properties of null (reading 'id')") ;;
           ret (actionType +:+ " successfully (id: " +:+ to_string id +:+ ")")
         else
           throw (Error ("Unknown tool: " +:+ name))
     end)
    (fun error =>
       console_error ["[TeamsMCP] Error handling request:"; message_of error] ;;;
       throw (Error (message_of error))).

End WithServer.

End Index.

(** ** Listing the tools and starting the server ([src/index.ts]) *)

Module Server.
Import Index.
Local Open Scope m_scope.

Record Tool (J : Type) := {
  name : string;
  description : string;
  inputSchema : J;
}.
Arguments name {J} _.
Arguments description {J} _.
Arguments inputSchema {J} _.

Section Tools.
Context `{Platform} {J : Type}.

(** [zodToJsonSchema] of the [zod-to-json-schema] package: the rendering
    of a zod schema that a tool is listed with. *)
Variable zodToJsonSchema : (nat -> Schema) -> J.

(** The [ListToolsRequestSchema] handler. *)
Definition listTools : list (Tool J) := [
  {| name := "teams_post_message";
     description :=
       "Post a plain text message to the connected Microsoft Teams channel. Use this for simple messages and notifications.";
     inputSchema := zodToJsonSchema (fun _ => PostMessageRequestSchema) |};
  {| name := "teams_post_rich_message";
     description :=
       "Post a rich structured message to Microsoft Teams with Adaptive Card support. Use this for formatted content like test results, status updates, or any content that benefits from structured layout.";
     inputSchema := zodToJsonSchema PostRichMessageRequestSchema |}
].

End Tools.

(** The server [createServer] builds: its two request handlers. *)
Record Server (J : Type) := {
  onListTools : list (Tool J);
  onCallTool : option (string * Value) -> M string;
}.
Arguments onListTools {J} _.
Arguments onCallTool {J} _.

(** How the process ends up: [process.exit(code)], or serving requests. *)
Inductive Process := exit (code : Z) | running.

Section Startup.
Context `{Platform} `{Runtime} {J : Type} (host : Host).
Variable zodToJsonSchema : (nat -> Schema) -> J.

(** [server.connect(transport)], of the MCP SDK. *)
Variable connect : Server J -> M unit.

Definition createServer : Server J := {|
  onListTools := listTools zodToJsonSchema;
  onCallTool := callTool host;
|}.

Definition runStdioServer : M Process :=
  (* Validate required environment variables on startup *)
  let appId := process_env host "TEAMS_BOT_APP_ID" in
  let appPassword := process_env host "TEAMS_BOT_APP_PASSWORD" in
  if absent appId || absent appPassword then
    console_error ["TEAMS_BOT_APP_ID and TEAMS_BOT_APP_PASSWORD must be set."] ;;;
    console_error
      ["These are the Azure Bot credentials, set by the execution environment."] ;;;
    ret (exit 1)
  else
    let server := createServer in
    connect server ;;;
    console_error
      ["Teams MCP Server v0.2.0 running on stdio (Bot Connector API)"] ;;;
    ret running.

Definition main : M Process :=
  try_catch runStdioServer (fun error =>
    console_error ["Fatal error in main():"; message_of error] ;;;
    ret (exit 1)).

End Startup.

End Server.

(** ** Typed cards: [z.infer<typeof AdaptiveCardSchema>] *)

Module Card.

(** A string literal union, [z.enum(values)]: one of [values]. *)
Record Enum (values : list string) := {
  enum_value : string;
  enum_ok : existsb (String.eqb enum_value) values = true;
}.
Arguments enum_value {values} _.
Arguments enum_ok {values} _.

Record TextBlock := {
  tb_text : string;
  tb_weight : option (Enum ["Default"; "Lighter"; "Bolder"]);
  tb_size : option (Enum ["Default"; "Small"; "Medium"; "Large"; "ExtraLarge"]);
  tb_color : option (Enum ["Default"; "Dark"; "Light"; "Accent"; "Good";
                           "Warning"; "Attention"]);
  tb_wrap : option bool;
  tb_isSubtle : option bool;
  tb_maxLines : option Z;
  tb_horizontalAlignment : option (Enum ["Left"; "Center"; "Right"]);
  tb_spacing : option (Enum Spacing);
  tb_separator : option bool;
}.

Record Image := {
  img_url : string;
  img_altText : option string;
  img_size : option (Enum ["Auto"; "Stretch"; "Small"; "Medium"; "Large"]);
  img_style : option (Enum ["Default"; "Person"]);
  img_horizontalAlignment : option (Enum ["Left"; "Center"; "Right"]);
  img_width : option string;
  img_height : option string;
}.

Record Fact := {
  fact_title : string;
  fact_value : string;
}.

Record FactSet := {
  fs_facts : list Fact;
  fs_spacing : option (Enum Spacing);
  fs_separator : option bool;
}.

Record Action := {
  act_type : Enum ["Action.Submit"; "Action.OpenUrl"; "Action.ShowCard"];
  act_title : string;
  act_data : option Value;
  act_url : option string;
  act_style : option (Enum ["default"; "positive"; "destructive"]);
}.

Record Column (Element : Type) := {
  col_width : option (string + Z);
  col_items : option (list Element);
  col_verticalContentAlignment : option (Enum ["Top"; "Center"; "Bottom"]);
  col_spacing : option (Enum Spacing);
}.
Arguments col_width {Element} _.
Arguments col_items {Element} _.
Arguments col_verticalContentAlignment {Element} _.
Arguments col_spacing {Element} _.

Inductive CardElement :=
| ETextBlock (b : TextBlock)
| EImage (i : Image)
| EFactSet (f : FactSet)
| EColumnSet (columns : list (Column CardElement))
    (spacing : option (Enum Spacing)) (separator : option bool)
| EContainer (items : list CardElement)
    (style : option (Enum ["Default"; "Emphasis"; "Good"; "Attention";
                           "Warning"]))
    (spacing : option (Enum Spacing)) (separator : option bool)
| EActionSet (actions : list Action).

(** The input of the card schema: [version] is optional there. *)
Record AdaptiveCard := {
  card_version : option string;
  card_body : list CardElement;
  card_actions : option (list Action);
  card_schema : option string;
}.

(** *** Typed cards as JavaScript objects *)

(** An object literal: the keys in order, an absent optional key left
    out. *)
Definition fields_of (entries : list (string * option Value))
  : list (string * Value) :=
  omap (fun e => pair (fst e) <$> snd e) entries.

Definition obj (entries : list (string * option Value)) : Value :=
  VObj (fields_of entries).

Definition of_enum {values} (e : Enum values) : Value := VStr (enum_value e).

Definition of_width (w : string + Z) : Value :=
  match w with inl s => VStr s | inr n => VNum n end.

Definition of_TextBlock (b : TextBlock) : Value := obj [
  ("type", Some (VStr "TextBlock"));
  ("text", Some (VStr (tb_text b)));
  ("weight", of_enum <$> tb_weight b);
  ("size", of_enum <$> tb_size b);
  ("color", of_enum <$> tb_color b);
  ("wrap", VBool <$> tb_wrap b);
  ("isSubtle", VBool <$> tb_isSubtle b);
  ("maxLines", VNum <$> tb_maxLines b);
  ("horizontalAlignment", of_enum <$> tb_horizontalAlignment b);
  ("spacing", of_enum <$> tb_spacing b);
  ("separator", VBool <$> tb_separator b)
].

Definition of_Image (i : Image) : Value := obj [
  ("type", Some (VStr "Image"));
  ("url", Some (VStr (img_url i)));
  ("altText", VStr <$> img_altText i);
  ("size", of_enum <$> img_size i);
  ("style", of_enum <$> img_style i);
  ("horizontalAlignment", of_enum <$> img_horizontalAlignment i);
  ("width", VStr <$> img_width i);
  ("height", VStr <$> img_height i)
].

Definition of_Fact (f : Fact) : Value := obj [
  ("title", Some (VStr (fact_title f)));
  ("value", Some (VStr (fact_value f)))
].

Definition of_FactSet (f : FactSet) : Value := obj [
  ("type", Some (VStr "FactSet"));
  ("facts", Some (VArr (map of_Fact (fs_facts f))));
  ("spacing", of_enum <$> fs_spacing f);
  ("separator", VBool <$> fs_separator f)
].

Definition of_Action (a : Action) : Value := obj [
  ("type", Some (of_enum (act_type a)));
  ("title", Some (VStr (act_title a)));
  ("data", act_data a);
  ("url", VStr <$> act_url a);
  ("style", of_enum <$> act_style a)
].

Definition of_ActionSet (actions : list Action) : Value := obj [
  ("type", Some (VStr "ActionSet"));
  ("actions", Some (VArr (map of_Action actions)))
].

Definition of_Column {Element} (of_element : Element -> Value)
    (c : Column Element) : Value := obj [
  ("type", Some (VStr "Column"));
  ("width", of_width <$> col_width c);
  ("items", (fun items => VArr (map of_element items)) <$> col_items c);
  ("verticalContentAlignment", of_enum <$> col_verticalContentAlignment c);
  ("spacing", of_enum <$> col_spacing c)
].

Fixpoint of_element (e : CardElement) : Value :=
  match e with
  | ETextBlock b => of_TextBlock b
  | EImage i => of_Image i
  | EFactSet f => of_FactSet f
  | EColumnSet columns spacing separator => obj [
      ("type", Some (VStr "ColumnSet"));
      ("columns", Some (VArr (map (of_Column of_element) columns)));
      ("spacing", of_enum <$> spacing);
      ("separator", VBool <$> separator)
    ]
  | EContainer items style spacing separator => obj [
      ("type", Some (VStr "Container"));
      ("items", Some (VArr (map of_element items)));
      ("style", of_enum <$> style);
      ("spacing", of_enum <$> spacing);
      ("separator", VBool <$> separator)
    ]
  | EActionSet actions => of_ActionSet actions
  end.

Definition of_card (c : AdaptiveCard) : Value := obj [
  ("type", Some (VStr "AdaptiveCard"));
  ("version", VStr <$> card_version c);
  ("body", Some (VArr (map of_element (card_body c))));
  ("actions", (fun actions => VArr (map of_Action actions)) <$> card_actions c);
  ("$schema", VStr <$> card_schema c)
].

(** The defaults of the schema: a missing [version] is ["1.4"]. *)
Definition with_defaults (c : AdaptiveCard) : AdaptiveCard := {|
  card_version := Some (default "1.4" (card_version c));
  card_body := card_body c;
  card_actions := card_actions c;
  card_schema := card_schema c;
|}.

(** The arguments of [teams_post_rich_message], before the refinement. *)
Record PostRichMessageArgs := {
  args_text : option string;
  args_card : option AdaptiveCard;
  args_thread_id : option string;
}.

Definition of_args (a : PostRichMessageArgs) : Value := obj [
  ("text", VStr <$> args_text a);
  ("card", of_card <$> args_card a);
  ("thread_id", VStr <$> args_thread_id a)
].

Definition args_with_defaults (a : PostRichMessageArgs)
  : PostRichMessageArgs := {|
  args_text := args_text a;
  args_card := with_defaults <$> args_card a;
  args_thread_id := args_thread_id a;
|}.

(** *** Well-formed cards

    What the types do not say: an image's [url] parses as a URL and a
    fact set holds at most ten facts.  No other array is bounded. *)
Section WellFormed.
Context `{Platform}.

Fixpoint wf_element (e : CardElement) : bool :=
  match e with
  | ETextBlock _ => true
  | EImage i => URL_canParse (img_url i)
  | EFactSet f => (length (fs_facts f) <=? 10)%nat
  | EColumnSet columns _ _ =>
      forallb (fun c => match col_items c with
                        | Some items => forallb wf_element items
                        | None => true
                        end) columns
  | EContainer items _ _ _ => forallb wf_element items
  | EActionSet _ => true
  end.

Definition wf_card (c : AdaptiveCard) : bool :=
  (length (card_body c) <=? 50)%nat && forallb wf_element (card_body c).

Definition wf_args (a : PostRichMessageArgs) : bool :=
  match args_card a with
  | Some c => wf_card c
  | None => true
  end.

End WellFormed.

End Card.

(** ** Where a rejection points *)

Module Locus.

#[global] Instance PathSeg_eq_dec : EqDecision PathSeg.
Proof. solve_decision. Defined.

#[global] Instance IssueCode_eq_dec : EqDecision IssueCode.
Proof. solve_decision. Defined.

(** The issue, or an issue inside its union errors, has code [c] and
    path [q]. *)
Fixpoint reports (c : IssueCode) (q : Path) (i : ZodIssue) : bool :=
  match i with
  | Issue c' p unionErrors =>
      (bool_decide (c' = c) && bool_decide (p = q))
      || existsb (existsb (reports c q)) unionErrors
  end.

(** A rejection names [q] with code [c]. *)
Definition rejects (c : IssueCode) (q : Path) (result : list ZodIssue + Value)
  : bool :=
  match result with
  | inl issues => existsb (reports c q) issues
  | inr _ => false
  end.

(** [node] is a card element nested in the element [e], [rel] being the
    path from [e] to it: through the [items] of a [Container] or through
    the [items] of a [Column] among the [columns] of a [ColumnSet]. *)
Inductive nested_in : Value -> Path -> Value -> Prop :=
| nested_here e :
    nested_in e [] e
| nested_container fields items i x rel node :
    get "type" fields = VStr "Container" ->
    get "items" fields = VArr items ->
    items !! i = Some x ->
    nested_in x rel node ->
    nested_in (VObj fields) (Key "items" :: Idx i :: rel) node
| nested_column fields columns j cfields items i x rel node :
    get "type" fields = VStr "ColumnSet" ->
    get "columns" fields = VArr columns ->
    columns !! j = Some (VObj cfields) ->
    get "type" cfields = VStr "Column" ->
    get "items" cfields = VArr items ->
    items !! i = Some x ->
    nested_in x rel node ->
    nested_in (VObj fields)
      (Key "columns" :: Idx j :: Key "items" :: Idx i :: rel) node.

(** [node] is a card element of the card, at [path]. *)
Inductive element_at : Value -> Path -> Value -> Prop :=
| element_of_body fields body i x rel node :
    get "body" fields = VArr body ->
    body !! i = Some x ->
    nested_in x rel node ->
    element_at (VObj fields) (Key "body" :: Idx i :: rel) node.

(** A parse raises an issue of code [c] at [q]. *)
Definition points (c : IssueCode) (q : Path) (r : ParseReturn) : bool :=
  existsb (reports c q) (issues_of r).

End Locus.
Import Locus.

(** ** Vocabulary of the properties *)

Module Spec.
Import Index Card.

(** *** The token cache *)

(** Both credentials are configured and non-empty. *)
Definition credentials_set (host : Host) : bool :=
  negb (absent (env host !! "TEAMS_BOT_APP_ID"))
  && negb (absent (env host !! "TEAMS_BOT_APP_PASSWORD")).

(** The cache holds no token that outlives the five-minute margin. *)
Definition stale (w : World) : Prop :=
  forall c, tokenCache w = Some c -> expiresAt c <= clock w + 5 * 60 * 1000.

(** The request of the token exchange. *)
Definition exchange_request `{Runtime} (host : Host) : Request := {|
  url := "https://login.microsoftonline.com/botframework.com/oauth2/v2.0/token";
  method := "POST";
  headers := [("Content-Type", "application/x-www-form-urlencoded")];
  body := URLSearchParams_toString [
    ("grant_type", "client_credentials");
    ("client_id", default "" (env host !! "TEAMS_BOT_APP_ID"));
    ("client_secret", default "" (env host !! "TEAMS_BOT_APP_PASSWORD"));
    ("scope", "https://api.botframework.com/.default")
  ]
|}.

(** The world after one more request and some more console lines. *)
Definition after (w : World) (req : Request) (lines : list (list string))
  : World :=
  {| tokenCache := tokenCache w; clock := clock w;
     requests := requests w ++ [req]; console := console w ++ lines |}.

Definition with_cache (w : World) (c : TokenCache) : World :=
  {| tokenCache := Some c; clock := clock w;
     requests := requests w; console := console w |}.

(** *** Thread replies *)

(** The URL of a new activity in the conversation, and of a reply to the
    activity [id]. *)
Definition activities_url `{Runtime} (serviceUrl conversationId : string)
  : string :=
  strip_trailing_slash serviceUrl +:+ "/v3/conversations/"
    +:+ encodeURIComponent conversationId +:+ "/activities".

Definition reply_url `{Runtime} (serviceUrl conversationId id : string)
  : string :=
  strip_trailing_slash serviceUrl +:+ "/v3/conversations/"
    +:+ encodeURIComponent conversationId +:+ "/activities/"
    +:+ encodeURIComponent id.

(** The URL [sendActivity] posts to, by its [replyToId]. *)
Definition target_url `{Runtime} (serviceUrl conversationId : string)
    (replyToId : option string) : string :=
  match replyToId with
  | Some id =>
      if String.eqb id "" then activities_url serviceUrl conversationId
      else reply_url serviceUrl conversationId id
  | None => activities_url serviceUrl conversationId
  end.

(** The reply target of a call: the [thread_id] argument when it is a
    non-empty string, the configured [TEAMS_THREAD_ID] otherwise. *)
Definition reply_target (host : Host) (arguments : Value) : option string :=
  let argsThreadId := optional_string (field arguments "thread_id") in
  let configThreadId := env host !! "TEAMS_THREAD_ID" in
  if absent argsThreadId then configThreadId else argsThreadId.

(** *** Parsing, part by part *)

(** What [z_object] does with one key of its shape. *)
Definition field_result (fields : list (string * Value)) (path : Path)
    (ks : string * Schema) : ParseReturn :=
  snd ks (get (fst ks) fields) (path ++ [Key (fst ks)]).

Definition too_big_issue (maxLength : option nat) (n : nat) (path : Path)
  : list ZodIssue :=
  match maxLength with
  | Some m => if (m <? n)%nat then [simple too_big path] else []
  | None => []
  end.

Section Elements.
Context `{Platform}.

(** The options of the element union, [CardElementSchema] resolved with
    [stack] levels left. *)
Definition options (stack : nat) : list Schema := [
  TextBlockSchema;
  ImageSchema;
  FactSetSchema;
  ColumnSetSchema (CardElementSchema stack);
  ContainerSchema (CardElementSchema stack);
  ActionSetSchema
].

End Elements.

(** Two schemas do the same on every value of depth below [d]. *)
Definition agree (d : nat) (s s' : Schema) : Prop :=
  forall x p, (depth x < d)%nat -> s x p = s' x p.

(** *** Object literals *)

Definition val (o : option Value) : Value := default VUndefined o.

Definition is_some (o : option Value) : bool :=
  match o with Some _ => true | None => false end.

(** The entry [z_object] writes for a key whose value parsed to [v]. *)
Definition written (k : string) (o : option Value) (v : Value)
  : string * option Value :=
  (k, if negb (is_undefined v) || is_some o then Some v else None).

(** One key of a shape parses the entry [e] of a literal into [e']. *)
Definition parses_entry (path : Path) (ks : string * Schema)
    (e e' : string * option Value) : Prop :=
  fst e = fst ks
  /\ exists v, snd ks (val (snd e)) (path ++ [Key (fst ks)]) = OK v
               /\ e' = written (fst ks) (snd e) v.

(** Something to send: a non-empty text or a card. *)
Definition provided (a : PostRichMessageArgs) : bool :=
  match args_text a with
  | Some s => negb (String.eqb s "")
  | None => false
  end
  || match args_card a with Some _ => true | None => false end.

(** The rejection of the require-one-of refinement. *)
Definition neither_text_nor_card : list ZodIssue + Value :=
  inl [Issue (custom "Either text or card must be provided")
         [Key "text"; Key "card"] []].

End Spec.
Import Spec.

(** ** More vocabulary *)

Module Terms.
Import Index Card.

(** *** Calls *)

(** The world at a later reading of the clock. *)
Definition at_clock (w : World) (now : Z) : World :=
  {| tokenCache := tokenCache w; clock := now;
     requests := requests w; console := console w |}.

(** The world after one more line on the error console. *)
Definition noted (w : World) (line : list string) : World :=
  {| tokenCache := tokenCache w; clock := clock w;
     requests := requests w; console := console w ++ [line] |}.

(** The request [sendActivity] makes once it holds the token. *)
Definition activity_request `{Runtime} (serviceUrl conversationId : string)
    (activity : list (string * Value)) (replyToId : option string)
    (token : Value) : Request := {|
  url := target_url serviceUrl conversationId replyToId;
  method := "POST";
  headers := [("Authorization", "Bearer " +:+ to_string token);
              ("Content-Type", "application/json")];
  body := JSON_stringify (VObj (spread [("type", VStr "message")] activity))
|}.

(** The conversation to post to is configured. *)
Definition configured (host : Host) : bool :=
  negb (absent (env host !! "TEAMS_SERVICE_URL"))
  && negb (absent (env host !! "TEAMS_CONVERSATION_ID")).

(** The text of a successful call. *)
Definition report (actionType : string) (id : Value) : string :=
  actionType +:+ " successfully (id: " +:+ to_string id +:+ ")".

(** The outcome of a call that fails with the message [m] in the world
    [w]: the failure is written to the error console and thrown as an
    [Error]. *)
Definition refusal (w : World) (m : string) : (Exn + string) * World :=
  (inl (Error m), noted w ["[TeamsMCP] Error handling request:"; m]).

(** What a call answers, given how its [sendActivity] went. *)
Definition answer `{Runtime} (actionType : string)
    (sent : (Exn + Value) * World) : (Exn + string) * World :=
  match sent with
  | (inl e, w) => refusal w (message_of e)
  | (inr result, w) =>
      match prop result "id" with
      | Some id => (inr (report actionType id), w)
      | None => refusal w "Cannot read properties of null (reading 'id')"
      end
  end.

(** The activity of a rich message, by its validated arguments. *)
Definition rich_activity (args : Value) : list (string * Value) :=
  if truthy (field args "card") then
    [("text", Js.or (field args "text") (VStr ""));
     ("attachments",
      VArr [VObj [("contentType",
                   VStr "application/vnd.microsoft.card.adaptive");
                  ("content", field args "card")]])]
  else
    [("text", Js.or (field args "text") (VStr ""));
     ("textFormat", VStr "markdown")].

Section Handler.
Context `{Platform} `{Runtime} (host : Host).
Local Open Scope m_scope.


End Handler.

(** *** Schemas *)

(** A schema that returns what it accepts, wherever it is applied. *)
Definition verbatim (s : Schema) : Prop :=
  forall x p v, s x p = OK v -> v = x /\ forall p', s x p' = OK x.

(** A schema that accepts what it returns, as it is. *)
Definition stable (s : Schema) : Prop :=
  forall x p v, s x p = OK v -> forall p', s v p' = OK v.

(** A schema of the objects whose [type] is [lit]. *)
Definition tagged (lit : string) (s : Schema) : Prop :=
  forall x p v,
    s x p = OK v -> field x "type" = VStr lit /\ field v "type" = VStr lit.

Section Elements.
Context `{Platform}.

(** The options of the element union, by the [type] each is for. *)
Definition options_by_type (stack : nat) : list (string * Schema) := [
  ("TextBlock", TextBlockSchema);
  ("Image", ImageSchema);
  ("FactSet", FactSetSchema);
  ("ColumnSet", ColumnSetSchema (CardElementSchema stack));
  ("Container", ContainerSchema (CardElementSchema stack));
  ("ActionSet", ActionSetSchema)
].

End Elements.

(** An issue raised under the path [q]: its path, and the paths of its
    union errors, start there. *)
Fixpoint under (q : Path) (i : ZodIssue) : ZodIssue :=
  match i with
  | Issue c p unionErrors => Issue c (q ++ p) (map (map (under q)) unionErrors)
  end.

Definition relocate (q : Path) (r : ParseReturn) : ParseReturn :=
  match r with
  | OK v => OK v
  | DIRTY v errs => DIRTY v (map (under q) errs)
  | INVALID errs => INVALID (map (under q) errs)
  end.

(** A schema whose issues follow the path it is applied at, and which
    does the same otherwise. *)
Definition uniform (s : Schema) : Prop :=
  forall x p q, s x (p ++ q) = relocate p (s x q).

(** A value of JSON: no element and no property of it is [undefined]. *)
Fixpoint is_json (v : Value) : bool :=
  match v with
  | VUndefined => false
  | VArr xs => forallb is_json xs
  | VObj fields => forallb (fun kv => is_json (snd kv)) fields
  | _ => true
  end.

(** The entry of an object literal for a value that may be [undefined]. *)
Definition defined (v : Value) : option Value :=
  if is_undefined v then None else Some v.

(** A schema that returns no [undefined] for an input that is not. *)
Definition keeps_defined (s : Schema) : Prop :=
  forall x p v, s x p = OK v -> x <> VUndefined -> v <> VUndefined.

(** A schema whose results, on JSON, are the values of a type, as [enc]
    writes them, that satisfy [wf]. *)
Definition typed {A} (s : Schema) (enc : A -> Value) (wf : A -> bool) : Prop :=
  forall x p v,
    is_json x = true -> s x p = OK v -> exists a, v = enc a /\ wf a = true.

End Terms.
Import Terms.

(** ** Fixtures: a sample runtime, hosts and worlds *)

Module Sample.
Import Index.

(** A URL parser that accepts what starts with an http(s) scheme. *)
Definition sample_platform : Platform :=
  {| URL_canParse s := String.prefix "http://" s || String.prefix "https://" s |}.

Definition token_body : string := "{access_token:abc,expires_in:3600}".
Definition numeric_token_body : string := "{access_token:42,expires_in:3600}".
Definition no_expiry_body : string := "{access_token:abc}".
Definition sent_body : string := "{id:1700000000001}".

(** [JSON.parse] on the bodies the sample network serves (written here
    without the quotes of real JSON). *)
Definition sample_parse (s : string) : option Value :=
  if String.eqb s token_body then
    Some (VObj [("access_token", VStr "abc"); ("expires_in", VNum 3600)])
  else if String.eqb s numeric_token_body then
    Some (VObj [("access_token", VNum 42); ("expires_in", VNum 3600)])
  else if String.eqb s no_expiry_body then
    Some (VObj [("access_token", VStr "abc")])
  else if String.eqb s sent_body then
    Some (VObj [("id", VStr "1700000000001")])
  else if String.eqb s "null" then Some VNull
  else None.

Definition sample_runtime : Runtime := {|
  JSON_parse := sample_parse;
  JSON_stringify := to_string;
  encodeURIComponent := fun s => s;
  URLSearchParams_toString := fun ps =>
    String.concat "&" (map (fun p => fst p +:+ "=" +:+ snd p) ps);
  ZodError_message := fun _ => "ZodError";
|}.

Definition credentials : gmap string string :=
  <["TEAMS_BOT_APP_ID" := "app-id"]>
    (<["TEAMS_BOT_APP_PASSWORD" := "app-secret"]> ∅).

(** The token endpoint answers every request with [status] and [text];
    any other URL accepts the activity. *)
Definition serving (env : gmap string string) (status : Z) (text : string)
  : Host :=
  {| env := env;
     network := fun req =>
       if String.eqb (url req) tokenUrl
       then inr {| Index.status := status; Index.text := text |}
       else inr {| Index.status := 201; Index.text := sent_body |} |}.

(** The environment of a bot attached to a conversation, with a default
    thread. *)
Definition conversation : gmap string string :=
  <["TEAMS_SERVICE_URL" := "https://smba.example.net/teams/"]>
    (<["TEAMS_CONVERSATION_ID" := "19:general"]>
       (<["TEAMS_THREAD_ID" := "1700000000000"]> credentials)).

Definition world (cache : option TokenCache) (now : Z) : World :=
  {| tokenCache := cache; clock := now; requests := []; console := [] |}.

Definition cached (expires : Z) : TokenCache :=
  {| token := VStr "old"; expiresAt := expires |}.

Definition minutes (n : Z) : Z := n * 60 * 1000.

(** Typed cards. *)
Definition text_block (s : string) : Card.CardElement :=
  Card.ETextBlock {|
    Card.tb_text := s; Card.tb_weight := None; Card.tb_size := None;
    Card.tb_color := None; Card.tb_wrap := None; Card.tb_isSubtle := None;
    Card.tb_maxLines := None; Card.tb_horizontalAlignment := None;
    Card.tb_spacing := None; Card.tb_separator := None |}.

Definition heading (s : string) : Card.CardElement :=
  Card.ETextBlock {|
    Card.tb_text := s;
    Card.tb_weight :=
      Some (Card.Build_Enum ["Default"; "Lighter"; "Bolder"] "Bolder" eq_refl);
    Card.tb_size := None; Card.tb_color := None; Card.tb_wrap := Some true;
    Card.tb_isSubtle := None; Card.tb_maxLines := None;
    Card.tb_horizontalAlignment := None; Card.tb_spacing := None;
    Card.tb_separator := None |}.

Definition image (u : string) : Card.CardElement :=
  Card.EImage {|
    Card.img_url := u; Card.img_altText := None; Card.img_size := None;
    Card.img_style := None; Card.img_horizontalAlignment := None;
    Card.img_width := None; Card.img_height := None |}.

Definition fact_set (n : nat) : Card.CardElement :=
  Card.EFactSet {|
    Card.fs_facts :=
      repeat {| Card.fact_title := "Passed"; Card.fact_value := "45" |} n;
    Card.fs_spacing := None; Card.fs_separator := None |}.

Definition container (items : list Card.CardElement) : Card.CardElement :=
  Card.EContainer items None None None.

Definition column (items : list Card.CardElement)
  : Card.Column Card.CardElement :=
  {| Card.col_width := Some (inl "auto"); Card.col_items := Some items;
     Card.col_verticalContentAlignment := None; Card.col_spacing := None |}.

Definition column_set (columns : list (Card.Column Card.CardElement))
  : Card.CardElement :=
  Card.EColumnSet columns None None.

Definition card (body : list Card.CardElement) : Card.AdaptiveCard :=
  {| Card.card_version := None; Card.card_body := body;
     Card.card_actions := None; Card.card_schema := None |}.

(** A container holding a column set holding columns holding containers
    of text blocks; then an image and a fact set. *)
Definition nested_card : Card.AdaptiveCard :=
  card [
    container [
      column_set [
        column [container [heading "Results"; text_block "All passed"]];
        column [container [text_block "Duration"]]
      ]
    ];
    image "https://example.com/logo.png";
    fact_set 10
  ].

End Sample.

(** * Properties *)

(** ** The token cache *)

Module TokenBroker.
Import Index.
Local Open Scope Z_scope.

Section Lemmas.
Context `{Runtime} (host : Host).

Lemma cache_hit (w : World) (c : TokenCache) :
  tokenCache w = Some c ->
  clock w + 5 * 60 * 1000 < expiresAt c ->
  getBotConnectorToken host w = (inr (token c), w).
Proof.
  intros Hc Hlt.
  unfold getBotConnectorToken, bind, Date_now, read_tokenCache; simpl.
  rewrite Hc.
  destruct (Z.gtb_spec (expiresAt c) (clock w + 5 * 60 * 1000)); [reflexivity | lia].
Qed.

Lemma stale_miss (w : World) :
  stale w ->
  match tokenCache w with
  | Some c =>
      if expiresAt c >? clock w + 5 * 60 * 1000 then Some (token c) else None
  | None => None
  end = None.
Proof.
  intros Hs. destruct (tokenCache w) as [c|] eqn:Hc; [|reflexivity].
  specialize (Hs c Hc).
  destruct (Z.gtb_spec (expiresAt c) (clock w + 5 * 60 * 1000)); [lia | reflexivity].
Qed.

Ltac run_token Hs :=
  unfold getBotConnectorToken, bind, Date_now, read_tokenCache; simpl;
  rewrite (stale_miss _ Hs); unfold process_env; simpl.

Lemma credentials_absent :
  credentials_set host = false ->
  absent (env host !! "TEAMS_BOT_APP_ID")
  || absent (env host !! "TEAMS_BOT_APP_PASSWORD") = true.
Proof.
  unfold credentials_set.
  destruct (absent (env host !! "TEAMS_BOT_APP_ID")),
           (absent (env host !! "TEAMS_BOT_APP_PASSWORD")); simpl; congruence.
Qed.

Lemma credentials_present :
  credentials_set host = true ->
  absent (env host !! "TEAMS_BOT_APP_ID")
  || absent (env host !! "TEAMS_BOT_APP_PASSWORD") = false.
Proof.
  unfold credentials_set.
  destruct (absent (env host !! "TEAMS_BOT_APP_ID")),
           (absent (env host !! "TEAMS_BOT_APP_PASSWORD")); simpl; congruence.
Qed.

Lemma miss_no_credentials (w : World) :
  stale w -> credentials_set host = false ->
  getBotConnectorToken host w =
    (inl (Error "TEAMS_BOT_APP_ID and TEAMS_BOT_APP_PASSWORD must be set"), w).
Proof.
  intros Hs Hc. run_token Hs. rewrite (credentials_absent Hc). reflexivity.
Qed.

Ltac run_exchange Hs Hc :=
  run_token Hs; rewrite (credentials_present Hc);
  unfold fetch, tokenUrl; simpl;
  fold (exchange_request host).

Lemma miss_rejected (w : World) (e : Exn) :
  stale w -> credentials_set host = true ->
  network host (exchange_request host) = inl e ->
  getBotConnectorToken host w = (inl e, after w (exchange_request host) []).
Proof.
  intros Hs Hc Hn. run_exchange Hs Hc.
  unfold exchange_request in *. rewrite Hn.
  unfold after. simpl. rewrite app_nil_r. reflexivity.
Qed.

Section Responded.
Variables (w : World) (r : Response).
Hypothesis Hs : stale w.
Hypothesis Hc : credentials_set host = true.
Hypothesis Hn : network host (exchange_request host) = inr r.

Ltac run_response :=
  run_exchange Hs Hc; unfold exchange_request in *; rewrite Hn;
  fold (exchange_request host); simpl.

Lemma miss_not_ok :
  ok r = false ->
  getBotConnectorToken host w =
    (inl (Error ("Failed to get Bot Connector token: " +:+ show_Z (status r))),
     after w (exchange_request host)
       [["[TeamsMCP] Token request failed:"; text r]]).
Proof.
  intros Hok. run_response. rewrite Hok. reflexivity.
Qed.

Ltac run_json Hok :=
  run_response; rewrite Hok; simpl; unfold try_catch, json, of_option.

Lemma miss_unparseable :
  ok r = true -> JSON_parse (text r) = None ->
  getBotConnectorToken host w =
    (inl (Error "Failed to parse Bot Connector token response as JSON"),
     after w (exchange_request host) []).
Proof.
  intros Hok Hj. run_json Hok. rewrite Hj. simpl.
  unfold after. rewrite app_nil_r. reflexivity.
Qed.

Lemma miss_null (data : Value) :
  ok r = true -> JSON_parse (text r) = Some data ->
  prop data "access_token" = None ->
  getBotConnectorToken host w =
    (inl (TypeError "Cannot read properties of null (reading 'access_token')"),
     after w (exchange_request host) []).
Proof.
  intros Hok Hj Hp. run_json Hok. rewrite Hj. simpl. rewrite Hp. simpl.
  unfold after. rewrite app_nil_r. reflexivity.
Qed.

Lemma miss_no_token (data t : Value) :
  ok r = true -> JSON_parse (text r) = Some data ->
  prop data "access_token" = Some t -> truthy t = false ->
  getBotConnectorToken host w =
    (inl (Error "Invalid token response: missing access_token or expires_in"),
     after w (exchange_request host) []).
Proof.
  intros Hok Hj Hp Ht. run_json Hok. rewrite Hj. simpl. rewrite Hp. simpl.
  rewrite Ht. simpl. unfold after. rewrite app_nil_r. reflexivity.
Qed.

Lemma prop_total (data t : Value) (k k' : string) :
  prop data k = Some t -> exists e, prop data k' = Some e.
Proof. destruct data; simpl; try discriminate; eauto. Qed.

Lemma miss_no_expiry (data t e : Value) :
  ok r = true -> JSON_parse (text r) = Some data ->
  prop data "access_token" = Some t -> truthy t = true ->
  prop data "expires_in" = Some e -> (forall n, e <> VNum n) ->
  getBotConnectorToken host w =
    (inl (Error "Invalid token response: missing access_token or expires_in"),
     after w (exchange_request host) []).
Proof.
  intros Hok Hj Hp Ht He Hnum. run_json Hok. rewrite Hj. simpl.
  rewrite Hp. simpl. rewrite Ht. simpl. rewrite He. simpl.
  unfold after. rewrite app_nil_r.
  destruct e; try reflexivity. exfalso. eapply Hnum. reflexivity.
Qed.

Lemma miss_success (data t : Value) (n : Z) :
  ok r = true -> JSON_parse (text r) = Some data ->
  prop data "access_token" = Some t -> truthy t = true ->
  prop data "expires_in" = Some (VNum n) ->
  getBotConnectorToken host w =
    (inr t,
     with_cache (after w (exchange_request host) [])
       {| token := t; expiresAt := clock w + n * 1000 |}).
Proof.
  intros Hok Hj Hp Ht He. run_json Hok. rewrite Hj. simpl.
  rewrite Hp. simpl. rewrite Ht. simpl. rewrite He. simpl.
  unfold with_cache, after, write_tokenCache. simpl.
  rewrite app_nil_r. reflexivity.
Qed.

End Responded.

(** Every outcome of an exchange: one request more, and either a failure
    that leaves the cache alone or the response's token, cached. *)
Lemma miss_outcome (w : World) :
  stale w -> credentials_set host = true ->
  exists res lines,
    (getBotConnectorToken host w
       = (inl res, after w (exchange_request host) lines))
    \/ (exists r data t n,
          network host (exchange_request host) = inr r
          /\ ok r = true
          /\ JSON_parse (text r) = Some data
          /\ prop data "access_token" = Some t
          /\ truthy t = true
          /\ prop data "expires_in" = Some (VNum n)
          /\ getBotConnectorToken host w
              = (inr t,
                 with_cache (after w (exchange_request host) lines)
                   {| token := t; expiresAt := clock w + n * 1000 |})).
Proof.
  intros Hs Hc.
  destruct (network host (exchange_request host)) as [e|r] eqn:Hn.
  { exists e, []. left. apply miss_rejected; assumption. }
  destruct (ok r) eqn:Hok.
  2:{ eexists _, _. left. apply miss_not_ok; eassumption. }
  destruct (JSON_parse (text r)) as [data|] eqn:Hj.
  2:{ eexists _, _. left. eapply miss_unparseable; eassumption. }
  destruct (prop data "access_token") as [t|] eqn:Hp.
  2:{ eexists _, _. left. eapply miss_null; eassumption. }
  destruct (truthy t) eqn:Ht.
  2:{ eexists _, _. left. eapply miss_no_token; eassumption. }
  destruct (prop_total data t "access_token" "expires_in" Hp) as [e He].
  destruct e as [| |b|n|x|xs|fs].
  4:{ exists (Error ""), []. right. exists r, data, t, n.
      repeat split; try assumption.
      eapply miss_success; eassumption. }
  all: eexists _, _; left; eapply miss_no_expiry; try eassumption;
       intros n; discriminate.
Qed.

End Lemmas.
Import Sample.

(** C1.  The cache policy, for a server that has its two credentials, as
    the specification requires of it before [getToken] behaves at all.  A
    cached token whose expiry is more than five minutes after the clock is
    returned as it is and the world is left untouched (no request is
    made).  Otherwise (no cached token, or one inside the margin) the call
    makes exactly one request, the token exchange, and on success the
    cache holds the response's token with expiry
    [now + expires_in * 1000]. *)
Theorem getToken_cache_policy `{Runtime} (host : Host) (w : World) :
  (forall c,
      tokenCache w = Some c -> clock w + 5 * 60 * 1000 < expiresAt c ->
      getBotConnectorToken host w = (inr (token c), w))
  /\ (stale w -> credentials_set host = true ->
      exists res w',
        getBotConnectorToken host w = (res, w')
        /\ requests w' = requests w ++ [exchange_request host]
        /\ forall t, res = inr t ->
             exists r data n,
               network host (exchange_request host) = inr r
               /\ ok r = true
               /\ JSON_parse (text r) = Some data
               /\ prop data "access_token" = Some t
               /\ prop data "expires_in" = Some (VNum n)
               /\ tokenCache w'
                  = Some {| token := t; expiresAt := clock w + n * 1000 |}).
Proof.
  split.
  - intros c Hc Hlt. apply cache_hit; assumption.
  - intros Hs Hc.
    destruct (miss_outcome host w Hs Hc) as (e & lines & [Hf | Hok]).
    + eexists _, _. split; [exact Hf|]. split; [reflexivity|].
      intros t Ht. discriminate.
    + destruct Hok as (r & data & t & n & Hn & Ho & Hj & Hp & _ & He & Hr).
      eexists _, _. split; [exact Hr|]. split; [reflexivity|].
      intros t' Ht'. injection Ht' as <-.
      exists r, data, n. repeat split; assumption.
Qed.

(** The three cases of the specification's test: no cached token (one
    exchange, cached), a token with ten minutes left (no exchange), a
    token with two minutes left (one exchange, cache replaced). *)
Lemma getToken_cache_policy_witness :
  let host := serving credentials 200 token_body in
  let fresh := {| token := VStr "abc"; expiresAt := 3600000 |} in
  getBotConnectorToken (H := sample_runtime) host
      (world (Some (cached (minutes 10))) 0)
    = (inr (VStr "old"), world (Some (cached (minutes 10))) 0)
  /\ (exists res w',
        getBotConnectorToken (H := sample_runtime) host
            (world (Some (cached (minutes 2))) 0) = (res, w')
        /\ requests w' = [exchange_request (H := sample_runtime) host]
        /\ res = inr (VStr "abc") /\ tokenCache w' = Some fresh)
  /\ (exists res w',
        getBotConnectorToken (H := sample_runtime) host (world None 0)
          = (res, w')
        /\ requests w' = [exchange_request (H := sample_runtime) host]
        /\ res = inr (VStr "abc") /\ tokenCache w' = Some fresh).
Proof.
  intros host fresh. split; [|split].
  - apply (proj1 (getToken_cache_policy (H := sample_runtime) host
                    (world (Some (cached (minutes 10))) 0)) (cached (minutes 10)));
      [reflexivity | vm_compute; reflexivity].
  - destruct (proj2 (getToken_cache_policy (H := sample_runtime) host
                       (world (Some (cached (minutes 2))) 0)))
      as (res & w' & Hr & Hq & _).
    + intros c Hc. injection Hc as <-. vm_compute. discriminate.
    + vm_compute. reflexivity.
    + exists res, w'. split; [exact Hr|]. split; [exact Hq|].
      vm_compute in Hr. injection Hr as <- <-. split; reflexivity.
  - destruct (proj2 (getToken_cache_policy (H := sample_runtime) host
                       (world None 0)))
      as (res & w' & Hr & Hq & _).
    + intros c Hc. discriminate.
    + vm_compute. reflexivity.
    + exists res, w'. split; [exact Hr|]. split; [exact Hq|].
      vm_compute in Hr. injection Hr as <- <-. split; reflexivity.
Defined.




(** A truthy [access_token] that is not a string is accepted and cached. *)
Lemma numeric_token_accepted :
  exists w',
    getBotConnectorToken (H := sample_runtime)
        (serving credentials 200 numeric_token_body) (world None 0)
      = (inr (VNum 42), w')
    /\ tokenCache w' = Some {| token := VNum 42; expiresAt := 3600000 |}.
Proof. eexists. vm_compute. split; reflexivity. Qed.

(** C3, as the code has it.  When the cache holds no token that outlives
    the margin and a credential is absent or empty, the call fails with
    the missing-credentials error and the world is untouched: no request
    is made. *)
Theorem missing_credentials `{Runtime} (host : Host) (w : World) :
  stale w -> credentials_set host = false ->
  getBotConnectorToken host w =
    (inl (Error "TEAMS_BOT_APP_ID and TEAMS_BOT_APP_PASSWORD must be set"), w).
Proof. apply miss_no_credentials. Qed.

Lemma missing_credentials_witness :
  let host :=
    serving (<["TEAMS_BOT_APP_ID" := "app-id"]> ∅) 200 token_body in
  let w := world (Some (cached (minutes 5))) 0 in
  getBotConnectorToken (H := sample_runtime) host w =
    (inl (Error "TEAMS_BOT_APP_ID and TEAMS_BOT_APP_PASSWORD must be set"), w).
Proof.
  intros host w.
  apply (missing_credentials (H := sample_runtime) host w).
  - intros c Hc. injection Hc as <-. vm_compute. discriminate.
  - vm_compute. reflexivity.
Defined.

(** C3 as stated fails: with a token cached for ten more minutes the call
    returns it although no credential is configured. *)
Lemma cached_token_without_credentials :
  let w := world (Some (cached (minutes 10))) 0 in
  getBotConnectorToken (H := sample_runtime) (serving ∅ 200 token_body) w
    = (inr (VStr "old"), w).
Proof. vm_compute. reflexivity. Qed.

(** C4: every request of the token exchange goes to the [botframework.com]
    endpoint, whatever the environment holds. *)
Lemma exchange_endpoint `{Runtime} (host : Host) (w : World) :
  let w' := snd (getBotConnectorToken host w) in
  requests w' = requests w
  \/ (exists req, requests w' = requests w ++ [req]
       /\ url req =
            "https://login.microsoftonline.com/botframework.com/oauth2/v2.0/token").
Proof.
  simpl.
  destruct (tokenCache w) as [c|] eqn:Hcache.
  - destruct (Z.ltb_spec (clock w + 5 * 60 * 1000) (expiresAt c)) as [Hlt|Hge].
    + rewrite (cache_hit host w c Hcache Hlt). left. reflexivity.
    + assert (Hs : stale w) by (intros c' Hc'; congruence).
      destruct (credentials_set host) eqn:Hc.
      * destruct (miss_outcome host w Hs Hc) as (e & lines & [Hf | Hok]).
        -- rewrite Hf. right. eexists. split; reflexivity.
        -- destruct Hok as (? & ? & ? & ? & _ & _ & _ & _ & _ & _ & Hr).
           rewrite Hr. right. eexists. split; reflexivity.
      * rewrite (miss_no_credentials host w Hs Hc). left. reflexivity.
  - assert (Hs : stale w) by (intros c' Hc'; congruence).
    destruct (credentials_set host) eqn:Hc.
    + destruct (miss_outcome host w Hs Hc) as (e & lines & [Hf | Hok]).
      * rewrite Hf. right. eexists. split; reflexivity.
      * destruct Hok as (? & ? & ? & ? & _ & _ & _ & _ & _ & _ & Hr).
        rewrite Hr. right. eexists. split; reflexivity.
    + rewrite (miss_no_credentials host w Hs Hc). left. reflexivity.
Qed.

(** C4 at a host configured for a single tenant: the exchange still posts
    to the multi-tenant endpoint. *)
Theorem tenant_endpoint_ignored :
  let host :=
    serving (<["TEAMS_BOT_TENANT_ID" := "contoso-tenant"]> credentials)
      200 token_body in
  map url (requests (snd (getBotConnectorToken (H := sample_runtime) host
                            (world None 0))))
  = ["https://login.microsoftonline.com/botframework.com/oauth2/v2.0/token"].
Proof. vm_compute. reflexivity. Qed.

End TokenBroker.

(** ** Thread replies *)

Module Threads.
Import Index Sample.

Lemma append_cancel_l (a x y : string) : a +:+ x = a +:+ y -> x = y.
Proof.
  induction a as [|c a IH]; simpl; intros Heq; [exact Heq|].
  injection Heq as Heq. auto.
Qed.

Lemma reply_url_differs `{Runtime} (serviceUrl conversationId id : string) :
  reply_url serviceUrl conversationId id
  <> activities_url serviceUrl conversationId.
Proof.
  unfold reply_url, activities_url. intros Heq.
  do 3 apply append_cancel_l in Heq. discriminate.
Qed.

Lemma sendActivity_request `{Runtime} (host : Host) (w w1 : World)
    (t : Value) (serviceUrl conversationId : string)
    (activity : list (string * Value)) (replyToId : option string) :
  getBotConnectorToken host w = (inr t, w1) ->
  exists req,
    requests (snd (sendActivity host serviceUrl conversationId activity
                     replyToId w))
      = requests w1 ++ [req]
    /\ url req = target_url serviceUrl conversationId replyToId
    /\ method req = "POST".
Proof.
  intros Ht. unfold sendActivity, bind at 1. rewrite Ht.
  unfold bind at 1, fetch at 1. simpl.
  match goal with
  | |- context [network host ?r] => exists r; destruct (network host r) as [e|r']
  end.
  - simpl. split; [reflexivity|]. split; [|reflexivity].
    unfold target_url, absent. destruct replyToId as [id|]; simpl; [|reflexivity].
    destruct (String.eqb id ""); reflexivity.
  - simpl.
    destruct (ok r'); simpl;
      [unfold try_catch, json, of_option; destruct (JSON_parse (text r')); simpl|];
      (split; [reflexivity|]; split; [|reflexivity]);
      unfold target_url, absent; destruct replyToId as [id|]; simpl;
      try reflexivity; destruct (String.eqb id ""); reflexivity.
Qed.

Lemma bind_inr {A B} (m : M A) (k : A -> M B) (w w' : World) (b : B) :
  bind m k w = (inr b, w') ->
  exists a w1, m w = (inr a, w1) /\ k a w1 = (inr b, w').
Proof.
  unfold bind. destruct (m w) as [[e|a] w1]; [discriminate|]. eauto.
Qed.

Lemma of_option_inr {A} (o : option A) (e : Exn) (w w' : World) (a : A) :
  of_option o e w = (inr a, w') -> o = Some a /\ w' = w.
Proof.
  destruct o; simpl; unfold ret, throw; intros Heq; [|discriminate].
  injection Heq as <- <-. auto.
Qed.

Lemma sendActivity_inr `{Runtime} (host : Host) (w w' : World) (result : Value)
    (serviceUrl conversationId : string) (activity : list (string * Value))
    (replyToId : option string) :
  sendActivity host serviceUrl conversationId activity replyToId w
    = (inr result, w') ->
  exists earlier req,
    requests w' = earlier ++ [req]
    /\ url req = target_url serviceUrl conversationId replyToId.
Proof.
  intros Hs.
  destruct (getBotConnectorToken host w) as [[e|t] w1] eqn:Ht.
  { unfold sendActivity, bind in Hs. rewrite Ht in Hs. discriminate. }
  destruct (sendActivity_request host w w1 t serviceUrl conversationId
              activity replyToId Ht) as (req & Hreq & Hurl & _).
  rewrite Hs in Hreq. simpl in Hreq. eauto.
Qed.

(** What the reply reports. *)
Lemma report_prefix (actionType rest : string) :
  actionType = "Reply sent to thread"
  \/ actionType = "Rich message posted"
  \/ actionType = "Message posted" ->
  String.prefix "Reply sent to thread" (actionType +:+ rest)
  = String.eqb actionType "Reply sent to thread".
Proof.
  intros [-> | [-> | ->]]; [|reflexivity..].
  simpl. destruct rest; reflexivity.
Qed.

Lemma resolve_spec (a c : option string) (m : MessageType) :
  let target := if absent a then c else a in
  fst (resolveThreadContext a c m) = target
  /\ (snd (resolveThreadContext a c m) = "Reply sent to thread"
      \/ snd (resolveThreadContext a c m) = "Rich message posted"
      \/ snd (resolveThreadContext a c m) = "Message posted")
  /\ String.eqb (snd (resolveThreadContext a c m)) "Reply sent to thread"
     = negb (absent target).
Proof.
  unfold resolveThreadContext, or_else. simpl.
  destruct (absent (if absent a then c else a)), m; simpl; auto.
Qed.

End Threads.

(** ** The combinators *)

Module ZodFacts.

Lemma mergeObject_issues (pairs : list (string * ParseReturn * bool)) :
  issues_of (mergeObject pairs)
  = flat_map (fun p => issues_of (snd (fst p))) pairs.
Proof.
  unfold mergeObject.
  destruct (existsb _ pairs) eqn:Ha; [reflexivity|].
  destruct (existsb (fun p => is_dirty (snd (fst p))) pairs) eqn:Hd;
    [reflexivity|].
  simpl. symmetry.
  induction pairs as [|[[k r] b] pairs IH]; [reflexivity|].
  simpl in *. apply orb_false_elim in Ha as [Ha1 Ha2].
  apply orb_false_elim in Hd as [Hd1 Hd2].
  rewrite IH by assumption.
  destruct r; simpl in *; try discriminate. reflexivity.
Qed.

Lemma mergeObject_aborted (pairs : list (string * ParseReturn * bool)) :
  is_aborted (mergeObject pairs)
  = existsb (fun p => is_aborted (snd (fst p))) pairs.
Proof.
  unfold mergeObject.
  destruct (existsb (fun p => is_aborted (snd (fst p))) pairs); [reflexivity|].
  destruct (existsb (fun p => is_dirty (snd (fst p))) pairs); reflexivity.
Qed.

Lemma z_object_issues shape fields path :
  issues_of (z_object shape (VObj fields) path)
  = flat_map (fun ks => issues_of (field_result fields path ks)) shape.
Proof.
  unfold z_object. rewrite mergeObject_issues.
  induction shape as [|ks shape IH]; [reflexivity|].
  simpl. rewrite IH. reflexivity.
Qed.

Lemma z_object_aborted shape fields path :
  is_aborted (z_object shape (VObj fields) path)
  = existsb (fun ks => is_aborted (field_result fields path ks)) shape.
Proof.
  unfold z_object. rewrite mergeObject_aborted.
  induction shape as [|ks shape IH]; [reflexivity|].
  simpl. rewrite IH. reflexivity.
Qed.

(** The keys of a parsed object are keys of the shape. *)
Lemma z_object_keys shape data path out :
  z_object shape data path = OK out ->
  exists fields,
    out = VObj fields /\ forall k, has k fields = true -> In k (map fst shape).
Proof.
  destruct data as [| | | | | |input]; try discriminate.
  unfold z_object, mergeObject.
  destruct (existsb _ _); [discriminate|].
  destruct (existsb _ _); [discriminate|].
  intros Heq. injection Heq as <-. eexists. split; [reflexivity|].
  induction shape as [|[k0 s0] shape IH]; intros k Hk; [discriminate|].
  simpl in Hk. simpl.
  destruct (negb (is_undefined (value_of (s0 (get k0 input) (path ++ [Key k0]))))
            || has k0 input).
  - simpl in Hk. destruct (String.eqb_spec k k0) as [Heq | Hne].
    + left. symmetry. exact Heq.
    + right. apply IH. exact Hk.
  - right. apply IH. exact Hk.
Qed.

(** An object whose [type] is not the literal of the schema aborts it. *)
Lemma z_object_other_type shape fields path (lit t : string) :
  get "type" fields = VStr t -> t <> lit ->
  is_aborted (z_object (("type", z_literal lit) :: shape) (VObj fields) path)
  = true.
Proof.
  intros Ht Hne. rewrite z_object_aborted. simpl.
  unfold field_result at 1. simpl. rewrite Ht. simpl.
  apply String.eqb_neq in Hne. rewrite Hne. reflexivity.
Qed.

(** Arrays. *)
Lemma mergeArray_issues dirty own results :
  issues_of (mergeArray dirty own results)
  = (if dirty || existsb is_dirty results || existsb is_aborted results
     then own ++ flat_map issues_of results else []).
Proof.
  unfold mergeArray.
  destruct (existsb is_aborted results);
    [rewrite orb_true_r; reflexivity|].
  rewrite orb_false_r.
  destruct (dirty || existsb is_dirty results); reflexivity.
Qed.

Lemma ZodArray_issues element maxLength xs path :
  issues_of (ZodArray element maxLength (VArr xs) path)
  = too_big_issue maxLength (length xs) path
    ++ flat_map issues_of (imap (fun i x => element x (path ++ [Idx i])) xs).
Proof.
  unfold ZodArray. rewrite mergeArray_issues.
  set (results := imap _ xs).
  assert (Hown : (if match maxLength with
                     | Some m => (m <? length xs)%nat
                     | None => false
                     end then [simple too_big path] else [])
                 = too_big_issue maxLength (length xs) path).
  { unfold too_big_issue. destruct maxLength as [m|]; [|reflexivity].
    destruct (m <? length xs)%nat; reflexivity. }
  rewrite Hown.
  destruct (_ || existsb is_dirty results || existsb is_aborted results) eqn:Hb;
    [reflexivity|].
  apply orb_false_elim in Hb as [Hb Ha].
  apply orb_false_elim in Hb as [Hb Hd].
  assert (Hflat : flat_map issues_of results = []).
  { clear -Ha Hd. induction results as [|r rs IH]; [reflexivity|].
    simpl in *. apply orb_false_elim in Ha as [? ?].
    apply orb_false_elim in Hd as [? ?].
    rewrite IH by assumption. destruct r; simpl in *; try discriminate.
    reflexivity. }
  rewrite Hflat, app_nil_r. unfold too_big_issue.
  destruct maxLength as [m|]; [|reflexivity]. rewrite Hb. reflexivity.
Qed.

Lemma imap_all_ok (g : nat -> Value -> ParseReturn)
    (out : Value -> Value) (xs : list Value) :
  (forall i x, xs !! i = Some x -> g i x = OK (out x)) ->
  imap g xs = map (fun x => OK (out x)) xs.
Proof.
  revert g. induction xs as [|x xs IH]; intros g Hg; [reflexivity|].
  simpl. rewrite (Hg 0%nat x eq_refl). f_equal.
  apply IH. intros i y Hy. apply (Hg (S i) y Hy).
Qed.

Lemma mergeArray_all_ok (out : Value -> Value) (xs : list Value) :
  mergeArray false [] (map (fun x => OK (out x)) xs) = OK (VArr (map out xs)).
Proof.
  unfold mergeArray.
  assert (Ha : existsb is_aborted (map (fun x => OK (out x)) xs) = false)
    by (induction xs; simpl; auto).
  assert (Hd : existsb is_dirty (map (fun x => OK (out x)) xs) = false)
    by (induction xs; simpl; auto).
  rewrite Ha, Hd. simpl. do 2 f_equal.
  rewrite map_map. reflexivity.
Qed.

(** An array within its bound whose elements all parse, parses. *)
Lemma ZodArray_ok element maxLength (out : Value -> Value) xs path :
  match maxLength with
  | Some m => (length xs <= m)%nat
  | None => True
  end ->
  (forall i x, xs !! i = Some x -> element x (path ++ [Idx i]) = OK (out x)) ->
  ZodArray element maxLength (VArr xs) path = OK (VArr (map out xs)).
Proof.
  intros Hlen Hel. unfold ZodArray.
  rewrite (imap_all_ok _ out xs Hel).
  assert (Hb : match maxLength with
               | Some m => (m <? length xs)%nat
               | None => false
               end = false).
  { destruct maxLength as [m|]; [|reflexivity]. apply Nat.ltb_ge. exact Hlen. }
  rewrite Hb. apply mergeArray_all_ok.
Qed.

(** Unions. *)
Lemma union_loop_aborted options data path dirty issues :
  Forall (fun o : Schema => is_aborted (o data path) = true) options ->
  exists more,
    union_loop options data path dirty issues
    = match dirty with
      | Some r => r
      | None => INVALID [Issue invalid_union path (issues ++ more)]
      end.
Proof.
  intros Hall. revert issues.
  induction Hall as [|o options Ho Hall IH]; intros issues.
  - exists []. simpl. rewrite app_nil_r. reflexivity.
  - simpl. destruct (o data path) as [|? ?|errs] eqn:Hr; try discriminate.
    simpl. destruct errs as [|e errs].
    + apply IH.
    + destruct (IH (issues ++ [e :: errs])) as [more Hm].
      exists ((e :: errs) :: more). rewrite Hm.
      rewrite <- app_assoc. reflexivity.
Qed.

(** A union all of whose options but one abort on the input does what
    that option does; when that one aborts too, its issues are among the
    union errors. *)
Lemma union_single (pre post : list Schema) (s : Schema) data path :
  Forall (fun o : Schema => is_aborted (o data path) = true) pre ->
  Forall (fun o : Schema => is_aborted (o data path) = true) post ->
  match s data path with
  | INVALID errs =>
      exists before after,
        z_union (pre ++ s :: post) data path
        = INVALID [Issue invalid_union path
                     (before ++ match errs with [] => [] | _ => [errs] end
                      ++ after)]
  | r => z_union (pre ++ s :: post) data path = r
  end.
Proof.
  intros Hpre Hpost. unfold z_union.
  assert (Hgen : forall issues,
    match s data path with
    | INVALID errs =>
        exists before after,
          union_loop (pre ++ s :: post) data path None issues
          = INVALID [Issue invalid_union path
                       (before ++ match errs with [] => [] | _ => [errs] end
                        ++ after)]
    | r => union_loop (pre ++ s :: post) data path None issues = r
    end); [|apply Hgen].
  induction Hpre as [|o pre Ho Hpre IH]; intros issues.
  - simpl. destruct (s data path) as [v|v errs|errs] eqn:Hr; [reflexivity| |].
    + simpl. destruct errs as [|e errs].
      * destruct (union_loop_aborted post data path
                    (Some (DIRTY v [])) issues Hpost) as [more Hm].
        exact Hm.
      * destruct (union_loop_aborted post data path
                    (Some (DIRTY v (e :: errs))) (issues ++ [e :: errs])
                    Hpost) as [more Hm].
        exact Hm.
    + simpl. destruct errs as [|e errs].
      * destruct (union_loop_aborted post data path None issues Hpost)
          as [more Hm].
        rewrite Hm. exists issues, more. reflexivity.
      * destruct (union_loop_aborted post data path None
                    (issues ++ [e :: errs]) Hpost) as [more Hm].
        rewrite Hm. exists issues, more. rewrite <- app_assoc. reflexivity.
  - simpl. destruct (o data path) as [|? ?|errs] eqn:Hr; try discriminate.
    simpl. apply IH.
Qed.

(** Where the issues of a part end up. *)
Lemma points_object c q shape fields path ks :
  In ks shape ->
  points c q (field_result fields path ks) = true ->
  points c q (z_object shape (VObj fields) path) = true.
Proof.
  intros Hin Hp. unfold points in *. rewrite z_object_issues.
  apply existsb_exists in Hp as (i & Hi & Hr).
  apply existsb_exists. exists i. split; [|exact Hr].
  apply in_flat_map. exists ks. split; assumption.
Qed.

Lemma points_array c q element maxLength xs path i x :
  xs !! i = Some x ->
  points c q (element x (path ++ [Idx i])) = true ->
  points c q (ZodArray element maxLength (VArr xs) path) = true.
Proof.
  intros Hx Hp. unfold points in *. rewrite ZodArray_issues.
  apply existsb_exists in Hp as (e & He & Hr).
  apply existsb_exists. exists e. split; [|exact Hr].
  apply in_or_app. right. apply in_flat_map.
  exists (element x (path ++ [Idx i])). split; [|exact He].
  apply list_elem_of_In. apply list_elem_of_lookup. exists i.
  rewrite list_lookup_imap, Hx. reflexivity.
Qed.

Lemma points_too_big element m xs path :
  (m < length xs)%nat ->
  points too_big path (ZodArray element (Some m) (VArr xs) path) = true.
Proof.
  intros Hlen. unfold points. rewrite ZodArray_issues. unfold too_big_issue.
  apply Nat.ltb_lt in Hlen. rewrite Hlen. simpl.
  rewrite !bool_decide_eq_true_2 by reflexivity. reflexivity.
Qed.

Lemma points_union c q (pre post : list Schema) (s : Schema) data path :
  Forall (fun o : Schema => is_aborted (o data path) = true) pre ->
  Forall (fun o : Schema => is_aborted (o data path) = true) post ->
  points c q (s data path) = true ->
  points c q (z_union (pre ++ s :: post) data path) = true.
Proof.
  intros Hpre Hpost Hp.
  pose proof (union_single pre post s data path Hpre Hpost) as Hu.
  destruct (s data path) as [v|v errs|errs] eqn:Hr.
  - discriminate.
  - rewrite Hu. exact Hp.
  - destruct Hu as (before & after & Hu). rewrite Hu.
    unfold points in *. simpl in *. rewrite orb_false_r.
    apply orb_true_iff. right.
    rewrite !existsb_app. apply orb_true_iff. right.
    apply orb_true_iff. left.
    destruct errs as [|e errs]; [discriminate|].
    simpl. rewrite orb_false_r. exact Hp.
Qed.

(** Depth goes down into the parts of a value. *)
Lemma depth_get k fields : (depth (get k fields) < depth (VObj fields))%nat.
Proof.
  simpl. induction fields as [|[k' v] fields IH]; simpl; [lia|].
  destruct (String.eqb k k'); lia.
Qed.

Lemma depth_lookup (xs : list Value) i x :
  xs !! i = Some x -> (depth x < depth (VArr xs))%nat.
Proof.
  simpl. revert i. induction xs as [|y xs IH]; intros [|i] Hx;
    simpl in *; try discriminate.
  - injection Hx as ->. lia.
  - specialize (IH i Hx). lia.
Qed.

End ZodFacts.

(** ** The card schemas *)

Module SchemaFacts.
Import ZodFacts.

Section WithPlatform.
Context `{Platform}.

Lemma CardElementSchema_unfold stack data path :
  CardElementSchema (S stack) data path = z_union (options stack) data path.
Proof. reflexivity. Qed.

Ltac other_type Ht :=
  first
    [ unfold TextBlockSchema | unfold ImageSchema | unfold FactSetSchema
    | unfold ColumnSetSchema | unfold ContainerSchema
    | unfold ActionSetSchema ];
  eapply z_object_other_type; [exact Ht | discriminate].

Ltac dispatch Ht :=
  repeat (constructor; [other_type Ht|]); constructor.

(** The union on an object of a given [type] is the schema of that type. *)
Lemma points_element c q stack fields path (pre post : list Schema)
    (s : Schema) :
  options stack = pre ++ s :: post ->
  Forall (fun o : Schema => is_aborted (o (VObj fields) path) = true) pre ->
  Forall (fun o : Schema => is_aborted (o (VObj fields) path) = true) post ->
  points c q (s (VObj fields) path) = true ->
  points c q (z_union (options stack) (VObj fields) path) = true.
Proof. intros -> Hpre Hpost Hp. apply points_union; assumption. Qed.

Lemma points_container c q stack fields path :
  get "type" fields = VStr "Container" ->
  points c q (ContainerSchema (CardElementSchema stack) (VObj fields) path)
    = true ->
  points c q (z_union (options stack) (VObj fields) path) = true.
Proof.
  intros Ht Hp.
  apply (points_element c q stack fields path
           [TextBlockSchema; ImageSchema; FactSetSchema;
            ColumnSetSchema (CardElementSchema stack)]
           [ActionSetSchema] _ eq_refl); [dispatch Ht..|exact Hp].
Qed.

Lemma points_columnset c q stack fields path :
  get "type" fields = VStr "ColumnSet" ->
  points c q (ColumnSetSchema (CardElementSchema stack) (VObj fields) path)
    = true ->
  points c q (z_union (options stack) (VObj fields) path) = true.
Proof.
  intros Ht Hp.
  apply (points_element c q stack fields path
           [TextBlockSchema; ImageSchema; FactSetSchema]
           [ContainerSchema (CardElementSchema stack); ActionSetSchema]
           _ eq_refl); [dispatch Ht..|exact Hp].
Qed.

Lemma points_factset c q stack fields path :
  get "type" fields = VStr "FactSet" ->
  points c q (FactSetSchema (VObj fields) path) = true ->
  points c q (z_union (options stack) (VObj fields) path) = true.
Proof.
  intros Ht Hp.
  apply (points_element c q stack fields path
           [TextBlockSchema; ImageSchema]
           [ColumnSetSchema (CardElementSchema stack);
            ContainerSchema (CardElementSchema stack); ActionSetSchema]
           _ eq_refl); [dispatch Ht..|exact Hp].
Qed.

Lemma points_image c q stack fields path :
  get "type" fields = VStr "Image" ->
  points c q (ImageSchema (VObj fields) path) = true ->
  points c q (z_union (options stack) (VObj fields) path) = true.
Proof.
  intros Ht Hp.
  apply (points_element c q stack fields path
           [TextBlockSchema]
           [FactSetSchema; ColumnSetSchema (CardElementSchema stack);
            ContainerSchema (CardElementSchema stack); ActionSetSchema]
           _ eq_refl); [dispatch Ht..|exact Hp].
Qed.

Lemma path_step (p : Path) (a b : PathSeg) (rest : Path) :
  p ++ a :: b :: rest = ((p ++ [a]) ++ [b]) ++ rest.
Proof. rewrite <- !app_assoc. reflexivity. Qed.

(** An issue raised on a nested element by every parse of it is raised by
    the parse of the element it is nested in. *)
Lemma nested_points c q0 e rel node :
  nested_in e rel node ->
  (forall n p, (depth node < n)%nat ->
     points c (p ++ q0) (CardElementSchema n node p) = true) ->
  forall n p, (depth e < n)%nat ->
    points c (p ++ rel ++ q0) (CardElementSchema n e p) = true.
Proof.
  intros Hnest Hnode.
  induction Hnest as [e
    | fields items i x rel node Ht Hi Hx Hnest IH
    | fields columns j cfields items i x rel node Ht Hcs Hc Hct Hi Hx Hnest IH];
    intros n p Hn.
  - apply Hnode. exact Hn.
  - destruct n as [|n]; [lia|]. rewrite CardElementSchema_unfold.
    apply points_container; [exact Ht|].
    unfold ContainerSchema.
    eapply (points_object _ _ _ _ _ ("items", _)); [simpl; auto|].
    unfold field_result. simpl. rewrite Hi.
    eapply points_array; [exact Hx|].
    rewrite path_step.
    apply IH; [exact Hnode|].
    pose proof (depth_get "items" fields) as Hd1. rewrite Hi in Hd1.
    pose proof (depth_lookup items i x Hx) as Hd2. lia.
  - destruct n as [|n]; [lia|]. rewrite CardElementSchema_unfold.
    apply points_columnset; [exact Ht|].
    unfold ColumnSetSchema.
    eapply (points_object _ _ _ _ _ ("columns", _)); [simpl; auto|].
    unfold field_result. simpl. rewrite Hcs.
    eapply points_array; [exact Hc|].
    unfold ColumnSchema.
    eapply (points_object _ _ _ _ _ ("items", _)); [simpl; auto 10|].
    unfold field_result. cbn [fst snd]. rewrite Hi.
    change (z_optional ?s (VArr ?xs) ?p') with (s (VArr xs) p').
    eapply points_array; [exact Hx|].
    rewrite path_step.
    change (Key "items" :: Idx i :: rel ++ q0)
      with ([] ++ Key "items" :: Idx i :: rel ++ q0).
    rewrite (path_step []), !app_assoc, app_nil_r.
    rewrite <- (app_assoc _ rel q0).
    apply IH; [exact Hnode|].
    pose proof (depth_get "columns" fields) as Hd1. rewrite Hcs in Hd1.
    pose proof (depth_lookup columns j _ Hc) as Hd2.
    pose proof (depth_get "items" cfields) as Hd3. rewrite Hi in Hd3.
    pose proof (depth_lookup items i x Hx) as Hd4. lia.
Qed.

(** The same for an element of a card and the validation of the card. *)
Lemma element_rejected c q0 card path node :
  element_at card path node ->
  (forall n p, (depth node < n)%nat ->
     points c (p ++ q0) (CardElementSchema n node p) = true) ->
  rejects c (path ++ q0) (validate card) = true.
Proof.
  intros Hat Hnode.
  destruct Hat as [fields body i x rel node Hb Hx Hnest].
  assert (Hp : points c ((Key "body" :: Idx i :: rel) ++ q0)
                 (AdaptiveCardSchema (depth (VObj fields)) (VObj fields) [])
               = true).
  { unfold AdaptiveCardSchema.
    eapply (points_object _ _ _ _ _ ("body", _)); [simpl; auto 10|].
    unfold field_result, z_array_max. simpl snd. simpl fst. rewrite Hb.
    eapply points_array; [exact Hx|].
    change (z_union _ x ?p) with
      (CardElementSchema (S (depth (VObj fields))) x p).
    change ((Key "body" :: Idx i :: rel) ++ q0)
      with ((([] ++ [Key "body"]) ++ [Idx i]) ++ rel ++ q0).
    eapply nested_points; [exact Hnest|exact Hnode|].
    pose proof (depth_get "body" fields) as Hd1. rewrite Hb in Hd1.
    pose proof (depth_lookup body i x Hx) as Hd2. lia. }
  unfold validate, safeParse, rejects.
  destruct (AdaptiveCardSchema _ _ _) as [v|v errs|errs]; [discriminate|..];
    exact Hp.
Qed.

(** A fact set of more than ten facts. *)
Lemma factset_too_big node fields facts :
  node = VObj fields ->
  get "type" fields = VStr "FactSet" ->
  get "facts" fields = VArr facts ->
  (10 < length facts)%nat ->
  forall n p, (depth node < n)%nat ->
    points too_big (p ++ [Key "facts"]) (CardElementSchema n node p) = true.
Proof.
  intros -> Ht Hf Hlen n p Hn.
  destruct n as [|n]; [lia|]. rewrite CardElementSchema_unfold.
  apply points_factset; [exact Ht|].
  unfold FactSetSchema.
  eapply (points_object _ _ _ _ _ ("facts", _)); [simpl; auto|].
  unfold field_result, z_array_max. simpl. rewrite Hf.
  apply points_too_big. exact Hlen.
Qed.

(** An image whose [url] does not parse. *)
Lemma image_bad_url node fields u :
  node = VObj fields ->
  get "type" fields = VStr "Image" ->
  get "url" fields = VStr u ->
  URL_canParse u = false ->
  forall n p, (depth node < n)%nat ->
    points invalid_string (p ++ [Key "url"]) (CardElementSchema n node p)
    = true.
Proof.
  intros -> Ht Hu Hbad n p Hn.
  destruct n as [|n]; [lia|]. rewrite CardElementSchema_unfold.
  apply points_image; [exact Ht|].
  unfold ImageSchema.
  eapply (points_object _ _ _ _ _ ("url", _)); [simpl; auto|].
  unfold field_result, z_string_url, ZodString, points. simpl. rewrite Hu.
  simpl. rewrite Hbad. simpl.
  rewrite !bool_decide_eq_true_2 by reflexivity. reflexivity.
Qed.

(** An object whose [type] is none of the six. *)
Lemma unknown_type node fields (t : string) :
  node = VObj fields ->
  get "type" fields = VStr t ->
  ~ In t ["TextBlock"; "Image"; "FactSet"; "ColumnSet"; "Container";
          "ActionSet"] ->
  forall n p, (depth node < n)%nat ->
    points invalid_union (p ++ []) (CardElementSchema n node p) = true.
Proof.
  intros -> Ht Hnot n p Hn.
  destruct n as [|n]; [lia|]. rewrite CardElementSchema_unfold.
  assert (Hall : Forall (fun o : Schema =>
                           is_aborted (o (VObj fields) p) = true)
                   (options n)).
  { unfold options.
    repeat (constructor;
            [first
               [ unfold TextBlockSchema | unfold ImageSchema
               | unfold FactSetSchema | unfold ColumnSetSchema
               | unfold ContainerSchema | unfold ActionSetSchema ];
             eapply z_object_other_type; [exact Ht|];
             intros ->; apply Hnot; simpl; tauto|]).
    constructor. }
  destruct (union_loop_aborted (options n) (VObj fields) p None [] Hall)
    as [more Hm].
  unfold z_union. rewrite Hm. unfold points. simpl.
  rewrite app_nil_r, !bool_decide_eq_true_2 by reflexivity. reflexivity.
Qed.

(** A text block whose [text] is not a string. *)
Lemma text_not_string node fields :
  node = VObj fields ->
  get "type" fields = VStr "TextBlock" ->
  (forall s, get "text" fields <> VStr s) ->
  forall n p, (depth node < n)%nat ->
    points invalid_type (p ++ [Key "text"]) (CardElementSchema n node p) = true.
Proof.
  intros -> Ht Htext n p Hn.
  destruct n as [|n]; [lia|]. rewrite CardElementSchema_unfold.
  apply (points_element _ _ n fields p [] (tl (options n)) TextBlockSchema
           eq_refl); [constructor|simpl; dispatch Ht|].
  unfold TextBlockSchema.
  eapply (points_object _ _ _ _ _ ("text", _)); [simpl; auto|].
  unfold field_result, z_string, ZodString, points. cbn [fst snd].
  destruct (get "text" fields) as [| | | |s| |] eqn:Hg; simpl;
    rewrite ?bool_decide_eq_true_2 by reflexivity; try reflexivity.
  destruct (Htext s eq_refl).
Qed.

(** A body of more than fifty elements. *)
Lemma body_too_big fields body :
  get "body" fields = VArr body ->
  (50 < length body)%nat ->
  rejects too_big [Key "body"] (validate (VObj fields)) = true.
Proof.
  intros Hb Hlen.
  assert (Hp : points too_big [Key "body"]
                 (AdaptiveCardSchema (depth (VObj fields)) (VObj fields) [])
               = true).
  { unfold AdaptiveCardSchema.
    eapply (points_object _ _ _ _ _ ("body", _)); [simpl; auto 10|].
    unfold field_result, z_array_max. simpl snd. simpl fst. rewrite Hb.
    apply points_too_big. exact Hlen. }
  unfold validate, safeParse, rejects.
  destruct (AdaptiveCardSchema _ _ _) as [v|v errs|errs]; [discriminate|..];
    exact Hp.
Qed.

End WithPlatform.
End SchemaFacts.

(** ** The call stack *)

Module Stack.
Import ZodFacts SchemaFacts.

Lemma agree_refl d s : agree d s s.
Proof. intros x p _. reflexivity. Qed.

Lemma agree_weaken d d' s s' : (d' <= d)%nat -> agree d s s' -> agree d' s s'.
Proof. intros Hle Ha x p Hx. apply Ha. lia. Qed.

Lemma imap_agree (g g' : nat -> Value -> ParseReturn) (xs : list Value) :
  (forall i x, xs !! i = Some x -> g i x = g' i x) ->
  imap g xs = imap g' xs.
Proof.
  revert g g'. induction xs as [|x xs IH]; intros g g' Hg; [reflexivity|].
  simpl. rewrite (Hg 0%nat x eq_refl). f_equal.
  apply IH. intros i y Hy. apply (Hg (S i) y Hy).
Qed.

Lemma array_agree d element element' maxLength :
  agree d element element' ->
  agree d (ZodArray element maxLength) (ZodArray element' maxLength).
Proof.
  intros Ha x p Hx. destruct x as [| | | | |xs|]; try reflexivity.
  unfold ZodArray. f_equal. apply imap_agree.
  intros i y Hy. apply Ha.
  pose proof (depth_lookup xs i y Hy). lia.
Qed.

Lemma optional_agree d s s' :
  agree d s s' -> agree d (z_optional s) (z_optional s').
Proof.
  intros Ha x p Hx. destruct x; try reflexivity; apply Ha; exact Hx.
Qed.

Lemma object_agree d (shape shape' : list (string * Schema)) :
  Forall2 (fun ks ks' => fst ks = fst ks' /\ agree d (snd ks) (snd ks'))
    shape shape' ->
  agree (S d) (z_object shape) (z_object shape').
Proof.
  intros Hall x p Hx. destruct x as [| | | | | |fields]; try reflexivity.
  unfold z_object. f_equal.
  induction Hall as [|[k s] [k' s'] shape shape' [Hk Ha] Hall IH];
    [reflexivity|].
  simpl in Hk, Ha. subst k'. simpl. rewrite IH. do 3 f_equal.
  apply Ha. pose proof (depth_get k fields). lia.
Qed.

Lemma union_loop_agree d (options options' : list Schema) x p dirty issues :
  Forall2 (agree d) options options' -> (depth x < d)%nat ->
  union_loop options x p dirty issues = union_loop options' x p dirty issues.
Proof.
  intros Hall Hx. revert dirty issues.
  induction Hall as [|o o' options options' Ho Hall IH]; intros dirty issues;
    [reflexivity|].
  simpl. rewrite (Ho x p Hx).
  destruct (o' x p); [reflexivity|apply IH..].
Qed.

Lemma union_agree d (options options' : list Schema) :
  Forall2 (agree d) options options' ->
  agree d (z_union options) (z_union options').
Proof. intros Hall x p Hx. apply union_loop_agree with d; assumption. Qed.

Lemma same_key d (k : string) (s s' : Schema) :
  agree d s s' ->
  fst (k, s) = fst (k, s') /\ agree d (snd (k, s)) (snd (k, s')).
Proof. intros Ha. split; [reflexivity|exact Ha]. Qed.

Section WithPlatform.
Context `{Platform}.

Ltac same_keys :=
  repeat (constructor; [apply same_key, agree_refl|]);
  try constructor.

Lemma Container_agree d element element' :
  agree d element element' ->
  agree (S d) (ContainerSchema element) (ContainerSchema element').
Proof.
  intros Ha. apply object_agree.
  constructor; [apply same_key, agree_refl|].
  constructor; [apply same_key, array_agree; exact Ha|].
  same_keys.
Qed.

Lemma Column_agree d element element' :
  agree d element element' ->
  agree (S d) (ColumnSchema element) (ColumnSchema element').
Proof.
  intros Ha. apply object_agree.
  constructor; [apply same_key, agree_refl|].
  constructor; [apply same_key, agree_refl|].
  constructor; [apply same_key, optional_agree, array_agree; exact Ha|].
  same_keys.
Qed.

Lemma ColumnSet_agree d element element' :
  agree d element element' ->
  agree (S d) (ColumnSetSchema element) (ColumnSetSchema element').
Proof.
  intros Ha. apply object_agree.
  constructor; [apply same_key, agree_refl|].
  constructor.
  { apply same_key, array_agree.
    apply agree_weaken with (S d); [lia|]. apply Column_agree. exact Ha. }
  same_keys.
Qed.

Lemma options_agree d element element' :
  agree d element element' ->
  Forall2 (agree (S d))
    [TextBlockSchema; ImageSchema; FactSetSchema;
     ColumnSetSchema element; ContainerSchema element; ActionSetSchema]
    [TextBlockSchema; ImageSchema; FactSetSchema;
     ColumnSetSchema element'; ContainerSchema element'; ActionSetSchema].
Proof.
  intros Ha.
  do 3 (constructor; [apply agree_refl|]).
  constructor; [apply ColumnSet_agree; exact Ha|].
  constructor; [apply Container_agree; exact Ha|].
  constructor; [apply agree_refl|]. constructor.
Qed.

(** One more level of stack changes nothing for a value the stack is
    already deeper than. *)
Lemma element_stack stack :
  agree stack (CardElementSchema stack) (CardElementSchema (S stack)).
Proof.
  induction stack as [|stack IH]; [intros x p Hx; lia|].
  intros x p Hx. rewrite !CardElementSchema_unfold.
  apply (union_agree (S stack)); [|exact Hx].
  apply options_agree. exact IH.
Qed.

Lemma card_stack stack :
  agree (S (S stack)) (AdaptiveCardSchema stack) (AdaptiveCardSchema (S stack)).
Proof.
  unfold AdaptiveCardSchema. apply object_agree.
  constructor; [apply same_key, agree_refl|].
  constructor; [apply same_key, agree_refl|].
  constructor.
  { apply same_key, array_agree.
    apply (union_agree (S stack)). apply options_agree. apply element_stack. }
  same_keys.
Qed.

(** A stack as deep as the input is nested is deep enough: a deeper one
    validates the card to the same result. *)
Lemma validate_stack (input : Value) (stack : nat) :
  (depth input <= stack)%nat ->
  safeParse (AdaptiveCardSchema stack) input = validate input.
Proof.
  unfold validate. intros Hle.
  induction Hle as [|stack Hle IH]; [reflexivity|].
  rewrite <- IH. unfold safeParse.
  rewrite (card_stack stack input []); [reflexivity|lia].
Qed.

End WithPlatform.
End Stack.

(** ** Objects written as literals *)

Module Literals.
Import ZodFacts Card.

Lemma get_absent k entries :
  ~ In k (map fst entries) ->
  get k (fields_of entries) = VUndefined /\ has k (fields_of entries) = false.
Proof.
  induction entries as [|[k' o] entries IH]; intros Hk; [split; reflexivity|].
  simpl in Hk. unfold fields_of. simpl.
  destruct o as [v|]; simpl.
  - destruct (String.eqb_spec k k') as [->|Hne]; [tauto|]. apply IH. tauto.
  - apply IH. tauto.
Qed.

Lemma get_entry k o entries :
  List.NoDup (map fst entries) -> In (k, o) entries ->
  get k (fields_of entries) = val o /\ has k (fields_of entries) = is_some o.
Proof.
  induction entries as [|[k' o'] entries IH]; intros Hnd Hin; [destruct Hin|].
  simpl in Hnd. apply List.NoDup_cons_iff in Hnd as [Hk' Hnd].
  unfold fields_of. simpl. destruct Hin as [Heq|Hin].
  - injection Heq as -> ->. destruct o as [v|]; simpl.
    + rewrite String.eqb_refl. split; reflexivity.
    + apply get_absent. exact Hk'.
  - assert (Hne : k <> k').
    { intros ->. apply Hk'. apply in_map_iff. exists (k', o). auto. }
    destruct o' as [v'|]; simpl.
    + apply String.eqb_neq in Hne. rewrite Hne. apply IH; assumption.
    + apply IH; assumption.
Qed.

Lemma mergeObject_cons_ok k v b pairs fields :
  mergeObject pairs = OK (VObj fields) ->
  mergeObject ((k, OK v, b) :: pairs)
  = OK (VObj ((if negb (is_undefined v) || b then [(k, v)] else []) ++ fields)).
Proof.
  unfold mergeObject. simpl.
  destruct (existsb (fun p => is_aborted (snd (fst p))) pairs); [discriminate|].
  destruct (existsb (fun p => is_dirty (snd (fst p))) pairs); [discriminate|].
  intros Heq. injection Heq as <-. reflexivity.
Qed.

Lemma z_object_pairs shape fields path entries entries' :
  Forall3 (fun ks e e' =>
             get (fst ks) fields = val (snd e)
             /\ has (fst ks) fields = is_some (snd e)
             /\ parses_entry path ks e e') shape entries entries' ->
  z_object shape (VObj fields) path = OK (obj entries').
Proof.
  unfold z_object, obj.
  induction 1 as [|ks e e' shape entries entries' (Hg & Hh & _ & v & Hv & ->) _ IH];
    [reflexivity|].
  unfold Schema, Path in *. rewrite map_cons. cbv beta. rewrite Hg, Hh, Hv.
  rewrite (mergeObject_cons_ok _ _ _ _ _ IH). do 2 f_equal.
  unfold written. simpl.
  destruct (negb (is_undefined v) || is_some (snd e)); reflexivity.
Qed.

Lemma entries_found path all shape part entries' :
  List.NoDup (map fst all) ->
  (forall e, In e part -> In e all) ->
  Forall3 (parses_entry path) shape part entries' ->
  Forall3 (fun ks e e' =>
             get (fst ks) (fields_of all) = val (snd e)
             /\ has (fst ks) (fields_of all) = is_some (snd e)
             /\ parses_entry path ks e e') shape part entries'.
Proof.
  intros Hnd Hsub Hall.
  induction Hall as [|ks e e' shape part entries' Hp Hall IH];
    constructor.
  - destruct e as [k o]. destruct Hp as (Hk & Hv). simpl in Hk. subst k.
    destruct (get_entry (fst ks) o all Hnd) as [Hg Hh].
    { apply Hsub. left. reflexivity. }
    split; [exact Hg|]. split; [exact Hh|]. split; [reflexivity|exact Hv].
  - apply IH. intros e0 He0. apply Hsub. right. exact He0.
Qed.

(** A literal whose keys are those of the shape, each value parsing. *)
Lemma z_object_literal shape path entries entries' :
  List.NoDup (map fst entries) ->
  Forall3 (parses_entry path) shape entries entries' ->
  z_object shape (obj entries) path = OK (obj entries').
Proof.
  intros Hnd Hall. unfold obj at 1. fold (fields_of entries).
  apply (z_object_pairs _ _ _ entries).
  apply entries_found; auto.
Qed.

Lemma parses_same path k (s : Schema) o :
  s (val o) (path ++ [Key k]) = OK (val o) ->
  parses_entry path (k, s) (k, o) (k, o).
Proof.
  intros Hs. split; [reflexivity|]. exists (val o). split; [exact Hs|].
  unfold written. destruct o as [v|]; simpl; [|reflexivity].
  rewrite orb_true_r. reflexivity.
Qed.

(** The values the typed cards are written with parse as themselves. *)
Section Fields.
Context `{Platform}.

Lemma enum_parses values (o : option (Enum values)) path :
  z_optional (z_enum values) (val (of_enum <$> o)) path
  = OK (val (of_enum <$> o)).
Proof.
  destruct o as [e|]; [|reflexivity]. simpl. rewrite (enum_ok e). reflexivity.
Qed.

Lemma enum_required_parses values (e : Enum values) path :
  z_enum values (val (Some (of_enum e))) path = OK (val (Some (of_enum e))).
Proof. simpl. rewrite (enum_ok e). reflexivity. Qed.

Lemma boolean_parses (o : option bool) path :
  z_optional z_boolean (val (VBool <$> o)) path = OK (val (VBool <$> o)).
Proof. destruct o; reflexivity. Qed.

Lemma number_parses (o : option Z) path :
  z_optional z_number (val (VNum <$> o)) path = OK (val (VNum <$> o)).
Proof. destruct o; reflexivity. Qed.

Lemma string_parses (o : option string) path :
  z_optional z_string (val (VStr <$> o)) path = OK (val (VStr <$> o)).
Proof. destruct o; reflexivity. Qed.

Lemma string_required_parses (s : string) path :
  z_string (val (Some (VStr s))) path = OK (val (Some (VStr s))).
Proof. reflexivity. Qed.

Lemma literal_parses (lit : string) path :
  z_literal lit (val (Some (VStr lit))) path = OK (val (Some (VStr lit))).
Proof. simpl. rewrite String.eqb_refl. reflexivity. Qed.

Lemma unknown_parses (o : option Value) path :
  z_optional z_unknown (val o) path = OK (val o).
Proof. destruct o as [[]|]; reflexivity. Qed.

Lemma width_parses (o : option (string + Z)) path :
  z_optional (z_union [z_string; z_number]) (val (of_width <$> o)) path
  = OK (val (of_width <$> o)).
Proof. destruct o as [[s|n]|]; reflexivity. Qed.

Lemma url_parses (u : string) path :
  URL_canParse u = true ->
  z_string_url (val (Some (VStr u))) path = OK (val (Some (VStr u))).
Proof. intros Hu. simpl. unfold z_string_url, ZodString. simpl. rewrite Hu. reflexivity. Qed.

End Fields.

Create HintDb parses.

#[export] Hint Resolve enum_parses enum_required_parses boolean_parses
  number_parses string_parses string_required_parses literal_parses
  unknown_parses width_parses url_parses : parses.

Ltac distinct_keys :=
  cbn [map fst]; apply NoDup_ListNoDup; apply (bool_decide_unpack _);
  vm_compute; exact I.

(** Each key of the shape against the entry at its place. *)
Ltac entries :=
  repeat (apply Forall3_cons; [apply parses_same; auto with parses|]);
  try apply Forall3_nil.

Ltac literal :=
  apply z_object_literal; [distinct_keys | entries].

Section Leaves.
Context `{Platform}.

Lemma TextBlock_ok b path :
  TextBlockSchema (of_TextBlock b) path = OK (of_TextBlock b).
Proof. unfold TextBlockSchema, of_TextBlock. literal. Qed.

Lemma Image_ok i path :
  URL_canParse (img_url i) = true ->
  ImageSchema (of_Image i) path = OK (of_Image i).
Proof. intros Hu. unfold ImageSchema, of_Image. literal. Qed.

Lemma Fact_ok f path :
  FactSchema (of_Fact f) path = OK (of_Fact f).
Proof. unfold FactSchema, of_Fact. literal. Qed.

Lemma Action_ok a path :
  ActionSchema (of_Action a) path = OK (of_Action a).
Proof. unfold ActionSchema, of_Action. literal. Qed.

End Leaves.

(** Arrays of values that parse as themselves. *)
Lemma array_parses element maxLength (xs : list Value) path :
  match maxLength with
  | Some m => (length xs <= m)%nat
  | None => True
  end ->
  (forall i x, xs !! i = Some x -> element x (path ++ [Idx i]) = OK x) ->
  ZodArray element maxLength (VArr xs) path = OK (VArr xs).
Proof.
  intros Hlen Hel.
  rewrite (ZodArray_ok element maxLength (fun x => x) xs path Hlen Hel).
  rewrite map_id. reflexivity.
Qed.

Lemma array_map_parses {A} element maxLength (f : A -> Value) (ys : list A)
    path :
  match maxLength with
  | Some m => (length ys <= m)%nat
  | None => True
  end ->
  (forall y p, In y ys -> element (f y) p = OK (f y)) ->
  ZodArray element maxLength (VArr (map f ys)) path = OK (VArr (map f ys)).
Proof.
  intros Hlen Hel. apply array_parses.
  - rewrite length_map. exact Hlen.
  - intros i x Hx. rewrite list_lookup_fmap in Hx.
    destruct (ys !! i) as [y|] eqn:Hy; [|discriminate].
    injection Hx as <-. apply Hel.
    apply list_elem_of_In. apply list_elem_of_lookup. eauto.
Qed.

Section Composites.
Context `{Platform}.

Lemma FactSet_ok f path :
  (length (fs_facts f) <= 10)%nat ->
  FactSetSchema (of_FactSet f) path = OK (of_FactSet f).
Proof.
  intros Hlen.
  assert (Hfacts : forall p,
            z_array_max FactSchema 10
              (val (Some (VArr (map of_Fact (fs_facts f))))) p
            = OK (val (Some (VArr (map of_Fact (fs_facts f)))))).
  { intros p. apply array_map_parses; [exact Hlen|].
    intros y p' _. apply Fact_ok. }
  unfold FactSetSchema, of_FactSet. literal.
Qed.

Lemma actions_parse (actions : list Action) path :
  z_array ActionSchema (VArr (map of_Action actions)) path
  = OK (VArr (map of_Action actions)).
Proof.
  apply array_map_parses; [exact I|]. intros y p' _. apply Action_ok.
Qed.

Lemma ActionSet_ok actions path :
  ActionSetSchema (of_ActionSet actions) path = OK (of_ActionSet actions).
Proof.
  pose proof (actions_parse actions) as Hactions.
  unfold ActionSetSchema, of_ActionSet. literal.
Qed.

(** The containers, given that their elements parse. *)
Section Containers.
Variable element : Schema.

Lemma Column_ok (c : Column CardElement) path :
  (forall items, col_items c = Some items ->
     forall y p, In y items -> element (of_element y) p = OK (of_element y)) ->
  ColumnSchema element (of_Column of_element c) path
  = OK (of_Column of_element c).
Proof.
  intros Hel.
  assert (Hitems : forall p,
            z_optional (z_array element)
              (val ((fun items => VArr (map of_element items))
                      <$> col_items c)) p
            = OK (val ((fun items => VArr (map of_element items))
                         <$> col_items c))).
  { intros p. destruct (col_items c) as [items|]; [|reflexivity].
    exact (array_map_parses element None of_element items p I
             (Hel items eq_refl)). }
  unfold ColumnSchema, of_Column. literal.
Qed.

Lemma ColumnSet_ok columns spacing separator path :
  (forall c items, In c columns -> col_items c = Some items ->
     forall y p, In y items -> element (of_element y) p = OK (of_element y)) ->
  ColumnSetSchema element
    (of_element (EColumnSet columns spacing separator)) path
  = OK (of_element (EColumnSet columns spacing separator)).
Proof.
  intros Hel.
  assert (Hcolumns : forall p,
            z_array (ColumnSchema element)
              (val (Some (VArr (map (of_Column of_element) columns)))) p
            = OK (val (Some (VArr (map (of_Column of_element) columns))))).
  { intros p. apply array_map_parses; [exact I|].
    intros c p' Hc. apply Column_ok. intros items Hi. apply (Hel c items Hc Hi). }
  unfold ColumnSetSchema. cbn [of_element]. literal.
Qed.

Lemma Container_ok items style spacing separator path :
  (forall y p, In y items -> element (of_element y) p = OK (of_element y)) ->
  ContainerSchema element
    (of_element (EContainer items style spacing separator)) path
  = OK (of_element (EContainer items style spacing separator)).
Proof.
  intros Hel.
  assert (Hitems : forall p,
            z_array element (val (Some (VArr (map of_element items)))) p
            = OK (val (Some (VArr (map of_element items))))).
  { intros p. apply array_map_parses; [exact I|]. exact Hel. }
  unfold ContainerSchema. cbn [of_element]. literal.
Qed.

End Containers.
End Composites.

Import SchemaFacts.

Section Elements.
Context `{Platform}.

(** The union on the element the option [s] is for. *)
Lemma element_dispatch stack (pre post : list Schema) (s : Schema) v path :
  options stack = pre ++ s :: post ->
  Forall (fun o : Schema => is_aborted (o v path) = true) pre ->
  Forall (fun o : Schema => is_aborted (o v path) = true) post ->
  s v path = OK v ->
  CardElementSchema (S stack) v path = OK v.
Proof.
  intros Hopt Hpre Hpost Hs. rewrite CardElementSchema_unfold, Hopt.
  pose proof (union_single pre post s v path Hpre Hpost) as Hu.
  rewrite Hs in Hu. exact Hu.
Qed.

Ltac not_this :=
  first
    [ unfold TextBlockSchema | unfold ImageSchema | unfold FactSetSchema
    | unfold ColumnSetSchema | unfold ContainerSchema
    | unfold ActionSetSchema ];
  eapply z_object_other_type; [reflexivity | discriminate].

Ltac others := repeat (constructor; [not_this|]); constructor.

Lemma depth_items (entries : list (string * option Value)) k (xs : list Value)
    x :
  get k (fields_of entries) = VArr xs -> In x xs ->
  (S (depth x) < depth (obj entries))%nat.
Proof.
  intros Hg Hin. unfold obj. fold (fields_of entries).
  pose proof (depth_get k (fields_of entries)) as Hd. rewrite Hg in Hd.
  apply list_elem_of_In, list_elem_of_lookup in Hin as [i Hi].
  pose proof (depth_lookup xs i x Hi). lia.
Qed.

(** Every well-formed element parses as itself, whatever its nesting,
    on a stack deeper than it. *)
Lemma element_ok stack :
  forall e path,
    wf_element e = true ->
    (depth (of_element e) < stack)%nat ->
    CardElementSchema stack (of_element e) path = OK (of_element e).
Proof.
  induction stack as [|stack IH]; intros e path Hwf Hd; [lia|].
  destruct e as [b|i|f|columns spacing separator
                 |items style spacing separator|actions].
  - apply (element_dispatch stack [] (tl (options stack)) TextBlockSchema);
      [reflexivity|constructor|unfold of_element, of_TextBlock, obj; others|].
    apply TextBlock_ok.
  - apply (element_dispatch stack [TextBlockSchema]
             (tl (tl (options stack))) ImageSchema);
      [reflexivity|unfold of_element, of_Image, obj; others..|].
    apply Image_ok. exact Hwf.
  - apply (element_dispatch stack [TextBlockSchema; ImageSchema]
             (tl (tl (tl (options stack)))) FactSetSchema);
      [reflexivity|unfold of_element, of_FactSet, obj; others..|].
    apply FactSet_ok. simpl in Hwf. apply Nat.leb_le. exact Hwf.
  - apply (element_dispatch stack
             [TextBlockSchema; ImageSchema; FactSetSchema]
             (tl (tl (tl (tl (options stack)))))
             (ColumnSetSchema (CardElementSchema stack)));
      [reflexivity|unfold of_element, obj; others..|].
    apply ColumnSet_ok. intros c items' Hc Hi y p Hy.
    simpl in Hwf. rewrite forallb_forall in Hwf.
    specialize (Hwf c Hc). rewrite Hi in Hwf. rewrite forallb_forall in Hwf.
    apply IH; [apply Hwf; exact Hy|].
    cbn [of_element] in Hd.
    assert (Hcol : (S (depth (of_Column of_element c))
                    < depth (obj [("type", Some (VStr "ColumnSet"));
                                  ("columns",
                                   Some (VArr (map (of_Column of_element)
                                                 columns)));
                                  ("spacing", of_enum <$> spacing);
                                  ("separator", VBool <$> separator)]))%nat).
    { apply (depth_items _ "columns" (map (of_Column of_element) columns));
        [reflexivity|]. apply in_map. exact Hc. }
    assert (Hitem : (S (depth (of_element y))
                     < depth (of_Column of_element c))%nat).
    { unfold of_Column.
      apply (depth_items _ "items" (map of_element items'));
        [rewrite Hi; destruct (col_width c); reflexivity|].
      apply in_map. exact Hy. }
    lia.
  - apply (element_dispatch stack
             [TextBlockSchema; ImageSchema; FactSetSchema;
              ColumnSetSchema (CardElementSchema stack)]
             [ActionSetSchema]
             (ContainerSchema (CardElementSchema stack)));
      [reflexivity|unfold of_element, obj; others..|].
    apply Container_ok. intros y p Hy.
    simpl in Hwf. rewrite forallb_forall in Hwf.
    apply IH; [apply Hwf; exact Hy|].
    cbn [of_element] in Hd.
    assert (Hitem : (S (depth (of_element y))
                     < depth (obj [("type", Some (VStr "Container"));
                                   ("items", Some (VArr (map of_element items)));
                                   ("style", of_enum <$> style);
                                   ("spacing", of_enum <$> spacing);
                                   ("separator", VBool <$> separator)]))%nat).
    { apply (depth_items _ "items" (map of_element items));
        [reflexivity|]. apply in_map. exact Hy. }
    lia.
  - apply (element_dispatch stack
             [TextBlockSchema; ImageSchema; FactSetSchema;
              ColumnSetSchema (CardElementSchema stack);
              ContainerSchema (CardElementSchema stack)]
             [] ActionSetSchema);
      [reflexivity|unfold of_element, of_ActionSet, obj; others|constructor|].
    apply ActionSet_ok.
Qed.

End Elements.

Section Cards.
Context `{Platform}.

Lemma version_parses (version : option string) path :
  parses_entry path
    ("version", z_default z_string (VStr "1.4"))
    ("version", VStr <$> version)
    ("version", VStr <$> Some (default "1.4" version)).
Proof.
  split; [reflexivity|]. exists (VStr (default "1.4" version)).
  destruct version; split; reflexivity.
Qed.

Lemma optional_actions_parse (actions : option (list Action)) path :
  z_optional (z_array ActionSchema)
    (val ((fun actions => VArr (map of_Action actions)) <$> actions)) path
  = OK (val ((fun actions => VArr (map of_Action actions)) <$> actions)).
Proof.
  destruct actions as [actions|]; [|reflexivity]. apply actions_parse.
Qed.

(** A well-formed card parses, on a stack as deep as it is nested, as
    itself with the defaults filled in. *)
Lemma card_parses stack c path :
  wf_card c = true ->
  (depth (of_card c) <= stack)%nat ->
  AdaptiveCardSchema stack (of_card c) path = OK (of_card (with_defaults c)).
Proof.
  intros Hwf Hd. unfold wf_card in Hwf.
  apply andb_prop in Hwf as [Hlen Hwf]. apply Nat.leb_le in Hlen.
  rewrite forallb_forall in Hwf.
  assert (Hbody : forall p,
            z_array_max (z_union (options stack)) 50
              (val (Some (VArr (map of_element (card_body c))))) p
            = OK (val (Some (VArr (map of_element (card_body c)))))).
  { intros p. apply array_map_parses; [exact Hlen|].
    intros y p' Hy.
    change (z_union (options stack) (of_element y) p')
      with (CardElementSchema (S stack) (of_element y) p').
    apply element_ok; [apply Hwf; exact Hy|].
    assert (Hitem : (S (depth (of_element y)) < depth (of_card c))%nat).
    { unfold of_card.
      apply (depth_items _ "body" (map of_element (card_body c)));
        [destruct (card_version c); reflexivity|].
      apply in_map. exact Hy. }
    lia. }
  pose proof optional_actions_parse as Hactions.
  unfold AdaptiveCardSchema, of_card, with_defaults. cbn [card_version
    card_body card_actions card_schema].
  fold (options stack).
  apply z_object_literal; [distinct_keys|].
  apply Forall3_cons; [apply parses_same; auto with parses|].
  apply Forall3_cons; [apply version_parses|].
  entries.
Qed.

Lemma card_ok c :
  wf_card c = true ->
  validate (of_card c) = inr (of_card (with_defaults c)).
Proof.
  intros Hwf. unfold validate, safeParse.
  rewrite card_parses; [reflexivity|exact Hwf|lia].
Qed.

End Cards.

Section Requests.
Context `{Platform}.

Lemma optional_card_parses stack (card : option AdaptiveCard) path :
  match card with Some c => wf_card c | None => true end = true ->
  (depth (val (of_card <$> card)) <= stack)%nat ->
  parses_entry path
    ("card", z_optional (AdaptiveCardSchema stack))
    ("card", of_card <$> card)
    ("card", of_card <$> (with_defaults <$> card)).
Proof.
  intros Hwf Hd. split; [reflexivity|].
  destruct card as [c|].
  - exists (of_card (with_defaults c)). split; [|reflexivity].
    change (AdaptiveCardSchema stack (of_card c) (path ++ [Key "card"])
            = OK (of_card (with_defaults c))).
    apply card_parses; [exact Hwf|exact Hd].
  - exists VUndefined. split; reflexivity.
Qed.

(** The object schema under the refinement, on typed arguments. *)
Lemma args_parse stack (a : PostRichMessageArgs) path :
  wf_args a = true ->
  (depth (of_args a) <= stack)%nat ->
  z_object [
    ("text", z_optional z_string);
    ("card", z_optional (AdaptiveCardSchema stack));
    ("thread_id", z_optional z_string)
  ] (of_args a) path = OK (of_args (args_with_defaults a)).
Proof.
  intros Hwf Hd. unfold of_args, args_with_defaults.
  cbn [args_text args_card args_thread_id].
  apply z_object_literal; [distinct_keys|].
  apply Forall3_cons; [apply parses_same; auto with parses|].
  apply Forall3_cons.
  { apply optional_card_parses; [exact Hwf|].
    pose proof (depth_get "card" (fields_of
      [("text", VStr <$> args_text a); ("card", of_card <$> args_card a);
       ("thread_id", VStr <$> args_thread_id a)])) as Hg.
    assert (Heq : get "card" (fields_of
      [("text", VStr <$> args_text a); ("card", of_card <$> args_card a);
       ("thread_id", VStr <$> args_thread_id a)])
      = val (of_card <$> args_card a)).
    { destruct (args_text a), (args_card a), (args_thread_id a);
        reflexivity. }
    rewrite Heq in Hg. unfold of_args, obj in Hd.
    fold (fields_of [("text", VStr <$> args_text a);
                     ("card", of_card <$> args_card a);
                     ("thread_id", VStr <$> args_thread_id a)]) in Hd.
    lia. }
  entries.
Qed.

Lemma field_of_args (a : PostRichMessageArgs) k o :
  In (k, o) [("text", VStr <$> args_text a);
             ("card", of_card <$> args_card a);
             ("thread_id", VStr <$> args_thread_id a)] ->
  field (of_args a) k = val o.
Proof.
  intros Hin. unfold of_args, obj, field.
  fold (fields_of [("text", VStr <$> args_text a);
                   ("card", of_card <$> args_card a);
                   ("thread_id", VStr <$> args_thread_id a)]).
  apply get_entry; [distinct_keys|exact Hin].
Qed.

Lemma refinement_check (a : PostRichMessageArgs) :
  truthy (Js.or (field (of_args a) "text") (field (of_args a) "card"))
  = provided a.
Proof.
  rewrite (field_of_args a "text" (VStr <$> args_text a)) by (simpl; auto).
  rewrite (field_of_args a "card" (of_card <$> args_card a)) by (simpl; auto).
  unfold provided, Js.or.
  destruct (args_text a) as [[|ch s]|], (args_card a) as [c|]; reflexivity.
Qed.

(** The validator on typed arguments: accepted with the defaults filled
    in when there is something to send, rejected by the refinement
    otherwise. *)
Lemma args_validated (a : PostRichMessageArgs) :
  wf_args a = true ->
  validatePostRichMessageArgs (of_args a)
  = if provided a then inr (of_args (args_with_defaults a))
    else inl [Issue (custom "Either text or card must be provided")
                [Key "text"; Key "card"] []].
Proof.
  intros Hwf.
  unfold validatePostRichMessageArgs, safeParse, PostRichMessageRequestSchema,
    z_refine.
  rewrite args_parse; [|exact Hwf|lia].
  rewrite refinement_check.
  assert (Hp : provided (args_with_defaults a) = provided a).
  { unfold provided, args_with_defaults. simpl.
    destruct (args_card a); reflexivity. }
  rewrite Hp. destruct (provided a); reflexivity.
Qed.

End Requests.

End Literals.

(** ** The card validator *)

Module CardValidator.
Import Card Sample SchemaFacts Stack Literals.

(** C7.  Every well-formed card, however its containers, column sets and
    columns nest, validates to itself with the defaults filled in: the
    body is the same elements in the same order, and a missing version
    is ["1.4"]. *)
Theorem validate_round_trip `{Platform} (c : AdaptiveCard) :
  wf_card c = true ->
  exists out,
    validate (of_card c) = inr out
    /\ out = of_card (with_defaults c)
    /\ field out "body" = field (of_card c) "body"
    /\ field out "body" = VArr (map of_element (card_body c))
    /\ field out "version" = VStr (default "1.4" (card_version c)).
Proof.
  intros Hwf. exists (of_card (with_defaults c)).
  split; [apply card_ok; exact Hwf|]. split; [reflexivity|].
  unfold of_card, with_defaults, obj, field.
  destruct (card_version c); repeat split; reflexivity.
Qed.

Lemma validate_round_trip_witness :
  exists out,
    validate (H := sample_platform) (of_card nested_card) = inr out
    /\ field out "version" = VStr "1.4"
    /\ field out "body" = field (of_card nested_card) "body".
Proof.
  destruct (validate_round_trip (H := sample_platform) nested_card)
    as (out & Hv & _ & Hb & _ & Hd); [vm_compute; reflexivity|].
  exists out. split; [exact Hv|]. split; [exact Hd|exact Hb].
Defined.

(** C6.  Validation bounds two arrays: a body of more than 50 elements is
    rejected with [too_big] at [body], and a fact set of more than 10 facts,
    wherever it is nested, with [too_big] at its [facts].  No other array
    is bounded: a card is well-formed, and validates, whatever the lengths
    of the [items] of its containers and columns and of the [columns] of
    its column sets. *)
Theorem array_bounds `{Platform} :
  (forall fields body,
      get "body" fields = VArr body -> (50 < length body)%nat ->
      rejects too_big [Key "body"] (validate (VObj fields)) = true)
  /\ (forall card path node fields facts,
        element_at card path node ->
        node = VObj fields ->
        get "type" fields = VStr "FactSet" ->
        get "facts" fields = VArr facts -> (10 < length facts)%nat ->
        rejects too_big (path ++ [Key "facts"]) (validate card) = true)
  /\ (forall items columns,
        forallb wf_element items = true ->
        wf_element (EColumnSet columns None None) = true ->
        exists v,
          validate
            (of_card {| card_version := None;
                        card_body := [EContainer items None None None;
                                      EColumnSet columns None None];
                        card_actions := None;
                        card_schema := None |})
          = inr v).
Proof.
  split; [|split].
  - intros fields body Hb Hlen. apply body_too_big with body; assumption.
  - intros card path node fields facts Hat -> Ht Hf Hlen.
    apply element_rejected with (VObj fields); [exact Hat|].
    apply factset_too_big with fields facts; auto.
  - intros items columns Hitems Hcolumns. eexists. apply card_ok.
    unfold wf_card. cbn [card_body length forallb].
    cbn [wf_element] in *. rewrite Hitems, Hcolumns. reflexivity.
Qed.

(** A body of 51 text blocks; a fact set of 11 facts inside a container;
    a container of 51 text blocks beside a column set of 51 columns. *)
Lemma array_bounds_witness :
  rejects too_big [Key "body"]
    (validate (H := sample_platform)
       (of_card (card (repeat (text_block "x") 51)))) = true
  /\ rejects too_big
       [Key "body"; Idx 0; Key "items"; Idx 1; Key "facts"]
       (validate (H := sample_platform)
          (of_card (card [container [text_block "x"; fact_set 11]]))) = true
  /\ (exists v,
        validate (H := sample_platform)
          (of_card (card [container (repeat (text_block "x") 51);
                          column_set (repeat (column [text_block "y"]) 51)]))
        = inr v).
Proof.
  destruct (array_bounds (H := sample_platform)) as (Hbody & Hfacts & Hnested).
  split; [|split].
  - eapply Hbody; [reflexivity|]. vm_compute. lia.
  - eapply (Hfacts _ [Key "body"; Idx 0; Key "items"; Idx 1]).
    + unfold of_card, obj. cbn -[of_element].
      eapply (element_of_body _ _ 0); [reflexivity..|].
      cbn. eapply (nested_container _ _ 1); [reflexivity..|].
      apply nested_here.
    + reflexivity.
    + reflexivity.
    + reflexivity.
    + vm_compute. lia.
  - apply Hnested; vm_compute; reflexivity.
Defined.

(** C8.  An image whose [url] does not parse as a URL, wherever it is
    nested, has the card rejected with [invalid_string] at its [url]:
    validation yields no tree. *)
Theorem malformed_url_rejected `{Platform} card path node fields (u : string) :
  element_at card path node ->
  node = VObj fields ->
  get "type" fields = VStr "Image" ->
  get "url" fields = VStr u ->
  URL_canParse u = false ->
  rejects invalid_string (path ++ [Key "url"]) (validate card) = true
  /\ forall v, validate card <> inr v.
Proof.
  intros Hat -> Ht Hu Hbad.
  assert (Hr : rejects invalid_string (path ++ [Key "url"]) (validate card)
               = true).
  { apply element_rejected with (VObj fields); [exact Hat|].
    apply image_bad_url with fields u; auto. }
  split; [exact Hr|].
  intros v Hv. rewrite Hv in Hr. discriminate.
Qed.

Lemma malformed_url_rejected_witness :
  rejects invalid_string
    [Key "body"; Idx 1; Key "columns"; Idx 0; Key "items"; Idx 0; Key "url"]
    (validate (H := sample_platform)
       (of_card (card [text_block "x";
                       column_set [column [image "not a url"]]]))) = true.
Proof.
  eapply proj1.
  eapply (malformed_url_rejected (H := sample_platform) _
            [Key "body"; Idx 1; Key "columns"; Idx 0; Key "items"; Idx 0]
            _ _ "not a url").
  - unfold of_card, obj. cbn -[of_element].
    eapply (element_of_body _ _ 1); [reflexivity..|].
    cbn. eapply (nested_column _ _ 0 _ _ 0); [reflexivity..|].
    apply nested_here.
  - reflexivity.
  - reflexivity.
  - reflexivity.
  - reflexivity.
Defined.

(** C5, as the code has it.  On arguments whose [thread_id] is absent or a
    string: with neither [text] nor [card] validation fails with the
    refinement's issue, whose path is [text], [card]; with a non-empty
    text alone it succeeds; with a well-formed card alone it succeeds. *)
Theorem require_one_of `{Platform} (thread_id : option string) :
  validatePostRichMessageArgs
    (of_args {| args_text := None; args_card := None;
                args_thread_id := thread_id |})
  = neither_text_nor_card
  /\ (forall text,
        text <> "" ->
        let a := {| args_text := Some text; args_card := None;
                    args_thread_id := thread_id |} in
        validatePostRichMessageArgs (of_args a) = inr (of_args a))
  /\ (forall c,
        wf_card c = true ->
        validatePostRichMessageArgs
          (of_args {| args_text := None; args_card := Some c;
                      args_thread_id := thread_id |})
        = inr (of_args {| args_text := None;
                          args_card := Some (with_defaults c);
                          args_thread_id := thread_id |})).
Proof.
  split; [|split].
  - rewrite args_validated by reflexivity. reflexivity.
  - intros text Hne a. rewrite args_validated by reflexivity.
    unfold provided. cbn [args_text a].
    apply String.eqb_neq in Hne. rewrite Hne. reflexivity.
  - intros c Hwf. rewrite args_validated by exact Hwf. reflexivity.
Qed.

Lemma require_one_of_witness :
  validatePostRichMessageArgs (H := sample_platform) (VObj [])
    = neither_text_nor_card
  /\ validatePostRichMessageArgs (H := sample_platform)
       (VObj [("text", VStr "ok")])
     = inr (VObj [("text", VStr "ok")])
  /\ validatePostRichMessageArgs (H := sample_platform)
       (VObj [("card", of_card nested_card)])
     = inr (VObj [("card", of_card (with_defaults nested_card))]).
Proof.
  destruct (require_one_of (H := sample_platform) None) as (Hn & Ht & Hc).
  split; [exact Hn|]. split.
  - apply (Ht "ok"). discriminate.
  - apply (Hc nested_card). vm_compute. reflexivity.
Defined.

(** C5 as stated fails: an empty text alone is rejected. *)
Lemma empty_text_alone_rejected :
  validatePostRichMessageArgs (H := sample_platform) (VObj [("text", VStr "")])
  = neither_text_nor_card.
Proof. vm_compute. reflexivity. Qed.

(** Without both fields, an ill-typed [thread_id] is what the rejection
    names: the refinement does not run on an aborted parse. *)
Lemma numeric_thread_id_rejected :
  validatePostRichMessageArgs (H := sample_platform)
    (VObj [("thread_id", VNum 5)])
  = inl [Issue invalid_type [Key "thread_id"] []].
Proof. vm_compute. reflexivity. Qed.

(** C9.  An empty text counts as no text: alone it is rejected by the
    require-one-of refinement, and with a well-formed card it is
    accepted. *)
Theorem empty_text_is_absent `{Platform} (c : AdaptiveCard) :
  wf_card c = true ->
  validatePostRichMessageArgs (VObj [("text", VStr "")])
  = inl [Issue (custom "Either text or card must be provided")
           [Key "text"; Key "card"] []]
  /\ validatePostRichMessageArgs
       (VObj [("text", VStr ""); ("card", of_card c)])
     = inr (VObj [("text", VStr ""); ("card", of_card (with_defaults c))]).
Proof.
  intros Hwf. split.
  - exact (args_validated {| args_text := Some ""; args_card := None;
                             args_thread_id := None |} eq_refl).
  - exact (args_validated {| args_text := Some ""; args_card := Some c;
                             args_thread_id := None |} Hwf).
Qed.

Lemma empty_text_is_absent_witness :
  validatePostRichMessageArgs (H := sample_platform)
    (VObj [("text", VStr ""); ("card", of_card nested_card)])
  = inr (VObj [("text", VStr "");
               ("card", of_card (with_defaults nested_card))]).
Proof.
  apply (empty_text_is_absent (H := sample_platform) nested_card).
  vm_compute. reflexivity.
Defined.

(** X2.  An element whose [type] is none of the recognized kinds, or a
    text block whose [text] is not a string, has the card rejected, wherever
    the element is nested: with [invalid_union] at the element, and with
    [invalid_type] at the [text]. *)
Theorem malformed_element_rejected `{Platform} card path node fields :
  element_at card path node ->
  node = VObj fields ->
  (forall t,
      get "type" fields = VStr t ->
      ~ In t ["TextBlock"; "Image"; "FactSet"; "ColumnSet"; "Container";
              "ActionSet"] ->
      rejects invalid_union path (validate card) = true)
  /\ (get "type" fields = VStr "TextBlock" ->
      (forall s, get "text" fields <> VStr s) ->
      rejects invalid_type (path ++ [Key "text"]) (validate card) = true).
Proof.
  intros Hat Hnode. split.
  - intros t Ht Hnot. rewrite <- (app_nil_r path).
    apply element_rejected with node; [exact Hat|].
    apply unknown_type with fields t; assumption.
  - intros Ht Htext.
    apply element_rejected with node; [exact Hat|].
    apply text_not_string with fields; assumption.
Qed.

Lemma malformed_element_rejected_witness :
  let bogus := VObj [("type", VStr "Bogus")] in
  let numeric := VObj [("type", VStr "TextBlock"); ("text", VNum 7)] in
  rejects invalid_union [Key "body"; Idx 0]
    (validate (H := sample_platform)
       (VObj [("type", VStr "AdaptiveCard"); ("body", VArr [bogus])])) = true
  /\ rejects invalid_type [Key "body"; Idx 0; Key "text"]
       (validate (H := sample_platform)
          (VObj [("type", VStr "AdaptiveCard"); ("body", VArr [numeric])]))
     = true.
Proof.
  intros bogus numeric. split.
  - destruct (malformed_element_rejected (H := sample_platform)
                (VObj [("type", VStr "AdaptiveCard"); ("body", VArr [bogus])])
                [Key "body"; Idx 0] bogus [("type", VStr "Bogus")])
      as [Hunknown _].
    + eapply (element_of_body _ _ 0); [reflexivity..|]. apply nested_here.
    + reflexivity.
    + apply (Hunknown "Bogus"); [reflexivity|].
      simpl. intuition discriminate.
  - destruct (malformed_element_rejected (H := sample_platform)
                (VObj [("type", VStr "AdaptiveCard"); ("body", VArr [numeric])])
                [Key "body"; Idx 0] numeric
                [("type", VStr "TextBlock"); ("text", VNum 7)])
      as [_ Htext].
    + eapply (element_of_body _ _ 0); [reflexivity..|]. apply nested_here.
    + reflexivity.
    + apply Htext; [reflexivity|]. intros s. discriminate.
Defined.

(** X3.  The validated card holds no property the schema does not
    declare: what the input has beyond them is dropped. *)
Theorem unknown_keys_stripped `{Platform} (input out : Value) :
  validate input = inr out ->
  exists fields,
    out = VObj fields
    /\ forall k, has k fields = true ->
         In k ["type"; "version"; "body"; "actions"; "$schema"].
Proof.
  unfold validate, safeParse. intros Hv.
  destruct (AdaptiveCardSchema (depth input) input []) as [v| |] eqn:Hp;
    try discriminate.
  injection Hv as ->.
  exact (ZodFacts.z_object_keys _ _ _ _ Hp).
Qed.

Lemma unknown_keys_stripped_witness :
  validate (H := sample_platform)
    (VObj [("type", VStr "AdaptiveCard");
           ("body", VArr [VObj [("type", VStr "TextBlock");
                                ("text", VStr "hi");
                                ("id", VStr "greeting")]]);
           ("msteams", VObj [("width", VStr "Full")])])
  = inr (VObj [("type", VStr "AdaptiveCard"); ("version", VStr "1.4");
               ("body", VArr [VObj [("type", VStr "TextBlock");
                                    ("text", VStr "hi")]])])
  /\ exists fields,
       VObj [("type", VStr "AdaptiveCard"); ("version", VStr "1.4");
             ("body", VArr [VObj [("type", VStr "TextBlock");
                                  ("text", VStr "hi")]])] = VObj fields
       /\ forall k, has k fields = true ->
            In k ["type"; "version"; "body"; "actions"; "$schema"].
Proof.
  assert (Hv : validate (H := sample_platform)
    (VObj [("type", VStr "AdaptiveCard");
           ("body", VArr [VObj [("type", VStr "TextBlock");
                                ("text", VStr "hi");
                                ("id", VStr "greeting")]]);
           ("msteams", VObj [("width", VStr "Full")])])
  = inr (VObj [("type", VStr "AdaptiveCard"); ("version", VStr "1.4");
               ("body", VArr [VObj [("type", VStr "TextBlock");
                                    ("text", VStr "hi")]])]))
    by (vm_compute; reflexivity).
  split; [exact Hv|].
  exact (unknown_keys_stripped (H := sample_platform) _ _ Hv).
Defined.

End CardValidator.
(** ** Tool calls *)

Module Calls.
Import Index Sample Threads.

Section WithServer.
Context `{Platform} `{Runtime} (host : Host).

(** Parsing keeps the [thread_id] of the arguments. *)
Lemma message_thread_id (arguments args : Value) :
  safeParse PostMessageRequestSchema arguments = inr args ->
  field args "thread_id" = field arguments "thread_id".
Proof.
  destruct arguments as [| | | | | |fields]; try discriminate.
  unfold safeParse, PostMessageRequestSchema, z_object, mergeObject.
  simpl.
  destruct (get "text" fields), (get "thread_id" fields),
    (has "text" fields), (has "thread_id" fields); simpl;
    intros Heq; try discriminate; injection Heq as <-; reflexivity.
Qed.

Lemma refined_thread_id (cardSchema : Schema) (check : Value -> bool)
    (message : string) (rpath : list string) (arguments args : Value) :
  safeParse
    (z_refine
       (z_object [("text", z_optional z_string);
                  ("card", cardSchema);
                  ("thread_id", z_optional z_string)])
       check message rpath) arguments = inr args ->
  field args "thread_id" = field arguments "thread_id".
Proof.
  destruct arguments as [| | | | | |fields]; try discriminate.
  unfold safeParse, z_refine, z_object, mergeObject. simpl.
  destruct (cardSchema (get "card" fields) [Key "card"]) as [v|v errs|errs];
    simpl;
    destruct (get "text" fields), (get "thread_id" fields),
      (has "text" fields), (has "card" fields), (has "thread_id" fields);
    simpl;
    try discriminate;
    match goal with
    | |- context [check ?x] => destruct (check x)
    end;
    intros Heq; try discriminate; injection Heq as <-;
    destruct (is_undefined v); reflexivity.
Qed.

Lemma rich_thread_id (stack : nat) (arguments args : Value) :
  safeParse (PostRichMessageRequestSchema stack) arguments = inr args ->
  field args "thread_id" = field arguments "thread_id".
Proof. apply refined_thread_id. Qed.

Lemma parse_inr (schema : nat -> Schema) (data args : Value) (w w' : World) :
  parse schema data w = (inr args, w') ->
  safeParse (schema (depth data)) data = inr args /\ w' = w.
Proof.
  unfold parse. destruct (safeParse _ data); unfold ret, throw;
    intros Heq; [discriminate|].
  injection Heq as <- <-. auto.
Qed.

Lemma getEnvConfig_inr (config : EnvConfig) (w w' : World) :
  getEnvConfig host w = (inr config, w') ->
  w' = w
  /\ serviceUrl config = default "" (env host !! "TEAMS_SERVICE_URL")
  /\ conversationId config = default "" (env host !! "TEAMS_CONVERSATION_ID")
  /\ threadId config = env host !! "TEAMS_THREAD_ID".
Proof.
  unfold getEnvConfig, process_env.
  destruct (absent (env host !! "TEAMS_SERVICE_URL")); [discriminate|].
  destruct (absent (env host !! "TEAMS_CONVERSATION_ID")); [discriminate|].
  unfold ret. intros Heq. injection Heq as <- <-. auto.
Qed.

(** What a successful send reports, and where it went. *)
Lemma reported (argsThreadId configThreadId : option string)
    (messageType : MessageType) (service conversation : string)
    (activity : list (string * Value)) (w w' : World) (text : string) :
  (let '(replyToId, actionType) :=
     resolveThreadContext argsThreadId configThreadId messageType in
   bind (sendActivity host service conversation activity replyToId)
     (fun result =>
        bind (of_option (prop result "id")
                (TypeError "Cannot read properties of null (reading 'id')"))
          (fun id =>
             ret (actionType +:+ " successfully (id: "
                  +:+ to_string id +:+ ")")))) w
  = (inr text, w') ->
  let target := if absent argsThreadId then configThreadId else argsThreadId in
  exists earlier req,
    requests w' = earlier ++ [req]
    /\ url req = target_url service conversation target
    /\ String.prefix "Reply sent to thread" text = negb (absent target).
Proof.
  pose proof (resolve_spec argsThreadId configThreadId messageType)
    as (Hfst & Hsnd & Heqb).
  destruct (resolveThreadContext argsThreadId configThreadId messageType)
    as [replyToId actionType].
  simpl in Hfst, Hsnd, Heqb. intros Hrun target.
  apply bind_inr in Hrun as (result & w1 & Hsend & Hrun).
  apply bind_inr in Hrun as (id & w2 & Hid & Hret).
  apply of_option_inr in Hid as [_ ->].
  unfold ret in Hret. injection Hret as <- <-.
  apply sendActivity_inr in Hsend as (earlier & req & Hreq & Hurl).
  exists earlier, req. split; [exact Hreq|].
  split; [rewrite Hurl, Hfst; reflexivity|].
  rewrite report_prefix by exact Hsnd. exact Heqb.
Qed.

End WithServer.
(** C10.  A post-message or post-rich-message call that goes through has
    sent its activity last, to the reply URL of the reply target when
    that is a non-empty identifier and to the conversation's activities
    URL otherwise; and its report starts with [Reply sent to thread]
    exactly in the first case. *)
Theorem thread_reply_resolution `{Platform} `{Runtime} (host : Host)
    (name : string) (arguments : Value) (w w' : World) (text : string) :
  name = "teams_post_message" \/ name = "teams_post_rich_message" ->
  callTool host (Some (name, arguments)) w = (inr text, w') ->
  let service := default "" (env host !! "TEAMS_SERVICE_URL") in
  let conversation := default "" (env host !! "TEAMS_CONVERSATION_ID") in
  let target := reply_target host arguments in
  exists earlier req,
    requests w' = earlier ++ [req]
    /\ url req
       = (if absent target then activities_url service conversation
          else reply_url service conversation (default "" target))
    /\ String.prefix "Reply sent to thread" text = negb (absent target)
    /\ reply_url service conversation (default "" target)
       <> activities_url service conversation.
Proof.
  intros Hname Hcall service conversation target.
  assert (Hgoal : exists earlier req,
             requests w' = earlier ++ [req]
             /\ url req = target_url service conversation target
             /\ String.prefix "Reply sent to thread" text
                = negb (absent target)).
  { unfold callTool, try_catch in Hcall.
    match type of Hcall with
    | (match ?m w with _ => _ end) = _ =>
        destruct (m w) as [[e|text'] w1] eqn:Hrun
    end.
    { unfold bind, console_error, throw in Hcall. discriminate. }
    injection Hcall as -> ->.
    apply bind_inr in Hrun as (config & w1 & Hconfig & Hrun).
    apply getEnvConfig_inr in Hconfig as (-> & Hs & Hc & Ht).
    destruct Hname as [-> | ->].
    - cbn [String.eqb Ascii.eqb Bool.eqb] in Hrun.
      apply bind_inr in Hrun as (args & w2 & Hparse & Hrun).
      apply parse_inr in Hparse as [Hparse ->].
      apply message_thread_id in Hparse.
      rewrite Hparse, Hs, Hc, Ht in Hrun.
      apply reported in Hrun. exact Hrun.
    - cbn [String.eqb Ascii.eqb Bool.eqb] in Hrun.
      apply bind_inr in Hrun as (args & w2 & Hparse & Hrun).
      apply parse_inr in Hparse as [Hparse ->].
      apply rich_thread_id in Hparse.
      rewrite Hparse, Hs, Hc, Ht in Hrun.
      apply reported in Hrun. exact Hrun. }
  destruct Hgoal as (earlier & req & Hreq & Hurl & Hrep).
  exists earlier, req. split; [exact Hreq|]. split; [|split].
  - rewrite Hurl. unfold target_url, absent.
    destruct target as [id|]; [|reflexivity].
    simpl. destruct (String.eqb id ""); reflexivity.
  - exact Hrep.
  - apply reply_url_differs.
Qed.

(** A reply to the thread given in the arguments, a reply to the
    configured thread, and a new message when neither is given. *)
Lemma thread_reply_resolution_witness :
  let call := fun env arguments =>
    callTool (H := sample_platform) (H0 := sample_runtime)
      (serving env 200 token_body)
      (Some ("teams_post_message", VObj arguments)) (world None 0) in
  (exists earlier req,
      requests (snd (call conversation
                       [("text", VStr "hi"); ("thread_id", VStr "42")]))
        = earlier ++ [req]
      /\ url req
         = "https://smba.example.net/teams/v3/conversations/19:general/activities/42")
  /\ (exists earlier req,
        requests (snd (call conversation [("text", VStr "hi")]))
          = earlier ++ [req]
        /\ url req
           = "https://smba.example.net/teams/v3/conversations/19:general/activities/1700000000000")
  /\ (exists earlier req,
        requests (snd (call (delete "TEAMS_THREAD_ID" conversation)
                         [("text", VStr "hi"); ("thread_id", VStr "")]))
          = earlier ++ [req]
        /\ url req
           = "https://smba.example.net/teams/v3/conversations/19:general/activities").
Proof.
  intros call. split; [|split].
  - destruct (thread_reply_resolution (H := sample_platform)
                (H0 := sample_runtime)
                (serving conversation 200 token_body) "teams_post_message"
                (VObj [("text", VStr "hi"); ("thread_id", VStr "42")])
                (world None 0)
                (snd (call conversation
                        [("text", VStr "hi"); ("thread_id", VStr "42")]))
                "Reply sent to thread successfully (id: 1700000000001)")
      as (earlier & req & Hreq & Hurl & _).
    + left. reflexivity.
    + vm_compute. reflexivity.
    + exists earlier, req. split; [exact Hreq|exact Hurl].
  - destruct (thread_reply_resolution (H := sample_platform)
                (H0 := sample_runtime)
                (serving conversation 200 token_body) "teams_post_message"
                (VObj [("text", VStr "hi")])
                (world None 0)
                (snd (call conversation [("text", VStr "hi")]))
                "Reply sent to thread successfully (id: 1700000000001)")
      as (earlier & req & Hreq & Hurl & _).
    + left. reflexivity.
    + vm_compute. reflexivity.
    + exists earlier, req. split; [exact Hreq|exact Hurl].
  - destruct (thread_reply_resolution (H := sample_platform)
                (H0 := sample_runtime)
                (serving (delete "TEAMS_THREAD_ID" conversation) 200 token_body)
                "teams_post_message"
                (VObj [("text", VStr "hi"); ("thread_id", VStr "")])
                (world None 0)
                (snd (call (delete "TEAMS_THREAD_ID" conversation)
                        [("text", VStr "hi"); ("thread_id", VStr "")]))
                "Message posted successfully (id: 1700000000001)")
      as (earlier & req & Hreq & Hurl & _).
    + left. reflexivity.
    + vm_compute. reflexivity.
    + exists earlier, req. split; [exact Hreq|exact Hurl].
Defined.

End Calls.

(** ** Token calls, beyond the cache policy *)

Module TokenCalls.
Import Index Sample TokenBroker.
Local Open Scope Z_scope.

Section Lemmas.
Context `{Runtime} (host : Host).

(** The three ways a call goes: the cache serves it, the credentials are
    missing, or the exchange is made. *)
Lemma token_cases (w : World) :
  (exists c, tokenCache w = Some c /\ clock w + 5 * 60 * 1000 < expiresAt c
             /\ getBotConnectorToken host w = (inr (token c), w))
  \/ (stale w /\ credentials_set host = false
      /\ getBotConnectorToken host w
         = (inl (Error "TEAMS_BOT_APP_ID and TEAMS_BOT_APP_PASSWORD must be set"),
            w))
  \/ (stale w /\ credentials_set host = true
      /\ ((exists e lines,
             getBotConnectorToken host w
             = (inl e, after w (exchange_request host) lines))
          \/ (exists r data t n,
                network host (exchange_request host) = inr r
                /\ JSON_parse (text r) = Some data
                /\ prop data "expires_in" = Some (VNum n)
                /\ getBotConnectorToken host w
                   = (inr t,
                      with_cache (after w (exchange_request host) [])
                        {| token := t; expiresAt := clock w + n * 1000 |})))).
Proof.
  assert (Hcase : (exists c, tokenCache w = Some c
                             /\ clock w + 5 * 60 * 1000 < expiresAt c)
                  \/ stale w).
  { destruct (tokenCache w) as [c|] eqn:Hc.
    - destruct (Z.ltb_spec (clock w + 5 * 60 * 1000) (expiresAt c)) as [Hlt|Hge].
      + left. exists c. auto.
      + right. intros c' Hc'. unfold stale in *. congruence.
    - right. intros c' Hc'. congruence. }
  destruct Hcase as [(c & Hc & Hlt) | Hs].
  - left. exists c. split; [exact Hc|]. split; [exact Hlt|].
    apply cache_hit; assumption.
  - right. destruct (credentials_set host) eqn:Hcred.
    + right. split; [exact Hs|]. split; [reflexivity|].
      destruct (miss_outcome host w Hs Hcred) as (e & lines & [Hf | Hok]).
      * left. eauto.
      * right. destruct Hok as (r & data & t & n & Hn & Ho & Hj & Hp & Ht & He & Hr).
        exists r, data, t, n. repeat split; try assumption.
        exact (miss_success host w r Hs Hcred Hn data t n Ho Hj Hp Ht He).
    + left. split; [exact Hs|]. split; [reflexivity|].
      apply miss_no_credentials; assumption.
Qed.

End Lemmas.

(** X4.  What a token call leaves alone.  Whatever the cache, the
    environment and the network, the call does not move the clock, keeps
    the requests and the console lines made so far, makes at most one
    request, the token exchange, and leaves the cache as it was unless it
    returns a token; a token it returns is the token the cache then
    holds. *)
Theorem token_call_frame `{Runtime} (host : Host) (w : World) :
  exists res w',
    getBotConnectorToken host w = (res, w')
    /\ clock w' = clock w
    /\ (requests w' = requests w
        \/ requests w' = requests w ++ [exchange_request host])
    /\ (exists lines, console w' = console w ++ lines)
    /\ match res with
       | inl _ => tokenCache w' = tokenCache w
       | inr t => exists c, tokenCache w' = Some c /\ token c = t
       end.
Proof.
  destruct (token_cases host w)
    as [(c & Hc & Hlt & Hr) | [(Hs & Hcred & Hr) | (Hs & Hcred & [Hr | Hr])]].
  - eexists _, _. split; [exact Hr|]. split; [reflexivity|].
    split; [left; reflexivity|]. split; [exists []; rewrite app_nil_r; reflexivity|].
    exists c. auto.
  - eexists _, _. split; [exact Hr|]. split; [reflexivity|].
    split; [left; reflexivity|]. split; [exists []; rewrite app_nil_r; reflexivity|].
    reflexivity.
  - destruct Hr as (e & lines & Hr).
    eexists _, _. split; [exact Hr|]. split; [reflexivity|].
    split; [right; reflexivity|]. split; [exists lines; reflexivity|].
    reflexivity.
  - destruct Hr as (r & data & t & n & _ & _ & _ & Hr).
    eexists _, _. split; [exact Hr|]. split; [reflexivity|].
    split; [right; reflexivity|]. split; [exists []; reflexivity|].
    eexists. split; reflexivity.
Qed.

(** X5.  How long a token is reused.  A token obtained by an exchange at
    time [clock w] with lifetime [expires_in = n] is served from the
    cache, without a request, at every time [now] more than five minutes
    short of [clock w + n * 1000]; from then on the cache counts as
    stale and the next call exchanges again.  A token that lives five
    minutes or less is therefore never reused. *)
Theorem token_lifetime `{Runtime} (host : Host) (w w' : World) (t : Value) :
  stale w ->
  getBotConnectorToken host w = (inr t, w') ->
  exists r data n,
    network host (exchange_request host) = inr r
    /\ JSON_parse (text r) = Some data
    /\ prop data "expires_in" = Some (VNum n)
    /\ forall now,
         (now + 5 * 60 * 1000 < clock w + n * 1000 ->
          getBotConnectorToken host (at_clock w' now)
          = (inr t, at_clock w' now))
         /\ (clock w + n * 1000 <= now + 5 * 60 * 1000 ->
             stale (at_clock w' now)).
Proof.
  intros Hs Hrun.
  destruct (token_cases host w)
    as [(c & Hc & Hlt & Hr) | [(_ & _ & Hr) | (_ & _ & [Hr | Hr])]].
  - specialize (Hs c Hc). lia.
  - rewrite Hr in Hrun. discriminate.
  - destruct Hr as (e & lines & Hr). rewrite Hr in Hrun. discriminate.
  - destruct Hr as (r & data & t' & n & Hn & Hj & He & Hr).
    rewrite Hr in Hrun. injection Hrun as -> <-.
    exists r, data, n. split; [exact Hn|]. split; [exact Hj|].
    split; [exact He|]. intros now. split.
    + intros Hnow.
      apply (cache_hit host _ {| token := t; expiresAt := clock w + n * 1000 |});
        [reflexivity|exact Hnow].
    + intros Hnow c Hc. simpl in Hc. injection Hc as <-. simpl. exact Hnow.
Qed.

Lemma token_lifetime_witness :
  let host := serving credentials 200 token_body in
  let w' := with_cache (after (world None 0)
                          (exchange_request (H := sample_runtime) host) [])
              {| token := VStr "abc"; expiresAt := 3600000 |} in
  getBotConnectorToken (H := sample_runtime) host (at_clock w' (minutes 54))
    = (inr (VStr "abc"), at_clock w' (minutes 54))
  /\ stale (at_clock w' (minutes 55)).
Proof.
  intros host w'.
  destruct (token_lifetime (H := sample_runtime) host (world None 0) w'
              (VStr "abc")) as (r & data & n & Hn & Hj & He & Hnow).
  - intros c Hc. discriminate.
  - vm_compute. reflexivity.
  - vm_compute in Hn. injection Hn as <-.
    vm_compute in Hj. injection Hj as <-.
    vm_compute in He. injection He as <-.
    split.
    + apply (Hnow (minutes 54)). vm_compute. reflexivity.
    + apply (Hnow (minutes 55)). vm_compute. discriminate.
Defined.

(** X6.  A successful token response whose body parses to JSON that is
    not an object.  The body [null] makes the read of [access_token]
    throw a [TypeError] instead of the invalid-response error; a boolean,
    a number, a string or an array has no [access_token] and fails with
    the invalid-response error.  The exchange is the only request, nothing
    is written to the console and the cache is left alone. *)
Theorem token_body_not_an_object `{Runtime} (host : Host) (w : World)
    (r : Response) (data : Value) :
  stale w -> credentials_set host = true ->
  network host (exchange_request host) = inr r ->
  ok r = true -> JSON_parse (text r) = Some data ->
  (forall fields, data <> VObj fields) -> data <> VUndefined ->
  getBotConnectorToken host w
  = (inl (match data with
          | VNull =>
              TypeError "Cannot read properties of null (reading 'access_token')"
          | _ =>
              Error "Invalid token response: missing access_token or expires_in"
          end),
     after w (exchange_request host) []).
Proof.
  intros Hs Hc Hn Hok Hj Hobj Hdef.
  destruct data as [| |b|n|s|xs|fields];
    try (eapply miss_null; eauto; reflexivity);
    try (eapply (miss_no_token host w r Hs Hc Hn _ VUndefined); eauto; reflexivity).
  - destruct (Hdef eq_refl).
  - destruct (Hobj fields eq_refl).
Qed.

Lemma token_body_not_an_object_witness :
  fst (getBotConnectorToken (H := sample_runtime)
         (serving credentials 200 "null") (world None 0))
  = inl (TypeError "Cannot read properties of null (reading 'access_token')").
Proof.
  rewrite (token_body_not_an_object (H := sample_runtime)
             (serving credentials 200 "null") (world None 0)
             {| status := 200; text := "null" |} VNull).
  - reflexivity.
  - intros c Hc. discriminate.
  - reflexivity.
  - reflexivity.
  - reflexivity.
  - reflexivity.
  - intros fields. discriminate.
  - discriminate.
Defined.

End TokenCalls.
(** ** Sending an activity *)

Module Activities.
Import Index Sample.
Local Open Scope m_scope.

Lemma strip_slash (s : string) : strip_trailing_slash (s +:+ "/") = s.
Proof.
  induction s as [|c s IH]; [reflexivity|].
  simpl. rewrite IH. destruct s; reflexivity.
Qed.

Lemma strip_none (s : string) :
  (forall s', s <> s' +:+ "/") -> strip_trailing_slash s = s.
Proof.
  induction s as [|c s IH]; intros Hno; [reflexivity|].
  simpl. destruct s as [|c' s].
  - destruct (Ascii.eqb_spec c "/") as [->|Hne]; [|reflexivity].
    destruct (Hno "" eq_refl).
  - f_equal. apply IH. intros s' Heq. apply (Hno (String c s')).
    simpl. rewrite Heq. reflexivity.
Qed.

Section WithHost.
Context `{Runtime} (host : Host).

(** What [sendActivity] does once the token is there. *)
Lemma sendActivity_with_token (serviceUrl conversationId : string)
    (activity : list (string * Value)) (replyToId : option string)
    (w w1 : World) (t : Value) :
  getBotConnectorToken host w = (inr t, w1) ->
  sendActivity host serviceUrl conversationId activity replyToId w
  = let req :=
      activity_request serviceUrl conversationId activity replyToId t in
    match network host req with
    | inl e => (inl e, after w1 req [])
    | inr response =>
        if ok response then
          match JSON_parse (text response) with
          | Some result => (inr result, after w1 req [])
          | None =>
              (inl (Error "Failed to parse send activity response as JSON"),
               after w1 req [])
          end
        else
          (inl (Error ("Failed to send activity: "
                       +:+ show_Z (status response) +:+ " - "
                       +:+ text response)),
           after w1 req [["[TeamsMCP] Send activity failed:"; text response]])
    end.
Proof.
  intros Ht. unfold sendActivity, bind at 1. rewrite Ht.
  assert (Hurl :
    (if negb (absent replyToId)
     then strip_trailing_slash serviceUrl +:+ "/v3/conversations/"
          +:+ encodeURIComponent conversationId +:+ "/activities/"
          +:+ encodeURIComponent (default "" replyToId)
     else strip_trailing_slash serviceUrl +:+ "/v3/conversations/"
          +:+ encodeURIComponent conversationId +:+ "/activities")
    = target_url serviceUrl conversationId replyToId).
  { unfold target_url, reply_url, activities_url, absent.
    destruct replyToId as [id|]; simpl; [|reflexivity].
    destruct (String.eqb id ""); reflexivity. }
  cbv zeta. rewrite Hurl. fold (activity_request serviceUrl conversationId
                                  activity replyToId t).
  unfold bind, fetch.
  destruct (network host _) as [e|response].
  - unfold after. rewrite app_nil_r. reflexivity.
  - destruct (ok response); simpl.
    + unfold try_catch, json, of_option.
      destruct (JSON_parse (text response)); simpl;
        unfold after; rewrite app_nil_r; reflexivity.
    + reflexivity.
Qed.

End WithHost.



(** X8.  One trailing slash of the service URL makes no difference: with
    it and without it [sendActivity] is the same computation. *)
Theorem service_url_trailing_slash `{Runtime} (host : Host)
    (serviceUrl conversationId : string) (activity : list (string * Value))
    (replyToId : option string) :
  (forall s, serviceUrl <> s +:+ "/") ->
  sendActivity host (serviceUrl +:+ "/") conversationId activity replyToId
  = sendActivity host serviceUrl conversationId activity replyToId.
Proof.
  intros Hno. unfold sendActivity.
  rewrite strip_slash, (strip_none serviceUrl Hno). reflexivity.
Qed.

Lemma service_url_trailing_slash_witness :
  sendActivity (H := sample_runtime) (serving conversation 200 token_body)
    "https://smba.example.net/teams/" "19:general" [("text", VStr "hi")] None
  = sendActivity (H := sample_runtime) (serving conversation 200 token_body)
      "https://smba.example.net/teams" "19:general" [("text", VStr "hi")] None.
Proof.
  apply (service_url_trailing_slash (H := sample_runtime)
           (serving conversation 200 token_body)
           "https://smba.example.net/teams").
  intros s Heq.
  pose proof (f_equal strip_trailing_slash Heq) as Hs.
  rewrite strip_slash in Hs. vm_compute in Hs. subst s.
  vm_compute in Heq. discriminate.
Defined.

End Activities.
(** ** The call handler, step by step *)

Module Handler.
Import Index Sample.
Local Open Scope m_scope.

Section WithServer.
Context `{Platform} `{Runtime} (host : Host).

Lemma call_not_configured (name : string) (arguments : Value) (w : World) :
  configured host = false ->
  callTool host (Some (name, arguments)) w
  = refusal w (if absent (env host !! "TEAMS_SERVICE_URL")
               then "TEAMS_SERVICE_URL is not set"
               else "TEAMS_CONVERSATION_ID is not set").
Proof.
  unfold configured, callTool, try_catch, bind, getEnvConfig, process_env.
  destruct (absent (env host !! "TEAMS_SERVICE_URL")); [reflexivity|].
  destruct (absent (env host !! "TEAMS_CONVERSATION_ID")); [reflexivity|].
  discriminate.
Qed.

Lemma getEnvConfig_configured (w : World) :
  configured host = true ->
  getEnvConfig host w
  = (inr {| serviceUrl := default "" (env host !! "TEAMS_SERVICE_URL");
            conversationId := default "" (env host !! "TEAMS_CONVERSATION_ID");
            threadId := env host !! "TEAMS_THREAD_ID" |}, w).
Proof.
  unfold configured, getEnvConfig, process_env.
  destruct (absent (env host !! "TEAMS_SERVICE_URL")); [discriminate|].
  destruct (absent (env host !! "TEAMS_CONVERSATION_ID")); [discriminate|].
  reflexivity.
Qed.

Lemma answer_bind (actionType : string) (send : M Value) (w : World) :
  try_catch
    (fun w0 =>
       bind send (fun result =>
         bind (of_option (prop result "id")
                 (TypeError "Cannot read properties of null (reading 'id')"))
           (fun id =>
              ret (actionType +:+ " successfully (id: "
                   +:+ to_string id +:+ ")"))) w0)
    (fun error =>
       bind (console_error ["[TeamsMCP] Error handling request:";
                            message_of error])
         (fun _ => throw (Error (message_of error)))) w
  = answer actionType (send w).
Proof.
  unfold try_catch, bind, answer.
  destruct (send w) as [[e|result] w1]; [reflexivity|].
  destruct (prop result "id"); reflexivity.
Qed.

Lemma call_post_message (arguments : Value) (w : World) :
  configured host = true ->
  callTool host (Some ("teams_post_message", arguments)) w
  = match validatePostMessageArgs arguments with
    | inl issues => refusal w (ZodError_message issues)
    | inr args =>
        let target :=
          or_else (optional_string (field args "thread_id"))
            (env host !! "TEAMS_THREAD_ID") in
        answer
          (if negb (absent target) then "Reply sent to thread"
           else "Message posted")
          (sendActivity host
             (default "" (env host !! "TEAMS_SERVICE_URL"))
             (default "" (env host !! "TEAMS_CONVERSATION_ID"))
             [("text", field args "text"); ("textFormat", VStr "markdown")]
             target w)
    end.
Proof.
  intros Hc. unfold callTool.
  cbn [String.eqb Ascii.eqb Bool.eqb].
  unfold try_catch at 1, bind at 1. rewrite (getEnvConfig_configured w Hc).
  unfold bind at 1, parse, validatePostMessageArgs.
  destruct (safeParse PostMessageRequestSchema arguments) as [issues|args];
    [reflexivity|].
  unfold ret at 1. cbv beta iota. unfold resolveThreadContext.
  cbn [serviceUrl conversationId threadId].
  rewrite <- answer_bind. reflexivity.
Qed.

Lemma call_post_rich_message (arguments : Value) (w : World) :
  configured host = true ->
  callTool host (Some ("teams_post_rich_message", arguments)) w
  = match validatePostRichMessageArgs arguments with
    | inl issues => refusal w (ZodError_message issues)
    | inr args =>
        let target :=
          or_else (optional_string (field args "thread_id"))
            (env host !! "TEAMS_THREAD_ID") in
        answer
          (if negb (absent target) then "Reply sent to thread"
           else "Rich message posted")
          (sendActivity host
             (default "" (env host !! "TEAMS_SERVICE_URL"))
             (default "" (env host !! "TEAMS_CONVERSATION_ID"))
             (rich_activity args) target w)
    end.
Proof.
  intros Hc. unfold callTool.
  cbn [String.eqb Ascii.eqb Bool.eqb].
  unfold try_catch at 1, bind at 1. rewrite (getEnvConfig_configured w Hc).
  unfold bind at 1, parse, validatePostRichMessageArgs.
  destruct (safeParse (PostRichMessageRequestSchema (depth arguments)) arguments)
    as [issues|args]; [reflexivity|].
  unfold ret at 1. cbv beta iota. unfold resolveThreadContext.
  cbn [serviceUrl conversationId threadId].
  rewrite <- answer_bind. reflexivity.
Qed.

Lemma call_unknown (name : string) (arguments : Value) (w : World) :
  configured host = true ->
  name <> "teams_post_message" -> name <> "teams_post_rich_message" ->
  callTool host (Some (name, arguments)) w
  = refusal w ("Unknown tool: " +:+ name).
Proof.
  intros Hc H1 H2. unfold callTool.
  apply String.eqb_neq in H1, H2.
  unfold try_catch at 1, bind at 1. rewrite (getEnvConfig_configured w Hc).
  rewrite H1, H2. reflexivity.
Qed.

End WithServer.




End Handler.
(** ** Validating what validation returned *)

Module Replay.
Import ZodFacts SchemaFacts Stack Literals Card.

Lemma verbatim_stable s : verbatim s -> stable s.
Proof.
  intros He x p v Hs p'. destruct (He x p v Hs) as [-> Hp]. apply Hp.
Qed.

Section Leaves.
Context `{Platform}.

Lemma string_verbatim : verbatim z_string.
Proof.
  intros x p v. destruct x; try discriminate.
  intros Heq. injection Heq as <-. split; [reflexivity|]. reflexivity.
Qed.

Lemma url_verbatim : verbatim z_string_url.
Proof.
  intros x p v. destruct x as [| | | |s| |]; try discriminate.
  unfold z_string_url, ZodString. simpl.
  destruct (URL_canParse s); [|discriminate].
  simpl. intros Heq. injection Heq as <-. split; [reflexivity|]. reflexivity.
Qed.

Lemma number_verbatim : verbatim z_number.
Proof.
  intros x p v. destruct x; try discriminate.
  intros Heq. injection Heq as <-. split; reflexivity.
Qed.

Lemma boolean_verbatim : verbatim z_boolean.
Proof.
  intros x p v. destruct x; try discriminate.
  intros Heq. injection Heq as <-. split; reflexivity.
Qed.

Lemma unknown_verbatim : verbatim z_unknown.
Proof. intros x p v Heq. injection Heq as <-. split; reflexivity. Qed.

Lemma literal_verbatim lit : verbatim (z_literal lit).
Proof.
  intros x p v. destruct x as [| | | |s| |]; try discriminate.
  simpl. destruct (String.eqb s lit); [|discriminate].
  intros Heq. injection Heq as <-. split; reflexivity.
Qed.

Lemma enum_verbatim values : verbatim (z_enum values).
Proof.
  intros x p v. destruct x as [| | | |s| |]; try discriminate.
  simpl. destruct (existsb (String.eqb s) values); [|discriminate].
  intros Heq. injection Heq as <-. split; reflexivity.
Qed.

Lemma width_verbatim : verbatim (z_union [z_string; z_number]).
Proof.
  intros x p v. destruct x; try discriminate;
    intros Heq; injection Heq as <-; split; reflexivity.
Qed.

Lemma version_stable : stable (z_default z_string (VStr "1.4")).
Proof.
  intros x p v. destruct x; try discriminate;
    intros Heq; injection Heq as <-; reflexivity.
Qed.

End Leaves.

Lemma optional_stable s : stable s -> stable (z_optional s).
Proof.
  intros Hs x p v Hx p'.
  destruct v; try reflexivity;
    (destruct x; [discriminate|apply (Hs _ _ _ Hx)..]).
Qed.

(** Arrays. *)
Lemma mergeArray_OK dirty own results v :
  mergeArray dirty own results = OK v ->
  dirty = false
  /\ v = VArr (map value_of results)
  /\ Forall (fun r => r = OK (value_of r)) results.
Proof.
  unfold mergeArray.
  destruct (existsb is_aborted results) eqn:Ha; [discriminate|].
  destruct dirty; [discriminate|]. simpl.
  destruct (existsb is_dirty results) eqn:Hd; [discriminate|].
  intros Heq. injection Heq as <-. split; [reflexivity|]. split; [reflexivity|].
  induction results as [|r results IH]; constructor.
  - destruct r; simpl in *; try discriminate. reflexivity.
  - simpl in Ha, Hd. apply orb_false_elim in Ha as [_ Ha].
    apply orb_false_elim in Hd as [_ Hd]. apply IH; assumption.
Qed.

Lemma array_stable element maxLength :
  stable element -> stable (ZodArray element maxLength).
Proof.
  intros Hel x p v Hx p'.
  destruct x as [| | | | |xs|]; try discriminate.
  unfold ZodArray in Hx.
  apply mergeArray_OK in Hx as (Hbig & -> & Hall).
  set (results := imap (fun i x => element x (p ++ [Idx i])) xs) in *.
  assert (Hlen : length (map value_of results) = length xs).
  { unfold results. rewrite length_map, length_imap. reflexivity. }
  apply array_parses.
  - destruct maxLength as [m|]; [|exact I].
    rewrite Hlen. apply Nat.ltb_ge. exact Hbig.
  - intros i y Hy. rewrite list_lookup_fmap in Hy.
    destruct (results !! i) as [r|] eqn:Hr; [|discriminate].
    injection Hy as <-.
    assert (Hok : r = OK (value_of r)).
    { rewrite Forall_forall in Hall. apply Hall.
      apply list_elem_of_lookup. eauto. }
    unfold results in Hr. rewrite list_lookup_imap in Hr.
    destruct (xs !! i) as [x|]; [|discriminate].
    injection Hr as Hr. rewrite <- Hr in Hok at 1.
    apply (Hel _ _ _ Hok).
Qed.

(** Objects. *)
Lemma mergeObject_OK (pairs : list (string * ParseReturn * bool)) v :
  mergeObject pairs = OK v ->
  v = obj (map (fun p : string * ParseReturn * bool =>
                  written (fst (fst p))
                           (if snd p then Some VUndefined else None)
                           (value_of (snd (fst p)))) pairs)
  /\ Forall (fun p : string * ParseReturn * bool =>
               snd (fst p) = OK (value_of (snd (fst p)))) pairs.
Proof.
  unfold mergeObject.
  destruct (existsb (fun p => is_aborted (snd (fst p))) pairs) eqn:Ha;
    [discriminate|].
  destruct (existsb (fun p => is_dirty (snd (fst p))) pairs) eqn:Hd;
    [discriminate|].
  intros Heq. injection Heq as <-. split.
  - unfold obj. f_equal.
    clear Ha Hd. induction pairs as [|[[k r] b] pairs IH]; [reflexivity|].
    simpl. rewrite IH. unfold fields_of at 2. simpl. unfold written. simpl.
    destruct (negb (is_undefined (value_of r))), b; reflexivity.
  - induction pairs as [|[[k r] b] pairs IH]; constructor.
    + simpl in *. destruct r; simpl in *; try discriminate. reflexivity.
    + simpl in Ha, Hd. apply orb_false_elim in Ha as [_ Ha].
      apply orb_false_elim in Hd as [_ Hd]. apply IH; assumption.
Qed.

Lemma object_stable (shape : list (string * Schema)) :
  List.NoDup (map fst shape) ->
  Forall (fun ks => stable (snd ks)) shape ->
  stable (z_object shape).
Proof.
  intros Hnd Hall x p v Hx p'.
  destruct x as [| | | | | |fields]; try discriminate.
  unfold z_object in Hx. apply mergeObject_OK in Hx as [-> Hok].
  rewrite map_map in *. rewrite Forall_map in Hok. cbn [fst snd] in *.
  apply z_object_literal.
  - rewrite map_map. cbn [fst written]. exact Hnd.
  - clear Hnd. induction shape as [|[k s] shape IH]; [constructor|].
    apply Forall_cons in Hall as [Hs Hall].
    apply Forall_cons in Hok as [Hk Hok].
    cbn [map fst snd] in *. apply Forall3_cons; [|apply IH; assumption].
    set (vk := value_of (s (get k fields) (p ++ [Key k]))) in *.
    split; [reflexivity|]. exists vk. cbn [fst snd written].
    assert (Hval : val (if negb (is_undefined vk)
                           || is_some (if has k fields then Some VUndefined
                                       else None)
                        then Some vk else None) = vk).
    { destruct vk, (has k fields); reflexivity. }
    rewrite Hval. split; [apply (Hs _ _ _ Hk)|].
    unfold written. f_equal.
    destruct (negb (is_undefined vk)), (has k fields); reflexivity.
Qed.

(** Unions. *)
Lemma union_loop_OK options x p dirty issues v :
  union_loop options x p dirty issues = OK v ->
  (exists o, In o options /\ o x p = OK v) \/ dirty = Some (OK v).
Proof.
  revert dirty issues. induction options as [|o options IH];
    intros dirty issues; simpl.
  - destruct dirty as [r|]; [|discriminate]. intros ->. right. reflexivity.
  - destruct (o x p) as [v0|v0 errs|errs] eqn:Ho.
    + intros Heq. injection Heq as <-. left. exists o. auto.
    + intros Hu. apply IH in Hu as [(o' & Hin & Ho') | Hd].
      * left. exists o'. auto.
      * destruct dirty; [right; exact Hd|discriminate].
    + intros Hu. apply IH in Hu as [(o' & Hin & Ho') | Hd].
      * left. exists o'. auto.
      * right. exact Hd.
Qed.

Lemma union_loop_first options x p v :
  (exists o, In o options /\ o x p = OK v) ->
  (forall o v', In o options -> o x p = OK v' -> v' = v) ->
  forall dirty issues, union_loop options x p dirty issues = OK v.
Proof.
  induction options as [|o options IH]; intros (o' & Hin & Ho') Hex dirty issues.
  - destruct Hin.
  - simpl. destruct (o x p) as [v0|v0 errs|errs] eqn:Ho.
    + rewrite (Hex o v0); auto. left. reflexivity.
    + apply IH.
      * destruct Hin as [<-|Hin]; [congruence|]. exists o'. auto.
      * intros o1 v1 Hin1. apply Hex. right. exact Hin1.
    + apply IH.
      * destruct Hin as [<-|Hin]; [congruence|]. exists o'. auto.
      * intros o1 v1 Hin1. apply Hex. right. exact Hin1.
Qed.

Lemma same_tag {A} (l : list (string * A)) (a b : string * A) :
  List.NoDup (map fst l) -> In a l -> In b l -> fst a = fst b -> a = b.
Proof.
  induction l as [|c l IH]; intros Hnd Ha Hb Heq; [destruct Ha|].
  simpl in Hnd. apply List.NoDup_cons_iff in Hnd as [Hc Hnd].
  destruct Ha as [<-|Ha], Hb as [<-|Hb]; auto.
  - destruct Hc. rewrite Heq. apply in_map. exact Hb.
  - destruct Hc. rewrite <- Heq. apply in_map. exact Ha.
Qed.

Lemma union_stable (options : list (string * Schema)) :
  List.NoDup (map fst options) ->
  Forall (fun ts => stable (snd ts) /\ tagged (fst ts) (snd ts)) options ->
  stable (z_union (map snd options)).
Proof.
  intros Hnd Hall x p v Hx p'. rewrite Forall_forall in Hall.
  unfold z_union in *.
  apply union_loop_OK in Hx as [(o & Hin & Ho) | Hd]; [|discriminate].
  apply in_map_iff in Hin as (ts & <- & Hts).
  destruct (Hall ts) as [Hs Ht]; [apply list_elem_of_In; exact Hts|].
  apply union_loop_first.
  - exists (snd ts). split; [apply in_map; exact Hts|]. apply (Hs _ _ _ Ho).
  - intros o' v' Hin' Ho'.
    apply in_map_iff in Hin' as (ts' & <- & Hts').
    destruct (Hall ts') as [Hs' Ht']; [apply list_elem_of_In; exact Hts'|].
    destruct (Ht _ _ _ Ho) as [_ Hv]. destruct (Ht' _ _ _ Ho') as [Hv' _].
    rewrite Hv in Hv'. injection Hv' as Htag.
    assert (Heq : ts = ts') by (apply (same_tag options); auto).
    subst ts'. pose proof (Hs _ _ _ Ho p') as Hre. congruence.
Qed.

(** The schema of the objects of one [type]. *)
Lemma object_tagged lit (shape : list (string * Schema)) :
  tagged lit (z_object (("type", z_literal lit) :: shape)).
Proof.
  intros x p v Hx. destruct x as [| | | | | |fields]; try discriminate.
  unfold z_object in Hx. apply mergeObject_OK in Hx as [-> Hok].
  apply Forall_cons in Hok as [Hk _]. cbn [map fst snd] in *.
  cbn [field].
  destruct (get "type" fields) as [| | | |s| |] eqn:Ht; try discriminate.
  simpl in Hk. destruct (String.eqb_spec s lit) as [->|]; [|discriminate].
  split; [reflexivity|]. unfold obj, fields_of, written. simpl.
  rewrite String.eqb_refl. reflexivity.
Qed.

Create HintDb stable.

#[export] Hint Resolve verbatim_stable string_verbatim url_verbatim
  number_verbatim boolean_verbatim unknown_verbatim literal_verbatim
  enum_verbatim width_verbatim version_stable optional_stable array_stable
  : stable.

Ltac stable_fields :=
  repeat (constructor; [cbn [snd]; auto 6 with stable|]); constructor.

Ltac stable_object :=
  apply object_stable; [distinct_keys | stable_fields].

Section Cards.
Context `{Platform}.

Lemma TextBlock_stable : stable TextBlockSchema.
Proof. unfold TextBlockSchema. stable_object. Qed.

Lemma Image_stable : stable ImageSchema.
Proof. unfold ImageSchema. stable_object. Qed.

Lemma Fact_stable : stable FactSchema.
Proof. unfold FactSchema. stable_object. Qed.

Lemma FactSet_stable : stable FactSetSchema.
Proof.
  pose proof Fact_stable. unfold FactSetSchema, z_array_max. stable_object.
Qed.

Lemma Action_stable : stable ActionSchema.
Proof. unfold ActionSchema. stable_object. Qed.

Lemma ActionSet_stable : stable ActionSetSchema.
Proof.
  pose proof Action_stable. unfold ActionSetSchema, z_array. stable_object.
Qed.

Lemma Column_stable element : stable element -> stable (ColumnSchema element).
Proof. intros He. unfold ColumnSchema, z_array. stable_object. Qed.

Lemma ColumnSet_stable element :
  stable element -> stable (ColumnSetSchema element).
Proof.
  intros He. pose proof (Column_stable element He).
  unfold ColumnSetSchema, z_array. stable_object.
Qed.

Lemma Container_stable element :
  stable element -> stable (ContainerSchema element).
Proof. intros He. unfold ContainerSchema, z_array. stable_object. Qed.

Lemma options_stable stack :
  stable (CardElementSchema stack) ->
  stable (z_union (map snd (options_by_type stack))).
Proof.
  intros He. apply union_stable; [distinct_keys|].
  unfold options_by_type.
  repeat (constructor;
          [split;
           [cbn [snd];
            first [ apply TextBlock_stable | apply Image_stable
                  | apply FactSet_stable
                  | apply ColumnSet_stable; exact He
                  | apply Container_stable; exact He
                  | apply ActionSet_stable ]
           |cbn [fst snd];
            first [ unfold TextBlockSchema | unfold ImageSchema
                  | unfold FactSetSchema | unfold ColumnSetSchema
                  | unfold ContainerSchema | unfold ActionSetSchema ];
            apply object_tagged]|]).
  constructor.
Qed.

Lemma element_stable stack : stable (CardElementSchema stack).
Proof.
  induction stack as [|stack IH]; [intros x p v Hx; discriminate|].
  intros x p v Hx p'. rewrite CardElementSchema_unfold in *.
  apply (options_stable stack IH x p v Hx).
Qed.

Lemma card_stable stack : stable (AdaptiveCardSchema stack).
Proof.
  pose proof (options_stable stack (element_stable stack)) as Hbody.
  pose proof Action_stable.
  unfold AdaptiveCardSchema, z_array_max, z_array.
  change [TextBlockSchema; ImageSchema; FactSetSchema;
          ColumnSetSchema (CardElementSchema stack);
          ContainerSchema (CardElementSchema stack); ActionSetSchema]
    with (map snd (options_by_type stack)).
  stable_object.
Qed.

End Cards.

Lemma refine_stable s check message rpath :
  stable s -> stable (z_refine s check message rpath).
Proof.
  intros Hs x p v Hx p'. unfold z_refine in *.
  destruct (s x p) as [v0|v0 errs|errs] eqn:Hsx.
  - destruct (check v0) eqn:Hc; [|discriminate]. injection Hx as <-.
    rewrite (Hs _ _ _ Hsx p'), Hc. reflexivity.
  - destruct (check v0); discriminate.
  - discriminate.
Qed.

Lemma refine_agree d s s' check message rpath :
  agree d s s' ->
  agree d (z_refine s check message rpath) (z_refine s' check message rpath).
Proof. intros Ha x p Hx. unfold z_refine. rewrite (Ha x p Hx). reflexivity. Qed.

Section Requests.
Context `{Platform}.

Lemma message_stable : stable PostMessageRequestSchema.
Proof. unfold PostMessageRequestSchema. stable_object. Qed.

Lemma rich_stable stack : stable (PostRichMessageRequestSchema stack).
Proof.
  pose proof (card_stable stack).
  unfold PostRichMessageRequestSchema. apply refine_stable. stable_object.
Qed.

Lemma rich_stack stack :
  agree (S (S (S stack))) (PostRichMessageRequestSchema stack)
    (PostRichMessageRequestSchema (S stack)).
Proof.
  unfold PostRichMessageRequestSchema. apply refine_agree, object_agree.
  constructor; [apply same_key, agree_refl|].
  constructor; [apply same_key, optional_agree, card_stack|].
  constructor; [apply same_key, agree_refl|]. constructor.
Qed.

Lemma rich_any_stack (input : Value) (stack : nat) :
  (depth input <= stack)%nat ->
  safeParse (PostRichMessageRequestSchema stack) input
  = validatePostRichMessageArgs input.
Proof.
  unfold validatePostRichMessageArgs. intros Hle.
  induction Hle as [|stack Hle IH]; [reflexivity|].
  rewrite <- IH. unfold safeParse.
  rewrite (rich_stack stack input []); [reflexivity|lia].
Qed.

End Requests.

(** X10.  Validation is idempotent: what a validator returns it accepts, and
    returns as it is.  This holds of the card validator and of the
    validators of the arguments of both tools. *)
Theorem validators_idempotent `{Platform} (input out : Value) :
  (validate input = inr out -> validate out = inr out)
  /\ (validatePostRichMessageArgs input = inr out ->
      validatePostRichMessageArgs out = inr out)
  /\ (validatePostMessageArgs input = inr out ->
      validatePostMessageArgs out = inr out).
Proof.
  set (n := Nat.max (depth input) (depth out)).
  split; [|split]; intros Hv.
  - rewrite <- (validate_stack input n) in Hv by lia.
    rewrite <- (validate_stack out n) by lia.
    unfold safeParse in *.
    destruct (AdaptiveCardSchema n input []) as [v| |] eqn:Hp;
      try discriminate.
    injection Hv as ->.
    rewrite (card_stable n input [] out Hp []). reflexivity.
  - rewrite <- (rich_any_stack input n) in Hv by lia.
    rewrite <- (rich_any_stack out n) by lia.
    unfold safeParse in *.
    destruct (PostRichMessageRequestSchema n input []) as [v| |] eqn:Hp;
      try discriminate.
    injection Hv as ->.
    rewrite (rich_stable n input [] out Hp []). reflexivity.
  - unfold validatePostMessageArgs, safeParse in *.
    destruct (PostMessageRequestSchema input []) as [v| |] eqn:Hp;
      try discriminate.
    injection Hv as ->.
    rewrite (message_stable input [] out Hp []). reflexivity.
Qed.

Lemma validators_idempotent_witness :
  let input :=
    VObj [("type", VStr "AdaptiveCard");
          ("body", VArr [VObj [("type", VStr "TextBlock");
                               ("text", VStr "hi");
                               ("id", VStr "greeting")]]);
          ("msteams", VObj [("width", VStr "Full")])] in
  let out :=
    VObj [("type", VStr "AdaptiveCard"); ("version", VStr "1.4");
          ("body", VArr [VObj [("type", VStr "TextBlock");
                               ("text", VStr "hi")]])] in
  validate (H := Sample.sample_platform) input = inr out
  /\ validate (H := Sample.sample_platform) out = inr out.
Proof.
  intros input out.
  assert (Hv : validate (H := Sample.sample_platform) input = inr out)
    by (vm_compute; reflexivity).
  split; [exact Hv|].
  exact (proj1 (validators_idempotent (H := Sample.sample_platform) input out)
           Hv).
Defined.

End Replay.
(** ** Issues follow the path *)

Module Relocation.
Import ZodFacts SchemaFacts Stack.

Lemma relocate_issues p r : issues_of (relocate p r) = map (under p) (issues_of r).
Proof. destruct r; reflexivity. Qed.

Lemma relocate_value p r : value_of (relocate p r) = value_of r.
Proof. destruct r; reflexivity. Qed.

Lemma relocate_aborted p r : is_aborted (relocate p r) = is_aborted r.
Proof. destruct r; reflexivity. Qed.

Lemma relocate_dirty p r : is_dirty (relocate p r) = is_dirty r.
Proof. destruct r; reflexivity. Qed.

Section Leaves.
Context `{Platform}.

Lemma string_uniform : uniform z_string.
Proof. intros x p q. destruct x; reflexivity. Qed.

Lemma url_uniform : uniform z_string_url.
Proof.
  intros x p q. destruct x as [| | | |s| |]; try reflexivity.
  unfold z_string_url, ZodString. simpl.
  destruct (URL_canParse s); reflexivity.
Qed.

Lemma number_uniform : uniform z_number.
Proof. intros x p q. destruct x; reflexivity. Qed.

Lemma boolean_uniform : uniform z_boolean.
Proof. intros x p q. destruct x; reflexivity. Qed.

Lemma unknown_uniform : uniform z_unknown.
Proof. intros x p q. reflexivity. Qed.

Lemma literal_uniform lit : uniform (z_literal lit).
Proof.
  intros x p q. destruct x as [| | | |s| |]; try reflexivity.
  simpl. destruct (String.eqb s lit); reflexivity.
Qed.

Lemma enum_uniform values : uniform (z_enum values).
Proof.
  intros x p q. destruct x as [| | | |s| |]; try reflexivity.
  simpl. destruct (existsb (String.eqb s) values); reflexivity.
Qed.

End Leaves.

Lemma optional_uniform s : uniform s -> uniform (z_optional s).
Proof. intros Hs x p q. destruct x; try reflexivity; apply Hs. Qed.

Lemma default_uniform s def : uniform s -> uniform (z_default s def).
Proof. intros Hs x p q. destruct x; apply Hs. Qed.

Lemma flat_map_relocate p (results : list ParseReturn) :
  flat_map issues_of (map (relocate p) results)
  = map (under p) (flat_map issues_of results).
Proof.
  induction results as [|r results IH]; [reflexivity|].
  simpl. rewrite IH, relocate_issues, map_app. reflexivity.
Qed.

Lemma existsb_relocate (f : ParseReturn -> bool) p results :
  (forall r, f (relocate p r) = f r) ->
  existsb f (map (relocate p) results) = existsb f results.
Proof.
  intros Hf. induction results as [|r results IH]; [reflexivity|].
  simpl. rewrite Hf, IH. reflexivity.
Qed.

Lemma mergeArray_relocate p dirty own results :
  mergeArray dirty (map (under p) own) (map (relocate p) results)
  = relocate p (mergeArray dirty own results).
Proof.
  unfold mergeArray.
  rewrite flat_map_relocate, <- map_app.
  rewrite (existsb_relocate is_aborted) by apply relocate_aborted.
  rewrite (existsb_relocate is_dirty) by apply relocate_dirty.
  rewrite map_map.
  rewrite (map_ext (fun r => value_of (relocate p r)) value_of)
    by (intros r; apply relocate_value).
  destruct (existsb is_aborted results); [reflexivity|].
  destruct (dirty || existsb is_dirty results); reflexivity.
Qed.

Lemma imap_relocate p (g g' : nat -> Value -> ParseReturn) (xs : list Value) :
  (forall i x, g' i x = relocate p (g i x)) ->
  imap g' xs = map (relocate p) (imap g xs).
Proof.
  revert g g'. induction xs as [|x xs IH]; intros g g' Hg; [reflexivity|].
  simpl. rewrite Hg. f_equal. apply IH. intros i y. apply Hg.
Qed.

Lemma array_uniform element maxLength :
  uniform element -> uniform (ZodArray element maxLength).
Proof.
  intros He x p q. destruct x as [| | | | |xs|]; try reflexivity.
  unfold ZodArray. rewrite <- mergeArray_relocate.
  f_equal.
  - destruct (match maxLength with
              | Some m => (m <? length xs)%nat
              | None => false
              end); reflexivity.
  - apply imap_relocate. intros i y. rewrite <- app_assoc. apply He.
Qed.

Lemma mergeObject_relocate p (pairs : list (string * ParseReturn * bool)) :
  mergeObject (map (fun kr : string * ParseReturn * bool =>
                      (fst (fst kr), relocate p (snd (fst kr)), snd kr)) pairs)
  = relocate p (mergeObject pairs).
Proof.
  unfold mergeObject.
  assert (Hi : flat_map
                 (fun kr : string * ParseReturn * bool => issues_of (snd (fst kr)))
                 (map (fun kr : string * ParseReturn * bool =>
                         (fst (fst kr), relocate p (snd (fst kr)), snd kr))
                    pairs)
               = map (under p)
                   (flat_map (fun kr : string * ParseReturn * bool =>
                                issues_of (snd (fst kr))) pairs)).
  { induction pairs as [|[[k r] b] pairs IH]; [reflexivity|].
    simpl. rewrite IH, relocate_issues, map_app. reflexivity. }
  assert (Ha : forall f : ParseReturn -> bool,
             (forall r, f (relocate p r) = f r) ->
             existsb (fun kr : string * ParseReturn * bool => f (snd (fst kr)))
               (map (fun kr : string * ParseReturn * bool =>
                       (fst (fst kr), relocate p (snd (fst kr)), snd kr))
                  pairs)
             = existsb (fun kr : string * ParseReturn * bool =>
                          f (snd (fst kr))) pairs).
  { clear Hi. intros f Hf.
    induction pairs as [|[[k r] b] pairs IH]; [reflexivity|].
    simpl. rewrite Hf, IH. reflexivity. }
  assert (Hv : flat_map
                 (fun kr : string * ParseReturn * bool =>
                    let '(k, r, alwaysSet) := kr in
                    if negb (is_undefined (value_of r)) || alwaysSet
                    then [(k, value_of r)] else [])
                 (map (fun kr : string * ParseReturn * bool =>
                         (fst (fst kr), relocate p (snd (fst kr)), snd kr))
                    pairs)
               = flat_map
                   (fun kr : string * ParseReturn * bool =>
                      let '(k, r, alwaysSet) := kr in
                      if negb (is_undefined (value_of r)) || alwaysSet
                      then [(k, value_of r)] else []) pairs).
  { clear Hi Ha. induction pairs as [|[[k r] b] pairs IH]; [reflexivity|].
    simpl. rewrite IH, relocate_value. reflexivity. }
  rewrite Hi, Hv, (Ha is_aborted (relocate_aborted p)),
    (Ha is_dirty (relocate_dirty p)).
  destruct (existsb _ pairs); [reflexivity|].
  destruct (existsb _ pairs); reflexivity.
Qed.

Lemma object_uniform (shape : list (string * Schema)) :
  Forall (fun ks => uniform (snd ks)) shape -> uniform (z_object shape).
Proof.
  intros Hall x p q. destruct x as [| | | | | |fields]; try reflexivity.
  unfold z_object. rewrite <- mergeObject_relocate. f_equal.
  rewrite map_map. apply map_ext_in. intros [k s] Hin. cbn [fst snd].
  rewrite Forall_forall in Hall.
  specialize (Hall (k, s) (proj2 (list_elem_of_In _ _) Hin)). cbn [snd] in Hall.
  rewrite <- app_assoc, Hall. reflexivity.
Qed.

Lemma union_loop_uniform (options : list Schema) x p q dirty issues :
  Forall uniform options ->
  union_loop options x (p ++ q) (relocate p <$> dirty)
    (map (map (under p)) issues)
  = relocate p (union_loop options x q dirty issues).
Proof.
  intros Hall. revert dirty issues.
  induction Hall as [|o options Ho Hall IH]; intros dirty issues.
  - simpl. destruct dirty as [r|]; reflexivity.
  - simpl. rewrite (Ho x p q).
    destruct (o x q) as [v|v errs|errs]; cbn [relocate issues_of].
    + reflexivity.
    + destruct errs as [|e errs]; cbn [map].
      * rewrite <- IH. f_equal. destruct dirty; reflexivity.
      * rewrite <- IH, map_app. f_equal. destruct dirty; reflexivity.
    + destruct errs as [|e errs]; cbn [map].
      * apply IH.
      * rewrite <- IH, map_app. reflexivity.
Qed.

Lemma union_uniform (options : list Schema) :
  Forall uniform options -> uniform (z_union options).
Proof.
  intros Hall x p q. unfold z_union.
  apply (union_loop_uniform options x p q None [] Hall).
Qed.

Lemma refine_uniform s check message rpath :
  uniform s -> uniform (z_refine s check message rpath).
Proof.
  intros Hs x p q. unfold z_refine. rewrite (Hs x p q).
  destruct (s x q) as [v|v errs|errs]; cbn [relocate].
  - destruct (check v); [reflexivity|]. simpl. rewrite <- app_assoc. reflexivity.
  - destruct (check v); [reflexivity|]. simpl.
    rewrite map_app. simpl. rewrite <- app_assoc. reflexivity.
  - reflexivity.
Qed.

Create HintDb uniform.

#[export] Hint Resolve string_uniform url_uniform number_uniform
  boolean_uniform unknown_uniform literal_uniform enum_uniform
  optional_uniform default_uniform array_uniform : uniform.

Ltac uniform_fields :=
  repeat (constructor; [cbn [snd]; auto 6 with uniform|]); constructor.

Ltac uniform_object := apply object_uniform; uniform_fields.

Section Cards.
Context `{Platform}.

Lemma width_uniform : uniform (z_union [z_string; z_number]).
Proof. apply union_uniform. repeat constructor; auto with uniform. Qed.

Lemma TextBlock_uniform : uniform TextBlockSchema.
Proof. unfold TextBlockSchema. uniform_object. Qed.

Lemma Image_uniform : uniform ImageSchema.
Proof. unfold ImageSchema. uniform_object. Qed.

Lemma Fact_uniform : uniform FactSchema.
Proof. unfold FactSchema. uniform_object. Qed.

Lemma FactSet_uniform : uniform FactSetSchema.
Proof.
  pose proof Fact_uniform. unfold FactSetSchema, z_array_max. uniform_object.
Qed.

Lemma Action_uniform : uniform ActionSchema.
Proof. unfold ActionSchema. uniform_object. Qed.

Lemma ActionSet_uniform : uniform ActionSetSchema.
Proof.
  pose proof Action_uniform. unfold ActionSetSchema, z_array. uniform_object.
Qed.

Lemma Column_uniform element :
  uniform element -> uniform (ColumnSchema element).
Proof.
  intros He. pose proof width_uniform.
  unfold ColumnSchema, z_array. uniform_object.
Qed.

Lemma ColumnSet_uniform element :
  uniform element -> uniform (ColumnSetSchema element).
Proof.
  intros He. pose proof (Column_uniform element He).
  unfold ColumnSetSchema, z_array. uniform_object.
Qed.

Lemma Container_uniform element :
  uniform element -> uniform (ContainerSchema element).
Proof. intros He. unfold ContainerSchema, z_array. uniform_object. Qed.

Lemma options_uniform stack :
  uniform (CardElementSchema stack) -> uniform (z_union (options stack)).
Proof.
  intros He. apply union_uniform. unfold options.
  repeat (constructor;
          [first [ apply TextBlock_uniform | apply Image_uniform
                 | apply FactSet_uniform
                 | apply ColumnSet_uniform; exact He
                 | apply Container_uniform; exact He
                 | apply ActionSet_uniform ]|]).
  constructor.
Qed.

Lemma element_uniform stack : uniform (CardElementSchema stack).
Proof.
  induction stack as [|stack IH]; [intros x p q; reflexivity|].
  intros x p q. rewrite !CardElementSchema_unfold.
  apply (options_uniform stack IH).
Qed.

Lemma card_uniform stack : uniform (AdaptiveCardSchema stack).
Proof.
  pose proof (options_uniform stack (element_uniform stack)) as Hbody.
  pose proof Action_uniform.
  unfold AdaptiveCardSchema, z_array_max, z_array.
  fold (options stack).
  uniform_object.
Qed.

(** A deeper stack, at any path. *)
Lemma card_any_stack (x : Value) (p : Path) (stack : nat) :
  (depth x <= stack)%nat ->
  AdaptiveCardSchema stack x p = AdaptiveCardSchema (depth x) x p.
Proof.
  intros Hle. induction Hle as [|stack Hle IH]; [reflexivity|].
  rewrite <- IH. symmetry. apply card_stack. lia.
Qed.

Lemma card_value stack x p v errs :
  AdaptiveCardSchema stack x p = DIRTY v errs -> truthy v = true.
Proof.
  destruct x as [| | | | | |fields]; try discriminate.
  unfold AdaptiveCardSchema, z_object, mergeObject.
  destruct (existsb _ _); [discriminate|].
  destruct (existsb _ _); [|discriminate].
  intros Heq. injection Heq as <- _. reflexivity.
Qed.

End Cards.

Lemma reports_under c p q :
  forall i, reports c q i = true -> reports c (p ++ q) (under p i) = true.
Proof.
  fix IH 1. intros [c' path unionErrors]. simpl. intros Hr.
  apply orb_true_iff in Hr as [Hr|Hr]; apply orb_true_iff; [left|right].
  - apply andb_true_iff in Hr as [Hc Hq].
    apply bool_decide_eq_true in Hc, Hq. subst.
    rewrite !bool_decide_eq_true_2 by reflexivity. reflexivity.
  - induction unionErrors as [|errs unionErrors IHu]; [discriminate|].
    simpl in *. apply orb_true_iff in Hr as [Hr|Hr]; apply orb_true_iff.
    + left. clear IHu. induction errs as [|e errs IHe]; [discriminate|].
      simpl in *. apply orb_true_iff in Hr as [Hr|Hr]; apply orb_true_iff.
      * left. apply IH. exact Hr.
      * right. apply IHe. exact Hr.
    + right. apply IHu. exact Hr.
Qed.

(** X11.  The rejection of a card is the rejection of the rich-message
    arguments that hold it.  With a [text] and a [thread_id] that are
    absent or strings, arguments whose [card] the card validator rejects
    are rejected with the same issues, each moved under [card]; so an
    issue that [validate] raises at a path is raised by
    [validatePostRichMessageArgs] at [card] followed by that path. *)
Theorem card_rejection_in_arguments `{Platform}
    (fields : list (string * Value)) (card : Value) (issues : list ZodIssue) :
  get "card" fields = card -> card <> VUndefined ->
  (get "text" fields = VUndefined \/ exists s, get "text" fields = VStr s) ->
  (get "thread_id" fields = VUndefined
   \/ exists t, get "thread_id" fields = VStr t) ->
  validate card = inl issues ->
  validatePostRichMessageArgs (VObj fields)
  = inl (map (under [Key "card"]) issues)
  /\ forall c q,
       rejects c q (validate card) = true ->
       rejects c (Key "card" :: q) (validatePostRichMessageArgs (VObj fields))
       = true.
Proof.
  intros Hcard Hdef Htext Hthread Hv.
  assert (Hgoal : validatePostRichMessageArgs (VObj fields)
                  = inl (map (under [Key "card"]) issues));
    [|split; [exact Hgoal|];
      intros c q Hr; rewrite Hgoal; rewrite Hv in Hr; unfold rejects in *;
      rewrite existsb_exists in *; destruct Hr as (i & Hi & Hr);
      exists (under [Key "card"] i); split;
      [apply in_map; exact Hi
      |apply (reports_under c [Key "card"] q i Hr)]].
  assert (Hparse :
    z_optional (AdaptiveCardSchema (depth (VObj fields)))
      (get "card" fields) ([] ++ [Key "card"])
    = relocate [Key "card"] (AdaptiveCardSchema (depth card) card [])).
  { rewrite Hcard.
    assert (Hopt : forall s p, z_optional s card p = s card p)
      by (intros s p; destruct card; [destruct (Hdef eq_refl)|reflexivity..]).
    rewrite Hopt.
    rewrite card_any_stack
      by (pose proof (depth_get "card" fields) as Hd; rewrite Hcard in Hd; lia).
    change ([] ++ [Key "card"]) with ([Key "card"] ++ []).
    apply card_uniform. }
  unfold validatePostRichMessageArgs, safeParse, PostRichMessageRequestSchema,
    z_refine, z_object.
  cbn [map fst snd]. rewrite Hparse.
  unfold validate, safeParse in Hv.
  assert (Htext' : z_optional z_string (get "text" fields) ([] ++ [Key "text"])
                   = OK (get "text" fields)).
  { destruct Htext as [-> | [s ->]]; reflexivity. }
  assert (Hthread' : z_optional z_string (get "thread_id" fields)
                       ([] ++ [Key "thread_id"])
                     = OK (get "thread_id" fields)).
  { destruct Hthread as [-> | [t ->]]; reflexivity. }
  rewrite Htext', Hthread'.
  destruct (AdaptiveCardSchema (depth card) card []) as [v|v errs|errs] eqn:Hp;
    [discriminate|..]; injection Hv as <-; unfold mergeObject; simpl;
      rewrite ?app_nil_r; [|reflexivity].
  apply card_value in Hp.
  assert (Hnu : negb (is_undefined v) = true)
    by (destruct v; try reflexivity; discriminate).
  rewrite Hnu. cbn [orb].
  assert (Hcheck : forall t, truthy (Js.or t v) = true).
  { intros t. unfold Js.or. destruct (truthy t) eqn:Htt; [exact Htt|exact Hp]. }
  destruct (negb (is_undefined (get "text" fields)) || has "text" fields),
    (negb (is_undefined (get "thread_id" fields)) || has "thread_id" fields);
    simpl; rewrite Hcheck; reflexivity.
Qed.

Lemma card_rejection_in_arguments_witness :
  let card :=
    Card.of_card
      (Sample.card [Sample.column_set
                      [Sample.column [Sample.image "not a url"]]]) in
  rejects invalid_string
    [Key "card"; Key "body"; Idx 0; Key "columns"; Idx 0; Key "items"; Idx 0;
     Key "url"]
    (validatePostRichMessageArgs (H := Sample.sample_platform)
       (VObj [("text", VStr "fallback"); ("card", card)])) = true.
Proof.
  intros card.
  destruct (validate (H := Sample.sample_platform) card) as [issues|v] eqn:Hv;
    [|vm_compute in Hv; discriminate].
  destruct (card_rejection_in_arguments (H := Sample.sample_platform)
              [("text", VStr "fallback"); ("card", card)] card issues)
    as [_ Hr].
  - reflexivity.
  - discriminate.
  - right. exists "fallback". reflexivity.
  - left. reflexivity.
  - exact Hv.
  - apply Hr. rewrite Hv. vm_compute in Hv. injection Hv as <-.
    vm_compute. reflexivity.
Defined.

End Relocation.
(** ** The request schemas and the required fields of a card *)

Module Requests.
Import ZodFacts SchemaFacts.

Section WithPlatform.
Context `{Platform}.

(** The plain-message schema on an object, by cases on its two fields. *)
Lemma post_message_parse (fields : list (string * Value)) :
  validatePostMessageArgs (VObj fields)
  = match get "text" fields, get "thread_id" fields with
    | VStr s, VUndefined =>
        inr (VObj (("text", VStr s)
                   :: if has "thread_id" fields
                      then [("thread_id", VUndefined)] else []))
    | VStr s, VStr t => inr (VObj [("text", VStr s); ("thread_id", VStr t)])
    | VStr s, _ => inl [Issue invalid_type [Key "thread_id"] []]
    | _, VUndefined | _, VStr _ => inl [Issue invalid_type [Key "text"] []]
    | _, _ => inl [Issue invalid_type [Key "text"] [];
                   Issue invalid_type [Key "thread_id"] []]
    end.
Proof.
  unfold validatePostMessageArgs, safeParse, PostMessageRequestSchema,
    z_object, mergeObject.
  cbn [map fst snd].
  destruct (get "text" fields), (get "thread_id" fields),
    (has "text" fields), (has "thread_id" fields); reflexivity.
Qed.

End WithPlatform.

Lemma has_among (k : string) (fields : list (string * Value)) :
  has k fields = true -> In k (map fst fields).
Proof.
  induction fields as [|[k' v] fields IH]; [discriminate|].
  simpl. destruct (String.eqb_spec k k') as [->|Hne]; auto.
Qed.

(** X12.  What [teams_post_message] accepts: exactly the objects whose
    [text] is a string, the empty string included, and whose [thread_id]
    is absent or a string.  The validated arguments hold the [text] and
    the [thread_id] of the input and no other property. *)
Theorem post_message_arguments `{Platform} (input : Value) :
  ((exists out, validatePostMessageArgs input = inr out)
   <-> (exists s, field input "text" = VStr s)
       /\ (field input "thread_id" = VUndefined
           \/ exists t, field input "thread_id" = VStr t))
  /\ (forall out,
        validatePostMessageArgs input = inr out ->
        field out "text" = field input "text"
        /\ field out "thread_id" = field input "thread_id"
        /\ exists fields,
             out = VObj fields
             /\ forall k, has k fields = true -> In k ["text"; "thread_id"]).
Proof.
  destruct input as [| | | | | |fields];
    try (split; [split; [intros [out Ho]; cbv in Ho; discriminate
                        |intros [[? Hs] _]; cbv in Hs; discriminate]
                |intros out Ho; cbv in Ho; discriminate]).
  rewrite post_message_parse. cbn [field].
  destruct (get "text" fields) as [| | | |s| |],
    (get "thread_id" fields) as [| | | |t| |];
    (split;
     [split;
      [intros [out Ho]; try discriminate; split; eauto
      |intros [[s' Hs] [Ht|[t' Ht]]]; try discriminate; eauto]
     |intros out Ho; try discriminate; injection Ho as <-]).
  - split; [reflexivity|]. split.
    + destruct (has "thread_id" fields); reflexivity.
    + eexists. split; [reflexivity|]. intros k Hk. apply has_among in Hk.
      destruct (has "thread_id" fields); simpl in *; tauto.
  - split; [reflexivity|]. split; [reflexivity|].
    eexists. split; [reflexivity|]. intros k Hk. apply has_among in Hk.
    exact Hk.
Qed.

Lemma post_message_arguments_witness :
  validatePostMessageArgs (H := Sample.sample_platform)
    (VObj [("text", VStr ""); ("channel", VStr "general")])
  = inr (VObj [("text", VStr "")]).
Proof.
  destruct (post_message_arguments (H := Sample.sample_platform)
              (VObj [("text", VStr ""); ("channel", VStr "general")]))
    as [[_ Hacc] Hout].
  destruct Hacc as [out Ho].
  - split; [exists ""; reflexivity|]. left. reflexivity.
  - rewrite Ho. vm_compute in Ho. injection Ho as <-. reflexivity.
Defined.

Section Cards.
Context `{Platform}.

Lemma card_field_rejected c q (fields : list (string * Value))
    (ks : string * Schema) :
  In ks [("type", z_literal "AdaptiveCard");
         ("version", z_default z_string (VStr "1.4"));
         ("body", z_array_max (z_union (options (depth (VObj fields)))) 50);
         ("actions", z_optional (z_array ActionSchema));
         ("$schema", z_optional z_string)] ->
  points c q (field_result fields [] ks) = true ->
  rejects c q (validate (VObj fields)) = true.
Proof.
  intros Hin Hp.
  assert (Hr : points c q
                 (AdaptiveCardSchema (depth (VObj fields)) (VObj fields) [])
               = true).
  { unfold AdaptiveCardSchema. fold (options (depth (VObj fields))).
    eapply points_object; [exact Hin|exact Hp]. }
  unfold validate, safeParse, rejects.
  destruct (AdaptiveCardSchema _ _ _) as [v|v errs|errs]; [discriminate|..];
    exact Hr.
Qed.

End Cards.

(** X13.  The required fields of a card.  An input that is not an object
    is rejected with [invalid_type] at the root; an object whose [type]
    is not ["AdaptiveCard"] with [invalid_literal] at [type]; one whose
    [body] is missing or not an array with [invalid_type] at [body]; one
    whose [version], or whose [actions], is present and of the wrong type
    with [invalid_type] there. *)
Theorem card_required_fields `{Platform} :
  (forall input,
      (forall fields, input <> VObj fields) ->
      validate input = inl [Issue invalid_type [] []])
  /\ (forall fields,
        (get "type" fields <> VStr "AdaptiveCard" ->
         rejects invalid_literal [Key "type"] (validate (VObj fields)) = true)
        /\ ((forall xs, get "body" fields <> VArr xs) ->
            rejects invalid_type [Key "body"] (validate (VObj fields)) = true)
        /\ (get "version" fields <> VUndefined ->
            (forall s, get "version" fields <> VStr s) ->
            rejects invalid_type [Key "version"] (validate (VObj fields))
            = true)
        /\ (get "actions" fields <> VUndefined ->
            (forall xs, get "actions" fields <> VArr xs) ->
            rejects invalid_type [Key "actions"] (validate (VObj fields))
            = true)).
Proof.
  split.
  - intros input Hno. destruct input; try reflexivity.
    destruct (Hno fields eq_refl).
  - intros fields. repeat split.
    + intros Ht.
      apply (card_field_rejected _ _ fields ("type", z_literal "AdaptiveCard"));
        [simpl; auto|].
      unfold field_result, points. cbn [fst snd].
      destruct (get "type" fields) as [| | | |s| |]; try reflexivity.
      simpl. destruct (String.eqb_spec s "AdaptiveCard") as [->|Hne];
        [destruct (Ht eq_refl)|reflexivity].
    + intros Hb.
      apply (card_field_rejected _ _ fields
               ("body", z_array_max (z_union (options (depth (VObj fields)))) 50));
        [simpl; auto|].
      unfold field_result, points. cbn [fst snd].
      destruct (get "body" fields) as [| | | | |xs|]; try reflexivity.
      destruct (Hb xs eq_refl).
    + intros Hd Hs.
      apply (card_field_rejected _ _ fields
               ("version", z_default z_string (VStr "1.4")));
        [simpl; auto|].
      unfold field_result, points. cbn [fst snd].
      destruct (get "version" fields) as [| | | |s| |]; try reflexivity.
      * destruct (Hd eq_refl).
      * destruct (Hs s eq_refl).
    + intros Hd Ha.
      apply (card_field_rejected _ _ fields
               ("actions", z_optional (z_array ActionSchema)));
        [simpl; auto 6|].
      unfold field_result, points. cbn [fst snd].
      destruct (get "actions" fields) as [| | | | |xs|]; try reflexivity.
      * destruct (Hd eq_refl).
      * destruct (Ha xs eq_refl).
Qed.

Lemma card_required_fields_witness :
  validate (H := Sample.sample_platform) VNull = inl [Issue invalid_type [] []]
  /\ rejects invalid_literal [Key "type"]
       (validate (H := Sample.sample_platform)
          (VObj [("type", VStr "Card"); ("body", VArr [])])) = true
  /\ rejects invalid_type [Key "body"]
       (validate (H := Sample.sample_platform)
          (VObj [("type", VStr "AdaptiveCard")])) = true.
Proof.
  destruct (card_required_fields (H := Sample.sample_platform))
    as [Hother Hfields].
  split; [|split].
  - apply Hother. intros fields. discriminate.
  - apply (Hfields [("type", VStr "Card"); ("body", VArr [])]). discriminate.
  - apply (Hfields [("type", VStr "AdaptiveCard")]). intros xs. discriminate.
Defined.

End Requests.
(** ** The arguments of a rich message *)

Module RichArguments.
Import ZodFacts SchemaFacts Stack Literals Card Replay Relocation.

(** Each property of the object a schema returns is what the schema of
    that key returns on the input's. *)
Lemma object_fields (shape : list (string * Schema)) fields p out :
  List.NoDup (map fst shape) ->
  z_object shape (VObj fields) p = OK out ->
  forall ks, In ks shape -> field_result fields p ks = OK (field out (fst ks)).
Proof.
  intros Hnd Hx [k s] Hin. unfold z_object in Hx.
  apply mergeObject_OK in Hx as [-> Hok].
  rewrite map_map in *. rewrite Forall_map in Hok. cbn [fst snd] in *.
  rewrite Forall_forall in Hok.
  specialize (Hok (k, s) (proj2 (list_elem_of_In _ _) Hin)). cbn [fst snd] in Hok.
  unfold field_result. cbn [fst snd]. rewrite Hok at 1. f_equal.
  unfold obj, field.
  set (entries := map (fun x : string * Schema =>
                         written (fst x)
                           (if has (fst x) fields then Some VUndefined else None)
                           (value_of (snd x (get (fst x) fields)
                                        (p ++ [Key (fst x)])))) shape).
  set (vk := value_of (s (get k fields) (p ++ [Key k]))).
  destruct (get_entry k
              (snd (written k (if has k fields then Some VUndefined else None)
                      vk))
              entries) as [Hg _].
  - unfold entries. rewrite map_map. cbn [fst written]. exact Hnd.
  - unfold entries. apply in_map_iff. exists (k, s). split; [|exact Hin].
    reflexivity.
  - refine (eq_trans _ (eq_sym Hg)). unfold written. cbn [snd].
    destruct vk, (has k fields); reflexivity.
Qed.

(** An object all of whose fields parse, parses. *)
Lemma mergeObject_accepts (pairs : list (string * ParseReturn * bool)) :
  Forall (fun kr : string * ParseReturn * bool =>
            exists v, snd (fst kr) = OK v) pairs ->
  exists out, mergeObject pairs = OK out.
Proof.
  intros Hall.
  assert (Hnone : existsb (fun kr : string * ParseReturn * bool =>
                             is_aborted (snd (fst kr))) pairs = false
                  /\ existsb (fun kr : string * ParseReturn * bool =>
                                is_dirty (snd (fst kr))) pairs = false).
  { induction Hall as [|kr pairs [v Hv] Hall [IHa IHd]];
      [split; reflexivity|].
    simpl. rewrite Hv, IHa, IHd. split; reflexivity. }
  destruct Hnone as [Ha Hd]. unfold mergeObject. rewrite Ha, Hd. eauto.
Qed.

Lemma object_accepts (shape : list (string * Schema)) fields p :
  Forall (fun ks => exists v, field_result fields p ks = OK v) shape ->
  exists out, z_object shape (VObj fields) p = OK out.
Proof.
  intros Hall. unfold z_object. apply mergeObject_accepts.
  rewrite Forall_map. exact Hall.
Qed.

Section WithPlatform.
Context `{Platform}.

(** The [card] of the arguments is validated as a card is. *)
Lemma card_of_arguments (fields : list (string * Value)) (v : Value) :
  get "card" fields <> VUndefined ->
  z_optional (AdaptiveCardSchema (depth (VObj fields))) (get "card" fields)
    ([] ++ [Key "card"]) = OK v
  <-> validate (get "card" fields) = inr v.
Proof.
  intros Hdef.
  assert (Hparse :
    z_optional (AdaptiveCardSchema (depth (VObj fields)))
      (get "card" fields) ([] ++ [Key "card"])
    = relocate [Key "card"]
        (AdaptiveCardSchema (depth (get "card" fields)) (get "card" fields) [])).
  { assert (Hopt : forall s p,
              z_optional s (get "card" fields) p = s (get "card" fields) p)
      by (intros s p; destruct (get "card" fields);
          [destruct (Hdef eq_refl)|reflexivity..]).
    rewrite Hopt.
    rewrite card_any_stack by (pose proof (depth_get "card" fields); lia).
    change ([] ++ [Key "card"]) with ([Key "card"] ++ []).
    apply card_uniform. }
  rewrite Hparse. unfold validate, safeParse.
  destruct (AdaptiveCardSchema _ _ _); simpl; split; congruence.
Qed.

Lemma optional_string_accepts (x : Value) p v :
  z_optional z_string x p = OK v
  <-> (x = VUndefined \/ exists s, x = VStr s) /\ v = x.
Proof.
  destruct x; simpl; split;
    try (intros Heq; try discriminate; injection Heq as <-; eauto);
    try (intros [[Hx | [s0 Hx]] ->]; try discriminate; reflexivity).
Qed.

End WithPlatform.

(** X24.  The arguments the rich-message tool accepts.  An object is
    accepted exactly when its [text] and its [thread_id] are absent or
    strings, its [card] is absent or a card the card validator accepts,
    and there is something to send: a non-empty [text], or a [card].
    What is returned has the [text] and the [thread_id] of the input, and
    for [card] what the card validator returns on the input's, defaults
    filled in. *)
Theorem rich_message_arguments `{Platform} (fields : list (string * Value)) :
  let text := get "text" fields in
  let card := get "card" fields in
  let thread_id := get "thread_id" fields in
  ((exists out, validatePostRichMessageArgs (VObj fields) = inr out)
   <-> (text = VUndefined \/ exists s, text = VStr s)
       /\ (card = VUndefined \/ exists v, validate card = inr v)
       /\ (thread_id = VUndefined \/ exists t, thread_id = VStr t)
       /\ ((exists s, text = VStr s /\ s <> "") \/ card <> VUndefined))
  /\ (forall out,
        validatePostRichMessageArgs (VObj fields) = inr out ->
        field out "text" = text
        /\ field out "thread_id" = thread_id
        /\ (card = VUndefined -> field out "card" = VUndefined)
        /\ (card <> VUndefined -> validate card = inr (field out "card"))).
Proof.
  intros text card thread_id.
  set (shape := [("text", z_optional z_string);
                 ("card", z_optional (AdaptiveCardSchema (depth (VObj fields))));
                 ("thread_id", z_optional z_string)]).
  assert (Hnd : List.NoDup (map fst shape)) by (unfold shape; distinct_keys).
  assert (Hrun : validatePostRichMessageArgs (VObj fields)
                 = match z_object shape (VObj fields) [] with
                   | OK v =>
                       if truthy (Js.or (field v "text") (field v "card"))
                       then inr v
                       else inl [Issue (custom
                                          "Either text or card must be provided")
                                   [Key "text"; Key "card"] []]
                   | DIRTY v errs =>
                       inl (if truthy (Js.or (field v "text") (field v "card"))
                            then errs
                            else errs ++
                                 [Issue (custom
                                           "Either text or card must be provided")
                                    [Key "text"; Key "card"] []])
                   | INVALID errs => inl errs
                   end).
  { unfold validatePostRichMessageArgs, safeParse,
      PostRichMessageRequestSchema, z_refine. fold shape.
    destruct (z_object shape (VObj fields) []) as [v|v errs|errs];
      [|destruct (truthy _); reflexivity|reflexivity].
    destruct (truthy _); reflexivity. }
  assert (Hparts : forall out,
            z_object shape (VObj fields) [] = OK out ->
            (field out "text" = text
             /\ (text = VUndefined \/ exists s, text = VStr s))
            /\ (field out "thread_id" = thread_id
                /\ (thread_id = VUndefined \/ exists t, thread_id = VStr t))
            /\ (card = VUndefined -> field out "card" = VUndefined)
            /\ (card <> VUndefined -> validate card = inr (field out "card"))).
  { intros out Hout.
    pose proof (object_fields shape fields [] out Hnd Hout) as Hf.
    pose proof (Hf ("text", z_optional z_string)
                  (or_introl eq_refl)) as Ht.
    pose proof (Hf ("thread_id", z_optional z_string)
                  (or_intror (or_intror (or_introl eq_refl)))) as Hth.
    pose proof (Hf ("card",
                    z_optional (AdaptiveCardSchema (depth (VObj fields))))
                  (or_intror (or_introl eq_refl))) as Hc.
    unfold field_result in Ht, Hth, Hc. cbn [fst snd] in Ht, Hth, Hc.
    apply optional_string_accepts in Ht as [Ht ->].
    apply optional_string_accepts in Hth as [Hth ->].
    repeat split; auto.
    - intros Hu. fold card in Hc. rewrite Hu in Hc. injection Hc as <-.
      reflexivity.
    - intros Hd. apply card_of_arguments; assumption. }
  split.
  - split.
    + intros [out Hout]. rewrite Hrun in Hout.
      destruct (z_object shape (VObj fields) []) as [v|v errs|errs] eqn:Hobj;
        try discriminate.
      destruct (truthy (Js.or (field v "text") (field v "card"))) eqn:Hcheck;
        [|discriminate].
      destruct (Hparts v eq_refl) as ((Ht & Htext) & (_ & Hthread) & Hnone & Hsome).
      split; [exact Htext|]. split.
      { destruct (card) eqn:Hcard; try (right; eexists; apply Hsome; discriminate).
        left. reflexivity. }
      split; [exact Hthread|].
      rewrite Ht in Hcheck. unfold Js.or in Hcheck.
      destruct Htext as [Hu | [s Hs]].
      * right. intros Hcu. rewrite Hu, (Hnone Hcu) in Hcheck. discriminate.
      * rewrite Hs in Hcheck. simpl in Hcheck.
        destruct (String.eqb_spec s "") as [Hempty|Hne].
        -- right. intros Hcu. rewrite Hempty in Hcheck. simpl in Hcheck.
           rewrite (Hnone Hcu) in Hcheck. discriminate.
        -- left. eauto.
    + intros (Htext & Hcard & Hthread & Hsend).
      destruct (object_accepts shape fields []) as [out Hout].
      { unfold shape. repeat constructor; unfold field_result; cbn [fst snd].
        - exists text. apply optional_string_accepts. auto.
        - destruct Hcard as [Hu | [v Hv]].
          + exists VUndefined. fold card. rewrite Hu. reflexivity.
          + exists v. apply card_of_arguments; [|exact Hv].
            intros Hu. fold card in Hu. rewrite Hu in Hv. discriminate Hv.
        - exists thread_id. apply optional_string_accepts. auto. }
      exists out. rewrite Hrun, Hout.
      destruct (Hparts out Hout) as ((Ht & _) & _ & Hnone & Hsome).
      assert (Hcheck : truthy (Js.or (field out "text") (field out "card"))
                       = true).
      { rewrite Ht. unfold Js.or.
        destruct Hsend as [(s & Hs & Hne) | Hdef].
        - rewrite Hs. simpl. apply String.eqb_neq in Hne. rewrite Hne.
          simpl. rewrite Hne. reflexivity.
        - destruct (truthy text) eqn:Htt; [exact Htt|].
          destruct Hcard as [Hu | [v Hv]]; [destruct (Hdef Hu)|].
          pose proof (Hsome Hdef) as Hv'. rewrite Hv in Hv'.
          injection Hv' as <-.
          unfold validate, safeParse in Hv.
          destruct (AdaptiveCardSchema (depth card) card []) as [v'| |] eqn:Hp;
            try discriminate.
          injection Hv as <-.
          destruct card; try discriminate.
          unfold AdaptiveCardSchema, z_object in Hp.
          apply mergeObject_OK in Hp as [-> _]. reflexivity. }
      rewrite Hcheck. reflexivity.
  - intros out Hout. rewrite Hrun in Hout.
    destruct (z_object shape (VObj fields) []) as [v|v errs|errs] eqn:Hobj;
      try discriminate.
    destruct (truthy (Js.or (field v "text") (field v "card"))); [|discriminate].
    injection Hout as <-.
    destruct (Hparts v eq_refl) as ((Ht & _) & (Hth & _) & Hnone & Hsome).
    auto.
Qed.

Lemma rich_message_arguments_witness :
  exists out,
    validatePostRichMessageArgs (H := Sample.sample_platform)
      (VObj [("card", of_card Sample.nested_card); ("text", VStr "")])
    = inr out.
Proof.
  apply (proj1 (rich_message_arguments (H := Sample.sample_platform)
                  [("card", of_card Sample.nested_card); ("text", VStr "")])).
  split; [right; exists ""; reflexivity|].
  split; [right; eexists; vm_compute; reflexivity|].
  split; [left; reflexivity|].
  right. discriminate.
Defined.

End RichArguments.
(** ** The type of a validated card *)

Module Typing.
Import ZodFacts SchemaFacts Stack Literals Card Replay.

Lemma json_defined x : is_json x = true -> x <> VUndefined.
Proof. intros Hj ->. discriminate. Qed.

Lemma json_get k fields :
  is_json (VObj fields) = true ->
  (has k fields = false /\ get k fields = VUndefined)
  \/ (has k fields = true /\ is_json (get k fields) = true).
Proof.
  simpl. induction fields as [|[k' v] fields IH]; intros Hj; [left; auto|].
  simpl in *. apply andb_prop in Hj as [Hv Hj].
  destruct (String.eqb k k'); [right; auto|apply IH; exact Hj].
Qed.

Lemma json_lookup (xs : list Value) i x :
  is_json (VArr xs) = true -> xs !! i = Some x -> is_json x = true.
Proof.
  simpl. intros Hj Hx. rewrite forallb_forall in Hj. apply Hj.
  apply list_elem_of_In. apply list_elem_of_lookup. eauto.
Qed.

(** Definedness. *)
Lemma verbatim_keeps s : verbatim s -> keeps_defined s.
Proof. intros Hs x p v Hx Hd. destruct (Hs x p v Hx) as [-> _]. exact Hd. Qed.

Lemma optional_keeps s : keeps_defined s -> keeps_defined (z_optional s).
Proof.
  intros Hs x p v Hx Hd. destruct x; [destruct (Hd eq_refl)|..];
    apply (Hs _ _ _ Hx); discriminate.
Qed.

Lemma version_keeps `{Platform} : keeps_defined (z_default z_string (VStr "1.4")).
Proof.
  intros x p v Hx Hd. destruct x; try discriminate;
    injection Hx as <-; discriminate.
Qed.

Lemma array_keeps element maxLength : keeps_defined (ZodArray element maxLength).
Proof.
  intros x p v Hx _. destruct x; try discriminate.
  unfold ZodArray in Hx. apply mergeArray_OK in Hx as (_ & -> & _).
  discriminate.
Qed.

Lemma object_keeps shape : keeps_defined (z_object shape).
Proof.
  intros x p v Hx _. destruct x; try discriminate.
  unfold z_object in Hx. apply mergeObject_OK in Hx as [-> _]. discriminate.
Qed.

Create HintDb keeps.

#[export] Hint Resolve verbatim_keeps optional_keeps version_keeps array_keeps
  object_keeps string_verbatim url_verbatim number_verbatim boolean_verbatim
  unknown_verbatim literal_verbatim enum_verbatim width_verbatim : keeps.

(** The object a schema returns on JSON, entry by entry. *)
Lemma object_decoded (shape : list (string * Schema)) fields p out :
  Forall (fun ks => keeps_defined (snd ks)) shape ->
  is_json (VObj fields) = true ->
  z_object shape (VObj fields) p = OK out ->
  out = obj (map (fun ks : string * Schema =>
                    (fst ks, defined (value_of (field_result fields p ks))))
               shape)
  /\ Forall (fun ks : string * Schema =>
               field_result fields p ks
               = OK (value_of (field_result fields p ks))) shape.
Proof.
  intros Hkeep Hj Hx. unfold z_object in Hx.
  apply mergeObject_OK in Hx as [-> Hok].
  rewrite map_map in *. rewrite Forall_map in Hok. cbn [fst snd] in *.
  split; [|exact Hok]. f_equal.
  apply map_ext_in. intros [k s] Hin. cbn [fst snd].
  unfold written, field_result. cbn [fst snd]. f_equal.
  rewrite Forall_forall in Hkeep, Hok.
  specialize (Hkeep (k, s) (proj2 (list_elem_of_In _ _) Hin)).
  specialize (Hok (k, s) (proj2 (list_elem_of_In _ _) Hin)).
  cbn [fst snd] in *.
  unfold defined.
  destruct (json_get k fields Hj) as [[-> _] | [-> Hjk]].
  - simpl. rewrite orb_false_r.
    destruct (is_undefined _); reflexivity.
  - simpl. rewrite orb_true_r.
    destruct (is_undefined (value_of (s (get k fields) (p ++ [Key k]))))
      eqn:Hu; [|reflexivity].
    exfalso. apply (Hkeep _ _ _ Hok (json_defined _ Hjk)).
    destruct (value_of _); try discriminate. reflexivity.
Qed.

(** What each kind of field returns. *)
Section Fields.
Context `{Platform}.

Lemma literal_entry lit x p v :
  z_literal lit x p = OK v -> defined v = Some (VStr lit).
Proof.
  destruct x as [| | | |s| |]; try discriminate. simpl.
  destruct (String.eqb_spec s lit) as [->|]; [|discriminate].
  intros Heq. injection Heq as <-. reflexivity.
Qed.

Lemma string_entry x p v :
  z_string x p = OK v -> exists s, defined v = Some (VStr s).
Proof.
  destruct x as [| | | |s| |]; try discriminate.
  intros Heq. injection Heq as <-. eauto.
Qed.

Lemma url_entry x p v :
  z_string_url x p = OK v ->
  exists s, defined v = Some (VStr s) /\ URL_canParse s = true.
Proof.
  destruct x as [| | | |s| |]; try discriminate.
  unfold z_string_url, ZodString. simpl.
  destruct (URL_canParse s) eqn:Hu; [|discriminate].
  intros Heq. injection Heq as <-. eauto.
Qed.

Lemma enum_entry values x p v :
  z_enum values x p = OK v ->
  exists e : Enum values, defined v = Some (of_enum e).
Proof.
  destruct x as [| | | |s| |]; try discriminate. simpl.
  destruct (existsb (String.eqb s) values) eqn:He; [|discriminate].
  intros Heq. injection Heq as <-.
  exists {| enum_value := s; enum_ok := He |}. reflexivity.
Qed.

Lemma optional_enum_entry values x p v :
  z_optional (z_enum values) x p = OK v ->
  exists o : option (Enum values), defined v = of_enum <$> o.
Proof.
  destruct x as [| | | |s| |]; try discriminate.
  - intros Heq. injection Heq as <-. exists None. reflexivity.
  - intros Hx. unfold z_optional in Hx.
    apply enum_entry in Hx as [e He]. exists (Some e). exact He.
Qed.

Lemma optional_boolean_entry x p v :
  z_optional z_boolean x p = OK v ->
  exists o : option bool, defined v = VBool <$> o.
Proof.
  destruct x as [| |b| | | |]; try discriminate;
    intros Heq; injection Heq as <-.
  - exists None. reflexivity.
  - exists (Some b). reflexivity.
Qed.

Lemma optional_number_entry x p v :
  z_optional z_number x p = OK v ->
  exists o : option Z, defined v = VNum <$> o.
Proof.
  destruct x as [| | |n| | |]; try discriminate;
    intros Heq; injection Heq as <-.
  - exists None. reflexivity.
  - exists (Some n). reflexivity.
Qed.

Lemma optional_string_entry x p v :
  z_optional z_string x p = OK v ->
  exists o : option string, defined v = VStr <$> o.
Proof.
  destruct x as [| | | |s| |]; try discriminate;
    intros Heq; injection Heq as <-.
  - exists None. reflexivity.
  - exists (Some s). reflexivity.
Qed.

Lemma optional_unknown_entry x p v :
  z_optional z_unknown x p = OK v -> exists o : option Value, defined v = o.
Proof. intros _. eauto. Qed.

Lemma optional_width_entry x p v :
  z_optional (z_union [z_string; z_number]) x p = OK v ->
  exists o : option (string + Z), defined v = of_width <$> o.
Proof.
  destruct x as [| | |n|s| |]; try discriminate;
    intros Heq; injection Heq as <-.
  - exists None. reflexivity.
  - exists (Some (inr n)). reflexivity.
  - exists (Some (inl s)). reflexivity.
Qed.

Lemma version_entry x p v :
  z_default z_string (VStr "1.4") x p = OK v ->
  exists s, defined v = VStr <$> Some s.
Proof.
  destruct x as [| | | |s| |]; try discriminate;
    intros Heq; injection Heq as <-; eauto.
Qed.

End Fields.

(** Arrays of typed values. *)
Lemma imap_typed {A} (enc : A -> Value) (wf : A -> bool)
    (g : nat -> Value -> ParseReturn) (xs : list Value) :
  (forall i x v, is_json x = true -> g i x = OK v ->
                 exists a, v = enc a /\ wf a = true) ->
  forallb is_json xs = true ->
  Forall (fun r => r = OK (value_of r)) (imap g xs) ->
  exists l,
    map value_of (imap g xs) = map enc l
    /\ forallb wf l = true /\ length l = length xs.
Proof.
  revert g. induction xs as [|x xs IH]; intros g Hg Hj Hall.
  - exists []. auto.
  - simpl in Hj, Hall. apply andb_prop in Hj as [Hjx Hj].
    apply Forall_cons in Hall as [Hx Hall].
    destruct (Hg 0%nat x _ Hjx Hx) as (a & Ha & Hwf).
    destruct (IH (g ∘ S)) as (l & Hl & Hwfl & Hlen); [|exact Hj|exact Hall|].
    { intros i y v. apply Hg. }
    exists (a :: l). simpl. rewrite Ha, Hwf, Hlen. split; [|auto].
    f_equal. exact Hl.
Qed.

Lemma array_typed {A} (element : Schema) (enc : A -> Value) (wf : A -> bool)
    maxLength x p v :
  typed element enc wf ->
  is_json x = true ->
  ZodArray element maxLength x p = OK v ->
  exists l,
    defined v = Some (VArr (map enc l))
    /\ forallb wf l = true
    /\ match maxLength with
       | Some m => (length l <= m)%nat
       | None => True
       end.
Proof.
  intros Hel Hj Hx. destruct x as [| | | | |xs|]; try discriminate.
  unfold ZodArray in Hx. apply mergeArray_OK in Hx as (Hbig & -> & Hall).
  destruct (imap_typed enc wf (fun i x => element x (p ++ [Idx i])) xs)
    as (l & Hl & Hwf & Hlen); [|exact Hj|exact Hall|].
  { intros i x v Hjx Hx. apply (Hel _ _ _ Hjx Hx). }
  exists l. rewrite Hl. split; [reflexivity|]. split; [exact Hwf|].
  destruct maxLength as [m|]; [|exact I].
  rewrite Hlen. apply Nat.ltb_ge. exact Hbig.
Qed.

Lemma array_field_typed {A} (element : Schema) (enc : A -> Value)
    (wf : A -> bool) maxLength k fields p v :
  typed element enc wf ->
  is_json (VObj fields) = true ->
  ZodArray element maxLength (get k fields) p = OK v ->
  exists l,
    defined v = Some (VArr (map enc l))
    /\ forallb wf l = true
    /\ match maxLength with
       | Some m => (length l <= m)%nat
       | None => True
       end.
Proof.
  intros Hel Hj Hx.
  destruct (json_get k fields Hj) as [[_ Hg] | [_ Hjk]].
  - rewrite Hg in Hx. discriminate.
  - apply (array_typed element enc wf maxLength _ p v Hel Hjk Hx).
Qed.

Lemma optional_array_field_typed {A} (element : Schema) (enc : A -> Value)
    (wf : A -> bool) k fields p v :
  typed element enc wf ->
  is_json (VObj fields) = true ->
  z_optional (z_array element) (get k fields) p = OK v ->
  exists o : option (list A),
    defined v = (fun l => VArr (map enc l)) <$> o
    /\ match o with Some l => forallb wf l | None => true end = true.
Proof.
  intros Hel Hj Hx.
  destruct (json_get k fields Hj) as [[_ Hg] | [_ Hjk]].
  - rewrite Hg in Hx. injection Hx as <-. exists None. auto.
  - assert (Hx' : z_array element (get k fields) p = OK v).
    { destruct (get k fields); try discriminate; exact Hx. }
    destruct (array_typed element enc wf None _ p v Hel Hjk Hx')
      as (l & Hl & Hwf & _).
    exists (Some l). auto.
Qed.

Lemma union_typed {A} (options : list Schema) (enc : A -> Value)
    (wf : A -> bool) :
  Forall (fun o => typed o enc wf) options -> typed (z_union options) enc wf.
Proof.
  intros Hall x p v Hj Hx. unfold z_union in Hx.
  apply union_loop_OK in Hx as [(o & Hin & Ho) | Hd]; [|discriminate].
  rewrite Forall_forall in Hall.
  apply (Hall o (proj2 (list_elem_of_In _ _) Hin) x p v Hj Ho).
Qed.

Ltac keep_fields :=
  repeat (constructor; [cbn [snd]; auto 6 with keeps|]); constructor.

Ltac field_by_field Hall :=
  cbn [map] in *;
  repeat match goal with
         | H : Forall _ (_ :: _) |- _ => apply Forall_cons in H as [? H]
         end;
  clear Hall; unfold field_result in *; cbn [fst snd] in *.

Ltac decode_fields :=
  repeat match goal with
    | H : z_literal _ _ _ = OK _ |- _ =>
        apply literal_entry in H; rewrite H; clear H
    | H : z_string _ _ = OK _ |- _ =>
        apply string_entry in H as [? H]; rewrite H; clear H
    | H : z_enum _ _ _ = OK _ |- _ =>
        apply enum_entry in H as [? H]; rewrite H; clear H
    | H : z_optional (z_enum _) _ _ = OK _ |- _ =>
        apply optional_enum_entry in H as [? H]; rewrite H; clear H
    | H : z_optional z_boolean _ _ = OK _ |- _ =>
        apply optional_boolean_entry in H as [? H]; rewrite H; clear H
    | H : z_optional z_number _ _ = OK _ |- _ =>
        apply optional_number_entry in H as [? H]; rewrite H; clear H
    | H : z_optional z_string _ _ = OK _ |- _ =>
        apply optional_string_entry in H as [? H]; rewrite H; clear H
    | H : z_optional z_unknown _ _ = OK _ |- _ =>
        apply optional_unknown_entry in H as [? H]; rewrite H; clear H
    | H : z_optional (z_union [z_string; z_number]) _ _ = OK _ |- _ =>
        apply optional_width_entry in H as [? H]; rewrite H; clear H
    | H : z_default z_string (VStr "1.4") _ _ = OK _ |- _ =>
        apply version_entry in H as [? H]; rewrite H; clear H
    end.

Section Cards.
Context `{Platform}.

Lemma TextBlock_typed : typed TextBlockSchema of_TextBlock (fun _ => true).
Proof.
  intros x p v Hj Hx. destruct x as [| | | | | |fields]; try discriminate.
  unfold TextBlockSchema in Hx.
  apply object_decoded in Hx as [-> Hall]; [|keep_fields|exact Hj].
  field_by_field Hall. decode_fields.
  eexists (Build_TextBlock _ _ _ _ _ _ _ _ _ _). split; reflexivity.
Qed.

Lemma Image_typed :
  typed ImageSchema of_Image (fun i => URL_canParse (img_url i)).
Proof.
  intros x p v Hj Hx. destruct x as [| | | | | |fields]; try discriminate.
  unfold ImageSchema in Hx.
  apply object_decoded in Hx as [-> Hall]; [|keep_fields|exact Hj].
  field_by_field Hall.
  match goal with
  | H : z_string_url _ _ = OK _ |- _ =>
      apply url_entry in H as (u & H & Hu); rewrite H; clear H
  end.
  decode_fields.
  eexists (Build_Image u _ _ _ _ _ _). split; [reflexivity|exact Hu].
Qed.

Lemma Fact_typed : typed FactSchema of_Fact (fun _ => true).
Proof.
  intros x p v Hj Hx. destruct x as [| | | | | |fields]; try discriminate.
  unfold FactSchema in Hx.
  apply object_decoded in Hx as [-> Hall]; [|keep_fields|exact Hj].
  field_by_field Hall. decode_fields.
  eexists (Build_Fact _ _). split; reflexivity.
Qed.

Lemma FactSet_typed :
  typed FactSetSchema of_FactSet
    (fun f => (length (fs_facts f) <=? 10)%nat).
Proof.
  intros x p v Hj Hx. destruct x as [| | | | | |fields]; try discriminate.
  unfold FactSetSchema, z_array_max in Hx.
  apply object_decoded in Hx as [-> Hall]; [|keep_fields|exact Hj].
  field_by_field Hall.
  match goal with
  | H : ZodArray _ _ _ _ = OK _ |- _ =>
      apply (array_field_typed _ of_Fact (fun _ => true)) in H
        as (facts & H & _ & Hlen); [rewrite H; clear H|apply Fact_typed|exact Hj]
  end.
  decode_fields.
  eexists (Build_FactSet facts _ _). split; [reflexivity|].
  apply Nat.leb_le. exact Hlen.
Qed.

Lemma Action_typed : typed ActionSchema of_Action (fun _ => true).
Proof.
  intros x p v Hj Hx. destruct x as [| | | | | |fields]; try discriminate.
  unfold ActionSchema in Hx.
  apply object_decoded in Hx as [-> Hall]; [|keep_fields|exact Hj].
  field_by_field Hall. decode_fields.
  eexists (Build_Action _ _ _ _ _). split; reflexivity.
Qed.

Lemma ActionSet_typed :
  typed ActionSetSchema (fun actions => of_element (EActionSet actions))
    (fun _ => true).
Proof.
  intros x p v Hj Hx. destruct x as [| | | | | |fields]; try discriminate.
  unfold ActionSetSchema, z_array in Hx.
  apply object_decoded in Hx as [-> Hall]; [|keep_fields|exact Hj].
  field_by_field Hall.
  match goal with
  | H : ZodArray _ _ _ _ = OK _ |- _ =>
      apply (array_field_typed _ of_Action (fun _ => true)) in H
        as (actions & H & _ & _);
        [rewrite H; clear H|apply Action_typed|exact Hj]
  end.
  decode_fields.
  exists actions. split; reflexivity.
Qed.

Section Containers.
Variable element : Schema.
Hypothesis element_typed : typed element of_element wf_element.

Lemma Column_typed :
  typed (ColumnSchema element) (of_Column of_element)
    (fun c => match col_items c with
              | Some items => forallb wf_element items
              | None => true
              end).
Proof.
  intros x p v Hj Hx. destruct x as [| | | | | |fields]; try discriminate.
  unfold ColumnSchema, z_array in Hx.
  apply object_decoded in Hx as [-> Hall]; [|keep_fields|exact Hj].
  field_by_field Hall.
  match goal with
  | H : z_optional (ZodArray _ None) _ _ = OK _ |- _ =>
      apply (optional_array_field_typed _ of_element wf_element) in H
        as (items & H & Hwf);
        [rewrite H; clear H|exact element_typed|exact Hj]
  end.
  decode_fields.
  eexists (Build_Column _ _ items _ _). split; [reflexivity|exact Hwf].
Qed.

Lemma ColumnSet_typed : typed (ColumnSetSchema element) of_element wf_element.
Proof.
  intros x p v Hj Hx. destruct x as [| | | | | |fields]; try discriminate.
  unfold ColumnSetSchema, z_array in Hx.
  apply object_decoded in Hx as [-> Hall]; [|keep_fields|exact Hj].
  field_by_field Hall.
  match goal with
  | H : ZodArray _ _ _ _ = OK _ |- _ =>
      apply (array_field_typed _ (of_Column of_element)
               (fun c => match col_items c with
                         | Some items => forallb wf_element items
                         | None => true
                         end)) in H
        as (columns & H & Hwf & _);
        [rewrite H; clear H|apply Column_typed|exact Hj]
  end.
  decode_fields.
  eexists (EColumnSet columns _ _). split; [reflexivity|exact Hwf].
Qed.

Lemma Container_typed : typed (ContainerSchema element) of_element wf_element.
Proof.
  intros x p v Hj Hx. destruct x as [| | | | | |fields]; try discriminate.
  unfold ContainerSchema, z_array in Hx.
  apply object_decoded in Hx as [-> Hall]; [|keep_fields|exact Hj].
  field_by_field Hall.
  match goal with
  | H : ZodArray _ _ _ _ = OK _ |- _ =>
      apply (array_field_typed _ of_element wf_element) in H
        as (items & H & Hwf & _);
        [rewrite H; clear H|exact element_typed|exact Hj]
  end.
  decode_fields.
  eexists (EContainer items _ _ _). split; [reflexivity|exact Hwf].
Qed.

End Containers.

Lemma options_typed stack :
  typed (CardElementSchema stack) of_element wf_element ->
  typed (z_union (options stack)) of_element wf_element.
Proof.
  intros He. apply union_typed. unfold options.
  repeat constructor.
  - intros x p v Hj Hx.
    destruct (TextBlock_typed x p v Hj Hx) as (b & -> & _).
    exists (ETextBlock b). auto.
  - intros x p v Hj Hx.
    destruct (Image_typed x p v Hj Hx) as (i & -> & Hu).
    exists (EImage i). auto.
  - intros x p v Hj Hx.
    destruct (FactSet_typed x p v Hj Hx) as (f & -> & Hf).
    exists (EFactSet f). auto.
  - apply ColumnSet_typed. exact He.
  - apply Container_typed. exact He.
  - intros x p v Hj Hx.
    destruct (ActionSet_typed x p v Hj Hx) as (actions & -> & _).
    exists (EActionSet actions). auto.
Qed.

Lemma element_typed stack :
  typed (CardElementSchema stack) of_element wf_element.
Proof.
  induction stack as [|stack IH]; [intros x p v Hj Hx; discriminate|].
  intros x p v Hj Hx. rewrite CardElementSchema_unfold in Hx.
  apply (options_typed stack IH x p v Hj Hx).
Qed.

Lemma card_typed stack :
  typed (AdaptiveCardSchema stack) of_card
    (fun c => wf_card c
              && match card_version c with Some _ => true | None => false end).
Proof.
  intros x p v Hj Hx. destruct x as [| | | | | |fields]; try discriminate.
  unfold AdaptiveCardSchema, z_array_max, z_array in Hx.
  fold (options stack) in Hx.
  apply object_decoded in Hx as [-> Hall]; [|keep_fields|exact Hj].
  field_by_field Hall.
  match goal with
  | H : ZodArray _ (Some _) _ _ = OK _ |- _ =>
      apply (array_field_typed _ of_element wf_element) in H
        as (body & H & Hwf & Hlen);
        [rewrite H; clear H
        |apply options_typed; apply element_typed|exact Hj]
  end.
  match goal with
  | H : z_optional (ZodArray _ None) _ _ = OK _ |- _ =>
      apply (optional_array_field_typed _ of_Action (fun _ => true)) in H
        as (actions & H & _);
        [rewrite H; clear H|apply Action_typed|exact Hj]
  end.
  decode_fields.
  eexists (Build_AdaptiveCard _ body actions _). split; [reflexivity|].
  unfold wf_card. cbn [card_body]. rewrite Hwf.
  apply Nat.leb_le in Hlen. rewrite Hlen. reflexivity.
Qed.

End Cards.

(** X14.  The type of a validated card.  Whatever [validate] returns on a
    JSON input is a value of the type inferred from the schema: the
    encoding of an [AdaptiveCard] that is well-formed and has its
    [version], with the keys in schema order and no other key. *)
Theorem validated_card_is_typed `{Platform} (input out : Value) :
  is_json input = true ->
  validate input = inr out ->
  exists c : AdaptiveCard,
    out = of_card c /\ wf_card c = true /\ with_defaults c = c.
Proof.
  intros Hj Hv. unfold validate, safeParse in Hv.
  destruct (AdaptiveCardSchema (depth input) input []) as [v| |] eqn:Hp;
    try discriminate.
  injection Hv as ->.
  destruct (card_typed _ _ _ _ Hj Hp) as (c & -> & Hwf).
  apply andb_prop in Hwf as [Hwf Hd].
  exists c. split; [reflexivity|]. split; [exact Hwf|].
  destruct c as [[version|] body actions schema]; [reflexivity|discriminate].
Qed.

Lemma validated_card_is_typed_witness :
  exists c : AdaptiveCard,
    VObj [("type", VStr "AdaptiveCard"); ("version", VStr "1.4");
          ("body", VArr [VObj [("type", VStr "TextBlock");
                               ("text", VStr "hi")]])]
    = of_card c
    /\ wf_card (H := Sample.sample_platform) c = true
    /\ with_defaults c = c.
Proof.
  apply (validated_card_is_typed (H := Sample.sample_platform)
           (VObj [("type", VStr "AdaptiveCard");
                  ("body", VArr [VObj [("type", VStr "TextBlock");
                                       ("text", VStr "hi");
                                       ("id", VStr "greeting")]]);
                  ("msteams", VObj [("width", VStr "Full")])])).
  - reflexivity.
  - vm_compute. reflexivity.
Defined.

End Typing.
(** ** What a call requests and refuses *)

Module Handling.
Import Index Sample Handler Activities TokenCalls Literals Card Requests.
Local Open Scope m_scope.

Lemma prefix_append (a b : string) : String.prefix a (a +:+ b) = true.
Proof.
  induction a as [|c a IH]; simpl; [destruct b; reflexivity|].
  destruct (ascii_dec c c); [exact IH|congruence].
Qed.

Lemma prefix_append_both (a x y : string) :
  String.prefix x y = true -> String.prefix (a +:+ x) (a +:+ y) = true.
Proof.
  intros Hp. induction a as [|c a IH]; simpl; [exact Hp|].
  destruct (ascii_dec c c); [exact IH|congruence].
Qed.

Lemma prefix_refl (a : string) : String.prefix a a = true.
Proof.
  induction a as [|c a IH]; [reflexivity|].
  simpl. destruct (ascii_dec c c); [exact IH|congruence].
Qed.

Lemma target_under_activities `{Runtime} (serviceUrl conversationId : string)
    (replyToId : option string) :
  String.prefix (activities_url serviceUrl conversationId)
    (target_url serviceUrl conversationId replyToId) = true.
Proof.
  pose proof (prefix_refl (activities_url serviceUrl conversationId))
    as Hself.
  unfold target_url. destruct replyToId as [id|]; [|exact Hself].
  destruct (String.eqb id ""); [exact Hself|].
  unfold activities_url, reply_url.
  do 3 apply prefix_append_both. reflexivity.
Qed.

Section WithServer.
Context `{Platform} `{Runtime} (host : Host).

Lemma call_no_params (w : World) :
  callTool host None w = refusal w "Params are required".
Proof. reflexivity. Qed.

Lemma answer_frame (actionType : string) (sent : (Exn + Value) * World) :
  requests (snd (answer actionType sent)) = requests (snd sent)
  /\ tokenCache (snd (answer actionType sent)) = tokenCache (snd sent).
Proof.
  destruct sent as [[e|result] w]; simpl; [split; reflexivity|].
  destruct (prop result "id"); split; reflexivity.
Qed.

(** The world after [sendActivity], once the token is there. *)
Lemma sendActivity_world (serviceUrl conversationId : string)
    (activity : list (string * Value)) (replyToId : option string)
    (w w1 : World) (t : Value) :
  getBotConnectorToken host w = (inr t, w1) ->
  exists res lines,
    sendActivity host serviceUrl conversationId activity replyToId w
    = (res,
       after w1 (activity_request serviceUrl conversationId activity
                   replyToId t) lines).
Proof.
  intros Ht.
  rewrite (sendActivity_with_token host _ _ _ _ w w1 t Ht). cbv zeta.
  destruct (network host _) as [e|r]; [eauto|].
  destruct (ok r); [|eauto].
  destruct (JSON_parse (text r)); eauto.
Qed.

Lemma sendActivity_requests (serviceUrl conversationId : string)
    (activity : list (string * Value)) (replyToId : option string)
    (w : World) :
  exists new,
    requests (snd (sendActivity host serviceUrl conversationId activity
                     replyToId w)) = requests w ++ new
    /\ (length new <= 2)%nat
    /\ Forall (fun req =>
                 req = exchange_request host
                 \/ exists t, req = activity_request serviceUrl conversationId
                                     activity replyToId t) new.
Proof.
  destruct (token_cases host w)
    as [(c & Hc & Hlt & Hr) | [(Hs & Hcred & Hr) | (Hs & Hcred & [Hr | Hr])]].
  - destruct (sendActivity_world serviceUrl conversationId activity replyToId
                w w (token c) Hr) as (res & lines & ->).
    eexists [_]. split; [reflexivity|]. split; [simpl; lia|].
    constructor; [right; eauto|constructor].
  - exists []. unfold sendActivity, bind at 1. rewrite Hr. simpl.
    rewrite app_nil_r. split; [reflexivity|]. split; [simpl; lia|constructor].
  - destruct Hr as (e & lines & Hr).
    exists [exchange_request host]. unfold sendActivity, bind at 1.
    rewrite Hr. simpl. split; [reflexivity|]. split; [simpl; lia|].
    constructor; [left; reflexivity|constructor].
  - destruct Hr as (r & data & t & n & _ & _ & _ & Hr).
    destruct (sendActivity_world serviceUrl conversationId activity replyToId
                w _ t Hr) as (res & lines & ->).
    eexists [_; _]. simpl. rewrite <- app_assoc. split; [reflexivity|].
    split; [lia|].
    constructor; [left; reflexivity|]. constructor; [right; eauto|constructor].
Qed.

End WithServer.

(** X15.  The conversation comes first.  Unless [TEAMS_SERVICE_URL] and
    [TEAMS_CONVERSATION_ID] are both set and non-empty every call is
    refused, whatever the tool and the arguments, an unknown tool
    included, with the error naming the first of the two that is missing;
    the call makes no request and leaves the token cache alone. *)
Theorem conversation_required `{Platform} `{Runtime} (host : Host)
    (name : string) (arguments : Value) (w : World) :
  configured host = false ->
  callTool host (Some (name, arguments)) w
  = refusal w (if absent (env host !! "TEAMS_SERVICE_URL")
               then "TEAMS_SERVICE_URL is not set"
               else "TEAMS_CONVERSATION_ID is not set").
Proof. apply call_not_configured. Qed.

Lemma conversation_required_witness :
  let call := fun name =>
    callTool (H := sample_platform) (H0 := sample_runtime)
      (serving credentials 200 token_body)
      (Some (name, VObj [("text", VStr "hi")])) (world None 0) in
  call "teams_post_message" = refusal (world None 0) "TEAMS_SERVICE_URL is not set"
  /\ call "no_such_tool" = refusal (world None 0) "TEAMS_SERVICE_URL is not set".
Proof.
  intros call. split.
  - apply (conversation_required (H := sample_platform) (H0 := sample_runtime)
             (serving credentials 200 token_body) "teams_post_message").
    reflexivity.
  - apply (conversation_required (H := sample_platform) (H0 := sample_runtime)
             (serving credentials 200 token_body) "no_such_tool").
    reflexivity.
Defined.

(** X16.  A tool the server does not list is refused: with the
    conversation configured, a call to any name other than those of
    [listTools] fails with [Unknown tool:] and the name, makes no request
    and leaves the token cache alone. *)
Theorem unlisted_tool_refused `{Platform} `{Runtime} (host : Host)
    (name : string) (arguments : Value) (w : World) :
  configured host = true ->
  ~ In name (map Server.name (Server.listTools (fun schema => schema))) ->
  callTool host (Some (name, arguments)) w
  = refusal w ("Unknown tool: " +:+ name).
Proof.
  intros Hc Hno. apply call_unknown; [exact Hc|..];
    intros ->; apply Hno; simpl; auto.
Qed.

Lemma unlisted_tool_refused_witness :
  callTool (H := sample_platform) (H0 := sample_runtime)
    (serving conversation 200 token_body)
    (Some ("teams_list_channels", VObj [])) (world None 0)
  = refusal (world None 0) "Unknown tool: teams_list_channels".
Proof.
  apply (unlisted_tool_refused (H := sample_platform) (H0 := sample_runtime)
           (serving conversation 200 token_body) "teams_list_channels").
  - reflexivity.
  - simpl. intros [Heq|[Heq|[]]]; discriminate.
Defined.

(** X17.  The schema a tool is listed with is the schema its calls are
    held to.  (Listing with the identity for [zodToJsonSchema] shows the
    zod schema of each tool.)  Arguments the listed schema rejects have
    the call refused with the message of that [ZodError], before any
    request; arguments it accepts have the call answer as its one
    [sendActivity] to the configured conversation goes. *)
Theorem listed_schema_enforced `{Platform} `{Runtime} (host : Host)
    (tool : Server.Tool (nat -> Schema)) (arguments : Value) (w : World) :
  configured host = true ->
  In tool (Server.listTools (fun schema => schema)) ->
  match safeParse (Server.inputSchema tool (depth arguments)) arguments with
  | inl issues =>
      callTool host (Some (Server.name tool, arguments)) w
      = refusal w (ZodError_message issues)
  | inr args =>
      exists actionType activity replyToId,
        callTool host (Some (Server.name tool, arguments)) w
        = answer actionType
            (sendActivity host
               (default "" (env host !! "TEAMS_SERVICE_URL"))
               (default "" (env host !! "TEAMS_CONVERSATION_ID"))
               activity replyToId w)
  end.
Proof.
  intros Hc [<- | [<- | []]]; cbn [Server.name Server.inputSchema].
  - rewrite (call_post_message host arguments w Hc).
    unfold validatePostMessageArgs.
    destruct (safeParse PostMessageRequestSchema arguments); [reflexivity|].
    eexists _, _, _. reflexivity.
  - rewrite (call_post_rich_message host arguments w Hc).
    unfold validatePostRichMessageArgs.
    destruct (safeParse _ arguments); [reflexivity|].
    eexists _, _, _. reflexivity.
Qed.

Lemma listed_schema_enforced_witness :
  callTool (H := sample_platform) (H0 := sample_runtime)
    (serving conversation 200 token_body)
    (Some ("teams_post_rich_message", VObj [("text", VStr "")]))
    (world None 0)
  = refusal (world None 0) "ZodError".
Proof.
  exact (listed_schema_enforced (H := sample_platform) (H0 := sample_runtime)
           (serving conversation 200 token_body)
           {| Server.name := "teams_post_rich_message";
              Server.description :=
                "Post a rich structured message to Microsoft Teams with Adaptive Card support. Use this for formatted content like test results, status updates, or any content that benefits from structured layout.";
              Server.inputSchema := PostRichMessageRequestSchema |}
           (VObj [("text", VStr "")]) (world None 0) eq_refl
           (or_intror (or_introl eq_refl))).
Defined.

(** X18.  Where a call may send requests.  Whatever its parameters, a call
    adds at most two requests to those made so far, each a [POST]: the
    token exchange, or a request whose URL starts with the activities URL
    of the configured conversation. *)
Theorem call_requests `{Platform} `{Runtime} (host : Host)
    (params : option (string * Value)) (w : World) :
  exists new,
    requests (snd (callTool host params w)) = requests w ++ new
    /\ (length new <= 2)%nat
    /\ Forall (fun req =>
                 method req = "POST"
                 /\ (req = exchange_request host
                     \/ String.prefix
                          (activities_url
                             (default "" (env host !! "TEAMS_SERVICE_URL"))
                             (default "" (env host !! "TEAMS_CONVERSATION_ID")))
                          (url req) = true)) new.
Proof.
  assert (Hnone : forall m,
            exists new,
              requests (snd (refusal w m)) = requests w ++ new
              /\ (length new <= 2)%nat
              /\ Forall (fun req =>
                   method req = "POST"
                   /\ (req = exchange_request host
                       \/ String.prefix
                            (activities_url
                               (default "" (env host !! "TEAMS_SERVICE_URL"))
                               (default "" (env host !! "TEAMS_CONVERSATION_ID")))
                            (url req) = true)) new).
  { intros m. exists []. simpl. rewrite app_nil_r.
    split; [reflexivity|]. split; [lia|constructor]. }
  assert (Hsend : forall actionType activity replyToId,
            exists new,
              requests (snd (answer actionType
                (sendActivity host
                   (default "" (env host !! "TEAMS_SERVICE_URL"))
                   (default "" (env host !! "TEAMS_CONVERSATION_ID"))
                   activity replyToId w))) = requests w ++ new
              /\ (length new <= 2)%nat
              /\ Forall (fun req =>
                   method req = "POST"
                   /\ (req = exchange_request host
                       \/ String.prefix
                            (activities_url
                               (default "" (env host !! "TEAMS_SERVICE_URL"))
                               (default "" (env host !! "TEAMS_CONVERSATION_ID")))
                            (url req) = true)) new).
  { intros actionType activity replyToId.
    destruct (sendActivity_requests host
                (default "" (env host !! "TEAMS_SERVICE_URL"))
                (default "" (env host !! "TEAMS_CONVERSATION_ID"))
                activity replyToId w) as (new & Hreq & Hlen & Hall).
    exists new. rewrite (proj1 (answer_frame _ _)).
    split; [exact Hreq|]. split; [exact Hlen|].
    eapply Forall_impl; [exact Hall|].
    intros req [-> | [t ->]].
    - split; [reflexivity|]. left. reflexivity.
    - split; [reflexivity|]. right. apply target_under_activities. }
  destruct params as [[name arguments]|]; [|apply Hnone].
  destruct (configured host) eqn:Hc.
  2:{ rewrite (call_not_configured host name arguments w Hc). apply Hnone. }
  destruct (String.eqb_spec name "teams_post_message") as [->|Hn1].
  { rewrite (call_post_message host arguments w Hc).
    destruct (validatePostMessageArgs arguments); [apply Hnone|apply Hsend]. }
  destruct (String.eqb_spec name "teams_post_rich_message") as [->|Hn2].
  { rewrite (call_post_rich_message host arguments w Hc).
    destruct (validatePostRichMessageArgs arguments);
      [apply Hnone|apply Hsend]. }
  rewrite (call_unknown host name arguments w Hc Hn1 Hn2). apply Hnone.
Qed.

End Handling.
(** ** What a call delivers *)

Module Delivery.
Import Index Sample Handler Activities TokenCalls TokenBroker Literals Card
  Requests Handling.
Local Open Scope m_scope.

Section WithServer.
Context `{Platform} `{Runtime} (host : Host).


End WithServer.





(** X21.  A call under a cached token.  While the cache holds a token
    whose expiry is more than five minutes away, a call leaves the cache
    as it is and makes no request or exactly one, a [POST] authorized by
    [Bearer] and the cached token: never a token exchange. *)
Theorem call_with_cached_token `{Platform} `{Runtime} (host : Host)
    (params : option (string * Value)) (w : World) (c : TokenCache) :
  tokenCache w = Some c -> (clock w + 5 * 60 * 1000 < expiresAt c)%Z ->
  let w' := snd (callTool host params w) in
  tokenCache w' = Some c
  /\ (requests w' = requests w
      \/ exists post,
           requests w' = requests w ++ [post]
           /\ method post = "POST"
           /\ headers post
              = [("Authorization", "Bearer " +:+ to_string (token c));
                 ("Content-Type", "application/json")]).
Proof.
  intros Hcache Hfresh.
  assert (Hnone : forall m,
            tokenCache (snd (refusal w m)) = Some c
            /\ (requests (snd (refusal w m)) = requests w
                \/ exists post,
                     requests (snd (refusal w m)) = requests w ++ [post]
                     /\ method post = "POST"
                     /\ headers post
                        = [("Authorization",
                            "Bearer " +:+ to_string (token c));
                           ("Content-Type", "application/json")])).
  { intros m. split; [exact Hcache|]. left. reflexivity. }
  assert (Hsend : forall actionType activity replyToId,
            let w' := snd (answer actionType
                             (sendActivity host
                                (default "" (env host !! "TEAMS_SERVICE_URL"))
                                (default "" (env host !! "TEAMS_CONVERSATION_ID"))
                                activity replyToId w)) in
            tokenCache w' = Some c
            /\ (requests w' = requests w
                \/ exists post,
                     requests w' = requests w ++ [post]
                     /\ method post = "POST"
                     /\ headers post
                        = [("Authorization",
                            "Bearer " +:+ to_string (token c));
                           ("Content-Type", "application/json")])).
  { intros actionType activity replyToId. cbv zeta.
    destruct (answer_frame actionType
                (sendActivity host
                   (default "" (env host !! "TEAMS_SERVICE_URL"))
                   (default "" (env host !! "TEAMS_CONVERSATION_ID"))
                   activity replyToId w)) as [-> ->].
    destruct (sendActivity_world host
                (default "" (env host !! "TEAMS_SERVICE_URL"))
                (default "" (env host !! "TEAMS_CONVERSATION_ID"))
                activity replyToId w w (token c)
                (cache_hit host w c Hcache Hfresh)) as (res & lines & ->).
    split; [exact Hcache|]. right. eexists. split; [reflexivity|].
    split; reflexivity. }
  destruct params as [[name arguments]|]; [|apply Hnone].
  destruct (configured host) eqn:Hc.
  2:{ rewrite (call_not_configured host name arguments w Hc). apply Hnone. }
  destruct (String.eqb_spec name "teams_post_message") as [->|Hn1].
  { rewrite (call_post_message host arguments w Hc).
    destruct (validatePostMessageArgs arguments); [apply Hnone|apply Hsend]. }
  destruct (String.eqb_spec name "teams_post_rich_message") as [->|Hn2].
  { rewrite (call_post_rich_message host arguments w Hc).
    destruct (validatePostRichMessageArgs arguments);
      [apply Hnone|apply Hsend]. }
  rewrite (call_unknown host name arguments w Hc Hn1 Hn2). apply Hnone.
Qed.

Lemma call_with_cached_token_witness :
  let w := world (Some (cached (minutes 10))) 0 in
  let w' :=
    snd (callTool (H := sample_platform) (H0 := sample_runtime)
           (serving conversation 200 token_body)
           (Some ("teams_post_message", VObj [("text", VStr "hi")])) w) in
  tokenCache w' = Some (cached (minutes 10))
  /\ map headers (requests w')
     = [[("Authorization", "Bearer old");
         ("Content-Type", "application/json")]].
Proof.
  intros w w'.
  destruct (call_with_cached_token (H := sample_platform)
              (H0 := sample_runtime) (serving conversation 200 token_body)
              (Some ("teams_post_message", VObj [("text", VStr "hi")]))
              w (cached (minutes 10))) as [Hcache _].
  - reflexivity.
  - vm_compute. reflexivity.
  - split; [exact Hcache|]. reflexivity.
Defined.

End Delivery.
(** ** How a call ends *)

Module Outcomes.
Import Index Sample Handler Activities TokenCalls TokenBroker Handling.
Local Open Scope m_scope.

Section WithServer.
Context `{Platform} `{Runtime} (host : Host).


End WithServer.



End Outcomes.
(** ** Starting the server *)

Module Startup.
Import Index Sample TokenBroker.
Local Open Scope m_scope.

(** X23.  The startup check.  Without both credentials [main] writes two
    lines to the error console and exits with code 1, the server never
    being connected; [main] never throws; and when it leaves the server
    running both credentials are set, so that a token call on a stale
    cache always gets as far as the token exchange. *)
Theorem startup_guard `{Platform} `{Runtime} {J : Type} (host : Host)
    (zodToJsonSchema : (nat -> Schema) -> J)
    (connect : Server.Server J -> M unit) (w : World) :
  (credentials_set host = false ->
   Server.main host zodToJsonSchema connect w
   = (inr (Server.exit 1),
      noted
        (noted w ["TEAMS_BOT_APP_ID and TEAMS_BOT_APP_PASSWORD must be set."])
        ["These are the Azure Bot credentials, set by the execution environment."]))
  /\ (forall e w', Server.main host zodToJsonSchema connect w <> (inl e, w'))
  /\ (forall w',
        Server.main host zodToJsonSchema connect w = (inr Server.running, w') ->
        credentials_set host = true
        /\ forall w2,
             stale w2 ->
             requests (snd (getBotConnectorToken host w2))
             = requests w2 ++ [exchange_request host]).
Proof.
  assert (Hexit : credentials_set host = false ->
    Server.main host zodToJsonSchema connect w
    = (inr (Server.exit 1),
       noted
         (noted w ["TEAMS_BOT_APP_ID and TEAMS_BOT_APP_PASSWORD must be set."])
         ["These are the Azure Bot credentials, set by the execution environment."])).
  { intros Hc. unfold Server.main, Server.runStdioServer, try_catch, process_env.
    rewrite (credentials_absent host Hc). reflexivity. }
  split; [exact Hexit|]. split.
  - intros e w'. unfold Server.main, Server.runStdioServer, try_catch.
    destruct (absent (process_env host "TEAMS_BOT_APP_ID")
              || absent (process_env host "TEAMS_BOT_APP_PASSWORD"));
      [discriminate|].
    unfold bind. destruct (connect _ w) as [[e0|[]] w1]; discriminate.
  - intros w' Hrun. destruct (credentials_set host) eqn:Hc.
    + split; [reflexivity|]. intros w2 Hs.
      destruct (miss_outcome host w2 Hs Hc) as (e & lines & [Hf | Hok]).
      * rewrite Hf. reflexivity.
      * destruct Hok as (? & ? & ? & ? & _ & _ & _ & _ & _ & _ & Hr).
        rewrite Hr. reflexivity.
    + rewrite (Hexit eq_refl) in Hrun. discriminate.
Qed.

Lemma startup_guard_witness :
  Server.main (H := sample_platform) (H0 := sample_runtime)
    (serving (delete "TEAMS_BOT_APP_PASSWORD" conversation) 200 token_body)
    (fun schema => schema) (fun _ => ret tt) (world None 0)
  = (inr (Server.exit 1),
     noted
       (noted (world None 0)
          ["TEAMS_BOT_APP_ID and TEAMS_BOT_APP_PASSWORD must be set."])
       ["These are the Azure Bot credentials, set by the execution environment."]).
Proof.
  apply (startup_guard (H := sample_platform) (H0 := sample_runtime)
           (serving (delete "TEAMS_BOT_APP_PASSWORD" conversation) 200
              token_body)).
  vm_compute. reflexivity.
Defined.

End Startup.
